(** * The transaction layer [Txn] of the state-transition core (txn.go)

    A shallow embedding of [txn.go]: the journal is an ordered map keyed by
    raw bytes (the immutable radix tree of the Go code), the state objects are
    records, the slices of logs are views of arrays in an explicit heap (the
    versions of the journal share them), Go panics are an explicit result,
    and every method of [Txn] is a function on an explicit transaction
    state. *)

From Stdlib Require Import String.
From Stdlib Require Import List ZArith Lia Bool Sorted.
From Stdlib Require Import Strings.Byte.
Import ListNotations.
Open Scope Z_scope.

(** ** Bytes and byte strings *)

Definition bytes := list byte.

Definition byte_compare (x y : byte) : comparison :=
  N.compare (Byte.to_N x) (Byte.to_N y).

(** [bytes.Compare]: lexicographic order, a proper prefix comes first. *)
Fixpoint bytes_compare (a b : bytes) : comparison :=
  match a, b with
  | [], [] => Eq
  | [], _ :: _ => Lt
  | _ :: _, [] => Gt
  | x :: a', y :: b' =>
      match byte_compare x y with
      | Eq => bytes_compare a' b'
      | c => c
      end
  end.

Definition bytes_eqb (a b : bytes) : bool :=
  match bytes_compare a b with Eq => true | _ => false end.

Definition bytes_lt (a b : bytes) : Prop := bytes_compare a b = Lt.

Lemma to_N_inj (x y : byte) : Byte.to_N x = Byte.to_N y -> x = y.
Proof.
  intros H.
  assert (Some x = Some y) as E.
  { rewrite <- (Byte.of_to_N x), <- (Byte.of_to_N y). now rewrite H. }
  now inversion E.
Qed.

Lemma byte_compare_eq (x y : byte) : byte_compare x y = Eq <-> x = y.
Proof.
  unfold byte_compare. rewrite N.compare_eq_iff. split.
  - apply to_N_inj.
  - now intros ->.
Qed.

Lemma bytes_compare_eq (a b : bytes) : bytes_compare a b = Eq <-> a = b.
Proof.
  revert b. induction a as [|x a IH]; intros [|y b]; simpl; try (split; congruence).
  destruct (byte_compare x y) eqn:E.
  - apply byte_compare_eq in E. subst y. rewrite IH. split; congruence.
  - split; [discriminate|]. intros H. inversion H; subst.
    assert (byte_compare y y = Eq) by now apply byte_compare_eq. congruence.
  - split; [discriminate|]. intros H. inversion H; subst.
    assert (byte_compare y y = Eq) by now apply byte_compare_eq. congruence.
Qed.

Lemma bytes_compare_refl (a : bytes) : bytes_compare a a = Eq.
Proof. now apply bytes_compare_eq. Qed.

Lemma bytes_eqb_eq (a b : bytes) : bytes_eqb a b = true <-> a = b.
Proof.
  unfold bytes_eqb. rewrite <- bytes_compare_eq.
  destruct (bytes_compare a b); split; congruence.
Qed.

Lemma bytes_eqb_refl (a : bytes) : bytes_eqb a a = true.
Proof. now apply bytes_eqb_eq. Qed.

Lemma bytes_eqb_neq (a b : bytes) : bytes_eqb a b = false <-> a <> b.
Proof.
  rewrite <- bytes_eqb_eq. destruct (bytes_eqb a b); split; congruence.
Qed.

Lemma bytes_eqb_sym (a b : bytes) : bytes_eqb a b = bytes_eqb b a.
Proof.
  destruct (bytes_eqb a b) eqn:E.
  - apply bytes_eqb_eq in E. subst. now rewrite bytes_eqb_refl.
  - symmetry. apply bytes_eqb_neq. apply bytes_eqb_neq in E. congruence.
Qed.

Lemma byte_compare_antisym (x y : byte) :
  byte_compare y x = CompOpp (byte_compare x y).
Proof. unfold byte_compare. apply N.compare_antisym. Qed.

Lemma bytes_compare_antisym (a b : bytes) :
  bytes_compare b a = CompOpp (bytes_compare a b).
Proof.
  revert b. induction a as [|x a IH]; intros [|y b]; simpl; auto.
  rewrite (byte_compare_antisym x y).
  destruct (byte_compare x y); simpl; auto.
Qed.

Lemma byte_compare_lt_trans (x y z : byte) :
  byte_compare x y = Lt -> byte_compare y z = Lt -> byte_compare x z = Lt.
Proof.
  unfold byte_compare. rewrite !N.compare_lt_iff. lia.
Qed.

Lemma bytes_lt_trans (a b c : bytes) : bytes_lt a b -> bytes_lt b c -> bytes_lt a c.
Proof.
  unfold bytes_lt. revert b c.
  induction a as [|x a IH]; intros [|y b] [|z c]; simpl; try congruence.
  destruct (byte_compare x y) eqn:Exy.
  - apply byte_compare_eq in Exy. subst y.
    destruct (byte_compare x z); try congruence. apply IH.
  - destruct (byte_compare y z) eqn:Eyz.
    + apply byte_compare_eq in Eyz. subst z. now rewrite Exy.
    + now rewrite (byte_compare_lt_trans _ _ _ Exy Eyz).
    + congruence.
  - congruence.
Qed.

Lemma bytes_lt_irrefl (a : bytes) : ~ bytes_lt a a.
Proof. unfold bytes_lt. rewrite bytes_compare_refl. discriminate. Qed.

Lemma bytes_lt_neq (a b : bytes) : bytes_lt a b -> a <> b.
Proof. intros H ->. exact (bytes_lt_irrefl _ H). Qed.

(** ** The ordered journal map (go-immutable-radix)

    The radix tree is used through [Get], [Insert], [Delete] and [Walk]; a
    walk visits the entries in ascending order of their keys.  The tree is
    persistent: [CommitOnly] and [Txn] give a value that later writes do not
    change, so a tree is a plain value here, held as the list of its entries
    in walk order. *)

Module Radix.

Definition tree (V : Type) := list (bytes * V).

Definition New {V : Type} : tree V := [].

Fixpoint Get {V : Type} (k : bytes) (t : tree V) : option V :=
  match t with
  | [] => None
  | (k', v) :: r => if bytes_eqb k k' then Some v else Get k r
  end.

Fixpoint Insert {V : Type} (k : bytes) (v : V) (t : tree V) : tree V :=
  match t with
  | [] => [(k, v)]
  | (k', v') :: r =>
      match bytes_compare k k' with
      | Lt => (k, v) :: t
      | Eq => (k, v) :: r
      | Gt => (k', v') :: Insert k v r
      end
  end.

Fixpoint Delete {V : Type} (k : bytes) (t : tree V) : tree V :=
  match t with
  | [] => []
  | (k', v') :: r =>
      if bytes_eqb k k' then Delete k r else (k', v') :: Delete k r
  end.

(** The entries in the order [Walk] visits them. *)
Definition Walk {V : Type} (t : tree V) : list (bytes * V) := t.

Definition keys {V : Type} (t : tree V) : list bytes := map fst t.

(** The representation invariant: keys strictly ascending. *)
Definition ok {V : Type} (t : tree V) : Prop := StronglySorted bytes_lt (keys t).

Section Facts.
Context {V : Type}.
Implicit Types (t : tree V) (k : bytes) (v : V).

Lemma Get_Insert k' k v t :
  Get k' (Insert k v t) = if bytes_eqb k' k then Some v else Get k' t.
Proof.
  induction t as [|[k1 v1] r IH]; simpl.
  - reflexivity.
  - destruct (bytes_compare k k1) eqn:E; simpl.
    + apply bytes_compare_eq in E. subst k1.
      destruct (bytes_eqb k' k); reflexivity.
    + reflexivity.
    + rewrite IH. destruct (bytes_eqb k' k1) eqn:E1; [|reflexivity].
      apply bytes_eqb_eq in E1. subst k1.
      destruct (bytes_eqb k' k) eqn:E2; [|reflexivity].
      apply bytes_eqb_eq in E2. subst k'.
      rewrite bytes_compare_refl in E. discriminate.
Qed.

Lemma Get_Insert_eq k v t : Get k (Insert k v t) = Some v.
Proof. rewrite Get_Insert. now rewrite bytes_eqb_refl. Qed.

Lemma Get_Insert_ne k' k v t : k' <> k -> Get k' (Insert k v t) = Get k' t.
Proof.
  intros H. rewrite Get_Insert.
  apply bytes_eqb_neq in H. now rewrite H.
Qed.

Lemma Get_Delete k' k t :
  Get k' (Delete k t) = if bytes_eqb k' k then None else Get k' t.
Proof.
  induction t as [|[k1 v1] r IH]; simpl.
  - destruct (bytes_eqb k' k); reflexivity.
  - destruct (bytes_eqb k k1) eqn:E; simpl.
    + apply bytes_eqb_eq in E. subst k1. rewrite IH.
      destruct (bytes_eqb k' k); reflexivity.
    + rewrite IH. destruct (bytes_eqb k' k1) eqn:E1; [|reflexivity].
      apply bytes_eqb_eq in E1. subst k1.
      rewrite bytes_eqb_sym, E. reflexivity.
Qed.

Lemma Get_In k v t : Get k t = Some v -> In (k, v) t.
Proof.
  induction t as [|[k1 v1] r IH]; simpl; [discriminate|].
  destruct (bytes_eqb k k1) eqn:E.
  - apply bytes_eqb_eq in E. subst. intros H. inversion H. now left.
  - intros H. right. auto.
Qed.

Lemma keys_Insert_in k v t x : In x (keys (Insert k v t)) -> x = k \/ In x (keys t).
Proof.
  unfold keys. induction t as [|[k1 v1] r IH]; simpl.
  - intuition.
  - destruct (bytes_compare k k1) eqn:E; simpl.
    + apply bytes_compare_eq in E. subst. intuition.
    + intuition.
    + intros [H|H]; [intuition|]. apply IH in H. intuition.
Qed.

Lemma keys_Delete_in k t x : In x (keys (Delete k t)) -> In x (keys t).
Proof.
  unfold keys. induction t as [|[k1 v1] r IH]; simpl; [tauto|].
  destruct (bytes_eqb k k1); simpl; intuition.
Qed.

Lemma ok_New : ok (@New V).
Proof. constructor. Qed.

Lemma ok_Insert k v t : ok t -> ok (Insert k v t).
Proof.
  unfold ok, keys. induction t as [|[k1 v1] r IH]; simpl; intros H.
  - repeat constructor.
  - inversion H as [|? ? Hr Hall]; subst.
    destruct (bytes_compare k k1) eqn:E; simpl.
    + apply bytes_compare_eq in E. subst k1. now constructor.
    + constructor; [exact H|]. constructor; [exact E|].
      eapply Forall_impl; [|exact Hall].
      intros x Hx. eapply bytes_lt_trans; eauto.
    + constructor; [now apply IH|].
      apply Forall_forall. intros x Hx.
      apply (keys_Insert_in k v r) in Hx. destruct Hx as [->|Hx].
      * unfold bytes_lt. rewrite bytes_compare_antisym, E. reflexivity.
      * rewrite Forall_forall in Hall. now apply Hall.
Qed.

Lemma ok_Delete k t : ok t -> ok (Delete k t).
Proof.
  unfold ok, keys. induction t as [|[k1 v1] r IH]; simpl; intros H.
  - constructor.
  - inversion H as [|? ? Hr Hall]; subst.
    destruct (bytes_eqb k k1); simpl; [now apply IH|].
    constructor; [now apply IH|].
    apply Forall_forall. intros x Hx.
    apply (keys_Delete_in k r) in Hx.
    rewrite Forall_forall in Hall. now apply Hall.
Qed.

Lemma ok_tail k v t : ok ((k, v) :: t) -> ok t.
Proof. unfold ok, keys. simpl. intros H. now inversion H. Qed.

Lemma ok_head_fresh k v t : ok ((k, v) :: t) -> Get k t = None.
Proof.
  unfold ok, keys. simpl. intros H. inversion H as [|? ? _ Hall]; subst.
  destruct (Get k t) eqn:E; [|reflexivity].
  apply Get_In in E. apply (in_map fst) in E. simpl in E.
  rewrite Forall_forall in Hall. apply Hall in E.
  now apply bytes_lt_irrefl in E.
Qed.

(** In a well-formed tree an entry is found by its key. *)
Lemma In_Get k v t : ok t -> In (k, v) t -> Get k t = Some v.
Proof.
  induction t as [|[k1 v1] r IH]; simpl; intros Hok Hin; [contradiction|].
  destruct Hin as [H|H].
  - inversion H; subst. now rewrite bytes_eqb_refl.
  - destruct (bytes_eqb k k1) eqn:E.
    + apply bytes_eqb_eq in E. subst k1.
      pose proof (ok_head_fresh _ _ _ Hok) as Hf.
      rewrite (IH (ok_tail _ _ _ Hok) H) in Hf. discriminate.
    + apply IH; [exact (ok_tail _ _ _ Hok)|exact H].
Qed.

End Facts.

End Radix.

(** ** Package [types]: addresses and hashes *)

Definition AddressLength : nat := 20.
Definition HashLength : nat := 32.

(** [types.Address] is [[20]byte] and [types.Hash] (like [evmc.Hash]) is
    [[32]byte]; the length is what the Go type guarantees. *)
Definition Address := bytes.
Definition Hash := bytes.

Definition is_address (a : Address) : Prop := length a = AddressLength.
Definition is_hash (h : Hash) : Prop := length h = HashLength.

(** [Address.Bytes] and [Hash.Bytes] give the bytes of the array as a slice. *)
Definition Address_Bytes (a : Address) : bytes := a.
Definition Hash_Bytes (h : Hash) : bytes := h.

(** Modelled from the spec: [types.BytesToHash] and [types.BytesToAddress]
    live in package [types], which is not among the sources.  The spec fixes a
    Hash as a 32-byte value and an Address as a 20-byte identity; the bytes are
    copied right-aligned into the zero array, the leading ones dropped when
    there are too many. *)
Definition right_align (n : nat) (b : bytes) : bytes :=
  repeat x00 (n - length b) ++ skipn (length b - n) b.

Definition BytesToHash (b : bytes) : Hash := right_align HashLength b.
Definition BytesToAddress (b : bytes) : Address := right_align AddressLength b.

Definition zeroHash : Hash := repeat x00 HashLength.

Definition Hash_eqb (a b : Hash) : bool := bytes_eqb a b.

(** [EmptyStateHash], the constant of txn.go. *)
Definition EmptyStateHash : Hash :=
  [x56; xe8; x1f; x17; x1b; xcc; x55; xa6; xff; x83; x45; xe6; x92; xc0; xf8; x6e;
   x5b; x48; xe0; x1b; x99; x6c; xad; xc0; x01; x62; x2f; xb5; xe3; x63; xb4; x21].

(** logIndex is the index of the logs in the trie *)
Definition logIndex : bytes := Hash_Bytes (BytesToHash [x02]).

(** refundIndex is the index of the refund *)
Definition refundIndex : bytes := Hash_Bytes (BytesToHash [x03]).

(** ** Package [evmc]: revisions and storage status *)

Definition Revision := Z.
Definition Frontier : Revision := 0.
Definition Homestead : Revision := 1.
Definition TangerineWhistle : Revision := 2.
Definition SpuriousDragon : Revision := 3.
Definition Byzantium : Revision := 4.
Definition Constantinople : Revision := 5.
Definition Petersburg : Revision := 6.
Definition Istanbul : Revision := 7.
Definition Berlin : Revision := 8.
Definition London : Revision := 9.

Inductive StorageStatus : Set :=
| StorageUnchanged
| StorageModified
| StorageModifiedAgain
| StorageAdded
| StorageDeleted.

(** ** Package [runtime]: the execution errors *)

Inductive error : Set :=
| ErrOutOfGas
| ErrStackOverflow
| ErrStackUnderflow
| ErrNotEnoughFunds
| ErrInsufficientBalance
| ErrMaxCodeSizeExceeded
| ErrContractAddressCollision
| ErrDepth
| ErrExecutionReverted
| ErrCodeStoreOutOfGas.

(** ** Machine integers *)

Definition u64 (z : Z) : Z := z mod 2 ^ 64.
Arguments u64 : simpl never.

(** ** Accounts, state objects and the values of the journal *)

Record Account : Type := mkAccount {
  Nonce : Z;          (* uint64 *)
  Balance : Z;        (* *big.Int *)
  Root : Hash;
  CodeHash : bytes
}.

(** The per-account overlay of storage slots: a key holds the bytes of the
    value, or [None] for the nil that [SetState] writes for a zero value. *)
Definition slots := Radix.tree (option bytes).

Record stateObject : Type := mkStateObject {
  obj_Account : Account;
  obj_Code : bytes;
  obj_Suicide : bool;
  obj_Deleted : bool;
  obj_DirtyCode : bool;
  obj_Txn : option slots   (* *iradix.Txn, nil until the first SetState *)
}.

Record Log : Type := mkLog {
  Log_Address : Address;
  Log_Topics : list Hash;
  Log_Data : bytes
}.

(** ** Slices of logs

    A [[]*Log] is a view of a backing array, and Go's [append] writes into
    the array of its argument while that has room: the slices that several
    versions of the journal hold may share cells.  The arrays are kept in a
    heap and a slice names its array by address.  The slices of this package
    come from [[]*Log{}] and from [append] only, so each begins at the first
    cell of its array and has the length of the array as its capacity. *)

Definition array : Type := list (option Log).   (* the cells, each a *Log *)
Definition heap : Type := list array.            (* the arrays, by address *)

Record slice : Type := mkSlice {
  slice_array : option nat;   (* none for a slice of no cell: nil, []*Log{} *)
  slice_len : nat
}.

Definition backing (h : heap) (s : slice) : array :=
  match slice_array s with
  | Some a => nth a h []
  | None => []
  end.

Definition cap (h : heap) (s : slice) : nat := length (backing h s).

(** The elements [s[0]], ..., [s[len(s)-1]].  A slice of Go never reaches
    past its array; reading nil there keeps the function total. *)
Definition elems (h : heap) (s : slice) : list (option Log) :=
  map (fun i => nth i (backing h s) None) (seq 0 (slice_len s)).

Fixpoint set_nth {A : Type} (i : nat) (x : A) (l : list A) : list A :=
  match l, i with
  | [], _ => []
  | _ :: r, O => x :: r
  | y :: r, S i => y :: set_nth i x r
  end.

(** The assignment [s[i] = x] to a cell of the array of [s]. *)
Definition store (h : heap) (s : slice) (i : nat) (x : option Log) : heap :=
  match slice_array s with
  | Some a => set_nth a (set_nth i x (nth a h [])) h
  | None => h
  end.

(** The journal holds [interface{}] values of three dynamic types. *)
Inductive value : Type :=
| VObject (o : stateObject)    (* *stateObject *)
| VLogs (l : slice)            (* []*Log *)
| VRefund (r : Z).             (* uint64 *)

(** The objects [Commit] returns. *)
Record StorageObject : Type := mkStorageObject {
  Storage_Deleted : bool;
  Storage_Key : bytes;
  Storage_Val : bytes
}.

Record Object : Type := mkObject {
  Object_Address : Address;
  Object_CodeHash : Hash;
  Object_Balance : Z;
  Object_Root : Hash;
  Object_Nonce : Z;
  Object_Deleted : bool;
  Object_DirtyCode : bool;
  Object_Code : bytes;
  Object_Storage : list StorageObject
}.

(** The read-only view of the committed state the Txn is bound to.
    [Snapshot_GetAccount] returns the account (or nil) and whether the error
    is non-nil. *)
Record Snapshot : Type := mkSnapshot {
  Snapshot_GetAccount : Address -> option Account * bool;
  Snapshot_GetCode : Hash -> Address -> bytes * bool;
  Snapshot_GetStorage : Address -> Hash -> Hash -> Hash
}.

(** Txn is a reference of the state.  [Txn_heap] is not a field of the Go
    struct: it is the part of the Go heap that the log slices of the journal
    and of the snapshots point into. *)
Record Txn : Type := mkTxn {
  Txn_snapshot : Snapshot;
  Txn_snapshots : list (Radix.tree value);
  Txn_txn : Radix.tree value;
  Txn_rev : Revision;
  Txn_heap : heap
}.

Definition set_txn (j : Radix.tree value) (txn : Txn) : Txn :=
  mkTxn (Txn_snapshot txn) (Txn_snapshots txn) j (Txn_rev txn) (Txn_heap txn).

Definition set_snapshots (l : list (Radix.tree value)) (txn : Txn) : Txn :=
  mkTxn (Txn_snapshot txn) l (Txn_txn txn) (Txn_rev txn) (Txn_heap txn).

Definition set_heap (h : heap) (txn : Txn) : Txn :=
  mkTxn (Txn_snapshot txn) (Txn_snapshots txn) (Txn_txn txn) (Txn_rev txn) h.

Definition set_Balance (b : Z) (a : Account) : Account :=
  mkAccount (Nonce a) b (Root a) (CodeHash a).

Definition set_Nonce (n : Z) (a : Account) : Account :=
  mkAccount n (Balance a) (Root a) (CodeHash a).

Definition set_CodeHash (h : bytes) (a : Account) : Account :=
  mkAccount (Nonce a) (Balance a) (Root a) h.

Definition set_Account (a : Account) (o : stateObject) : stateObject :=
  mkStateObject a (obj_Code o) (obj_Suicide o) (obj_Deleted o) (obj_DirtyCode o) (obj_Txn o).

Definition set_Code (c : bytes) (o : stateObject) : stateObject :=
  mkStateObject (obj_Account o) c (obj_Suicide o) (obj_Deleted o) (obj_DirtyCode o) (obj_Txn o).

Definition set_Suicide (b : bool) (o : stateObject) : stateObject :=
  mkStateObject (obj_Account o) (obj_Code o) b (obj_Deleted o) (obj_DirtyCode o) (obj_Txn o).

Definition set_Deleted (b : bool) (o : stateObject) : stateObject :=
  mkStateObject (obj_Account o) (obj_Code o) (obj_Suicide o) b (obj_DirtyCode o) (obj_Txn o).

Definition set_DirtyCode (b : bool) (o : stateObject) : stateObject :=
  mkStateObject (obj_Account o) (obj_Code o) (obj_Suicide o) (obj_Deleted o) b (obj_Txn o).

Definition set_obj_Txn (s : option slots) (o : stateObject) : stateObject :=
  mkStateObject (obj_Account o) (obj_Code o) (obj_Suicide o) (obj_Deleted o) (obj_DirtyCode o) s.

(** ** Panics and the two monads of the embedding *)

Inductive panic : Type :=
| PanicMsg (msg : string)     (* panic(msg) *)
| PanicIndex                  (* index out of range *)
| PanicTypeAssertion          (* v.(T) on a value of another dynamic type *)
| PanicNilDeref.              (* field access through a nil pointer *)

Inductive result (A : Type) : Type :=
| Ok (a : A)
| Panics (p : panic).
Arguments Ok {A} a.
Arguments Panics {A} p.

Definition rbind {A B : Type} (m : result A) (f : A -> result B) : result B :=
  match m with
  | Ok a => f a
  | Panics p => Panics p
  end.

(** A method that may change the Txn. *)
Definition M (A : Type) : Type := Txn -> result (A * Txn).

Definition ret {A : Type} (a : A) : M A := fun txn => Ok (a, txn).

Definition bind {A B : Type} (m : M A) (f : A -> M B) : M B :=
  fun txn =>
    match m txn with
    | Ok (a, txn') => f a txn'
    | Panics p => Panics p
    end.

(** A method that only reads the Txn. *)
Definition read {A : Type} (g : Txn -> result A) : M A :=
  fun txn =>
    match g txn with
    | Ok a => Ok (a, txn)
    | Panics p => Panics p
    end.

Declare Scope result_scope.
Delimit Scope result_scope with R.
Declare Scope method_scope.
Delimit Scope method_scope with M.

Notation "x <- m ;; k" := (rbind m (fun x => k))
  (at level 61, m at next level, right associativity) : result_scope.
Notation "x <- m ;; k" := (bind m (fun x => k))
  (at level 61, m at next level, right associativity) : method_scope.
Notation "m ;; k" := (bind m (fun _ => k))
  (at level 61, right associativity) : method_scope.

(** ** The methods of [Txn] *)

Section Methods.

(** [web3.Keccak256], an external hash function. *)
Variable Keccak256 : bytes -> bytes.

(** The growth policy of the Go runtime, which is not part of the sources:
    the number of spare cells that [append] gives a new array beyond the
    cells it needs, by the capacity of the array that was full. *)
Variable spare : nat -> nat.

(** The builtin [append(s, x)]: into the array of [s] while
    [len(s) < cap(s)], into a new array that holds a copy of the elements
    otherwise. *)
Definition append (s : slice) (x : option Log) (h : heap) : slice * heap :=
  if (slice_len s <? cap h s)%nat then
    (mkSlice (slice_array s) (S (slice_len s)), store h s (slice_len s) x)
  else
    (mkSlice (Some (length h)) (S (slice_len s)),
     h ++ [elems h s ++ x :: repeat None (spare (cap h s))]).

Definition EmptyCodeHash : bytes := Keccak256 [].

(** Modelled from the spec: [Account.Copy] is declared outside the sources;
    it returns an independent account with a deep copy of the balance. *)
Definition Account_Copy (a : Account) : Account :=
  mkAccount (Nonce a) (Balance a) (Root a) (CodeHash a).

(** Modelled from the spec: [stateObject.Copy] is declared outside the
    sources; it returns an independent object, the slot overlay being the
    same persistent structure. *)
Definition Copy (s : stateObject) : stateObject :=
  mkStateObject (Account_Copy (obj_Account s)) (obj_Code s) (obj_Suicide s)
    (obj_Deleted s) (obj_DirtyCode s) (obj_Txn s).

(** Modelled from the spec: [stateObject.Empty] is declared outside the
    sources; an account is empty iff its balance is 0, its nonce is 0 and its
    code hash is [EmptyCodeHash]. *)
Definition Empty_obj (s : stateObject) : bool :=
  (Nonce (obj_Account s) =? 0) && (Balance (obj_Account s) =? 0)
  && bytes_eqb (CodeHash (obj_Account s)) EmptyCodeHash.

Definition newTxn (snapshot : Snapshot) : Txn :=
  let i := @Radix.New value in
  mkTxn snapshot [] i Frontier [].

Definition NewTxn (snapshot : Snapshot) : Txn := newTxn snapshot.

(** Snapshot takes a snapshot at this point in time *)
Definition Snapshot_ : M Z :=
  fun txn =>
    let t := Txn_txn txn in
    let id := Z.of_nat (length (Txn_snapshots txn)) in
    Ok (id, set_snapshots (Txn_snapshots txn ++ [t]) txn).

(** [l[id]] on a slice, with Go's bounds check. *)
Definition index {A : Type} (l : list A) (id : Z) : result A :=
  if id <? 0 then Panics PanicIndex
  else match nth_error l (Z.to_nat id) with
       | Some x => Ok x
       | None => Panics PanicIndex
       end.

(** RevertToSnapshot reverts to a given snapshot *)
Definition RevertToSnapshot (id : Z) : M unit :=
  fun txn =>
    if id >? Z.of_nat (length (Txn_snapshots txn)) then
      Panics (PanicMsg EmptyString)
    else
      match index (Txn_snapshots txn) id with
      | Panics p => Panics p
      | Ok tree => Ok (tt, set_txn tree txn)
      end.

Definition getStateObject (addr : Address) (txn : Txn) : result (option stateObject) :=
  match Radix.Get (Address_Bytes addr) (Txn_txn txn) with
  | Some val =>
      match val with
      | VObject obj =>
          if obj_Deleted obj then Ok None
          else Ok (Some (Copy obj))
      | _ => Panics PanicTypeAssertion
      end
  | None =>
      let '(account, err) := Snapshot_GetAccount (Txn_snapshot txn) addr in
      if err then Ok None
      else match account with
           | None => Ok None
           | Some account =>
               Ok (Some (mkStateObject (Account_Copy account) [] false false false None))
           end
  end.

(** GetAccount returns an account *)
Definition GetAccount (addr : Address) (txn : Txn) : result (option Account) :=
  (object <- getStateObject addr txn ;;
   match object with
   | None => Ok None
   | Some object => Ok (Some (obj_Account object))
   end)%R.

(** The callback [f] gets the object (nil when the account is absent and
    [create] is false), may change it in place and may set variables of the
    caller: it returns what it set and the object after the call. *)
Definition upsertAccount {R : Type} (addr : Address) (create : bool)
    (f : option stateObject -> result (R * option stateObject)) : M R :=
  fun txn =>
    match getStateObject addr txn with
    | Panics p => Panics p
    | Ok got =>
        let object :=
          match got with
          | Some o => Some o
          | None =>
              if create then
                Some (mkStateObject (mkAccount 0 0 EmptyStateHash EmptyCodeHash)
                        [] false false false None)
              else None
          end in
        (* run the callback to modify the account *)
        match f object with
        | Panics p => Panics p
        | Ok (r, object) =>
            match object with
            | Some o =>
                Ok (r, set_txn (Radix.Insert (Address_Bytes addr) (VObject o) (Txn_txn txn)) txn)
            | None => Ok (r, txn)
            end
        end
    end.

(** A callback that uses its object without a nil check. *)
Definition on_object (g : stateObject -> stateObject)
    (object : option stateObject) : result (unit * option stateObject) :=
  match object with
  | Some o => Ok (tt, Some (g o))
  | None => Panics PanicNilDeref
  end.

Definition newStateObject : stateObject :=
  mkStateObject (mkAccount 0 0 EmptyStateHash EmptyCodeHash) [] false false false None.

Definition AddSealingReward (addr : Address) (balance : Z) : M unit :=
  upsertAccount addr true (on_object (fun object =>
    if obj_Suicide object then
      let object := newStateObject in
      set_Account (set_Balance (Z.abs balance) (obj_Account object)) object
    else
      set_Account (set_Balance (Balance (obj_Account object) + balance) (obj_Account object)) object)).

(** AddBalance adds balance *)
Definition AddBalance (addr : Address) (balance : Z) : M unit :=
  upsertAccount addr true (on_object (fun object =>
    set_Account (set_Balance (Balance (obj_Account object) + balance) (obj_Account object)) object)).

(** GetBalance returns the balance of an address *)
Definition GetBalance (addr : Address) (txn : Txn) : result Z :=
  (object <- getStateObject addr txn ;;
   match object with
   | None => Ok 0
   | Some object => Ok (Balance (obj_Account object))
   end)%R.

(** SubBalance reduces the balance at address addr by amount *)
Definition SubBalance (addr : Address) (amount : Z) : M (option error) :=
  (* If we try to reduce balance by 0, then it's a noop *)
  if amount =? 0 then ret None
  else
    (balance <- read (GetBalance addr) ;;
     (* Check if we have enough balance to deduce amount from *)
     if balance <? amount then ret (Some ErrNotEnoughFunds)
     else
       upsertAccount addr true (on_object (fun object =>
         set_Account (set_Balance (Balance (obj_Account object) - amount) (obj_Account object)) object)) ;;
       ret None)%M.

(** SetBalance sets the balance; [SetBytes(balance.Bytes())] copies the
    magnitude. *)
Definition SetBalance (addr : Address) (balance : Z) : M unit :=
  upsertAccount addr true (on_object (fun object =>
    set_Account (set_Balance (Z.abs balance) (obj_Account object)) object)).

Definition EmitLog (addr : Address) (topics : list Hash) (data : bytes) : M unit :=
  fun txn =>
    let log := mkLog addr ([] ++ topics) ([] ++ data) in
    let logs :=
      match Radix.Get logIndex (Txn_txn txn) with
      | None => Ok (mkSlice None 0)
      | Some (VLogs l) => Ok l
      | Some _ => Panics PanicTypeAssertion
      end in
    match logs with
    | Panics p => Panics p
    | Ok logs =>
        let '(logs, h) := append logs (Some log) (Txn_heap txn) in
        Ok (tt, set_txn (Radix.Insert logIndex (VLogs logs) (Txn_txn txn)) (set_heap h txn))
    end.

Definition isRevision (rev : Revision) (txn : Txn) : bool :=
  rev <=? Txn_rev txn.

(** The callback of [SetState]. *)
Definition write_slot (key value : Hash) (object : stateObject) : stateObject :=
  let tx :=
    match obj_Txn object with
    | None => @Radix.New (option bytes)
    | Some tx => tx
    end in
  if Hash_eqb value zeroHash then
    set_obj_Txn (Some (Radix.Insert (Hash_Bytes key) None tx)) object
  else
    set_obj_Txn (Some (Radix.Insert (Hash_Bytes key) (Some (Hash_Bytes value)) tx)) object.

(** SetState change the state of an address *)
Definition SetState (addr : Address) (key value : Hash) : M unit :=
  upsertAccount addr true (on_object (write_slot key value)).

(** GetState returns the state of the address at a given key *)
Definition GetState (addr : Address) (key : Hash) (txn : Txn) : result Hash :=
  (object <- getStateObject addr txn ;;
   match object with
   | None => Ok zeroHash
   | Some object =>
       let fromSnapshot :=
         Snapshot_GetStorage (Txn_snapshot txn) addr (Root (obj_Account object)) key in
       match obj_Txn object with
       | Some tx =>
           match Radix.Get (Hash_Bytes key) tx with
           | Some val =>
               match val with
               | None => Ok zeroHash
               | Some b => Ok (BytesToHash b)
               end
           | None => Ok fromSnapshot
           end
       | None => Ok fromSnapshot
       end
   end)%R.

(** GetCommittedState returns the state of the address in the trie *)
Definition GetCommittedState (addr : Address) (key : Hash) (txn : Txn) : result Hash :=
  (obj <- getStateObject addr txn ;;
   match obj with
   | None => Ok zeroHash
   | Some obj =>
       Ok (Snapshot_GetStorage (Txn_snapshot txn) addr (Root (obj_Account obj)) key)
   end)%R.

Definition GetRefund (txn : Txn) : result Z :=
  match Radix.Get refundIndex (Txn_txn txn) with
  | None => Ok 0
  | Some (VRefund r) => Ok r
  | Some _ => Panics PanicTypeAssertion
  end.

Definition AddRefund (gas : Z) : M unit :=
  fun txn =>
    match GetRefund txn with
    | Panics p => Panics p
    | Ok r =>
        let refund := u64 (r + gas) in
        Ok (tt, set_txn (Radix.Insert refundIndex (VRefund refund) (Txn_txn txn)) txn)
    end.

Definition SubRefund (gas : Z) : M unit :=
  fun txn =>
    match GetRefund txn with
    | Panics p => Panics p
    | Ok r =>
        let refund := u64 (r - gas) in
        Ok (tt, set_txn (Radix.Insert refundIndex (VRefund refund) (Txn_txn txn)) txn)
    end.

Definition SetStorage (addr : Address) (key value : Hash) : M StorageStatus :=
  (oldValue <- read (GetState addr key) ;;
   if Hash_eqb oldValue value then ret StorageUnchanged
   else
     let current := oldValue in  (* storage dirtied by previous lines of this contract *)
     original <- read (GetCommittedState addr key) ;;  (* slot before this transaction started *)
     SetState addr key value ;;
     isIstanbul <- read (fun txn => Ok (isRevision Istanbul txn)) ;;
     legacyGasMetering <- read (fun txn =>
       Ok (negb isIstanbul && (isRevision Petersburg txn || negb (isRevision Constantinople txn)))) ;;
     if (legacyGasMetering : bool) then
       if Hash_eqb oldValue zeroHash then ret StorageAdded
       else if Hash_eqb value zeroHash then
         AddRefund 15000 ;; ret StorageDeleted
       else ret StorageModified
     else if Hash_eqb original current then
       if Hash_eqb original zeroHash then ret StorageAdded  (* create slot (2.1.1) *)
       else if Hash_eqb value zeroHash then  (* delete slot (2.1.2b) *)
         AddRefund 15000 ;; ret StorageDeleted
       else ret StorageModified
     else
       (if negb (Hash_eqb original zeroHash) then  (* slot was populated before this transaction *)
          if Hash_eqb current zeroHash then SubRefund 15000  (* recreate slot (2.2.1.1) *)
          else if Hash_eqb value zeroHash then AddRefund 15000  (* delete slot (2.2.1.2) *)
          else ret tt
        else ret tt) ;;
       (if Hash_eqb original value then
          if Hash_eqb original zeroHash then  (* reset to original nonexistent slot (2.2.2.1) *)
            if (isIstanbul : bool) then AddRefund 19200 else AddRefund 19800
          else  (* reset to original existing slot (2.2.2.2) *)
            if (isIstanbul : bool) then AddRefund 4200 else AddRefund 4800
        else ret tt) ;;
       ret StorageModifiedAgain)%M.

(** IncrNonce increases the nonce of the address *)
Definition IncrNonce (addr : Address) : M unit :=
  upsertAccount addr true (on_object (fun object =>
    set_Account (set_Nonce (u64 (Nonce (obj_Account object) + 1)) (obj_Account object)) object)).

Definition SetNonce (addr : Address) (nonce : Z) : M unit :=
  upsertAccount addr true (on_object (fun object =>
    set_Account (set_Nonce nonce (obj_Account object)) object)).

(** GetNonce returns the nonce of an addr *)
Definition GetNonce (addr : Address) (txn : Txn) : result Z :=
  (object <- getStateObject addr txn ;;
   match object with
   | None => Ok 0
   | Some object => Ok (Nonce (obj_Account object))
   end)%R.

(** SetCode sets the code for an address *)
Definition SetCode (addr : Address) (code : bytes) : M unit :=
  upsertAccount addr true (on_object (fun object =>
    let object := set_Account (set_CodeHash (Keccak256 code) (obj_Account object)) object in
    let object := set_DirtyCode true object in
    set_Code code object)).

Definition GetCode (addr : Address) (txn : Txn) : result bytes :=
  (object <- getStateObject addr txn ;;
   match object with
   | None => Ok []
   | Some object =>
       if obj_DirtyCode object then Ok (obj_Code object)
       else
         let '(code, _) :=
           Snapshot_GetCode (Txn_snapshot txn) (BytesToHash (CodeHash (obj_Account object))) addr in
         Ok code
   end)%R.

Definition GetCodeSize (addr : Address) (txn : Txn) : result Z :=
  (code <- GetCode addr txn ;; Ok (Z.of_nat (length code)))%R.

Definition Exist (addr : Address) (txn : Txn) : result bool :=
  (object <- getStateObject addr txn ;;
   match object with
   | None => Ok false
   | Some _ => Ok true
   end)%R.

Definition Empty (addr : Address) (txn : Txn) : result bool :=
  (obj <- getStateObject addr txn ;;
   match obj with
   | None => Ok true
   | Some obj => Ok (Empty_obj obj)
   end)%R.

Definition GetCodeHash (addr : Address) (txn : Txn) : result Hash :=
  (empty <- Empty addr txn ;;
   if (empty : bool) then Ok zeroHash
   else
     object <- getStateObject addr txn ;;
     match object with
     | None => Ok zeroHash
     | Some object => Ok (BytesToHash (CodeHash (obj_Account object)))
     end)%R.

(** Suicide marks the given account as suicided *)
Definition Suicide (addr : Address) : M bool :=
  upsertAccount addr false (fun object =>
    let '(suicided, object) :=
      match object with
      | None => (false, None)
      | Some o =>
          if obj_Suicide o then (false, Some o)
          else (true, Some (set_Suicide true o))
      end in
    let object :=
      match object with
      | Some o => Some (set_Account (set_Balance 0 (obj_Account o)) o)
      | None => None
      end in
    Ok (suicided, object)).

(** HasSuicided returns true if the account suicided *)
Definition HasSuicided (addr : Address) (txn : Txn) : result bool :=
  (object <- getStateObject addr txn ;;
   match object with
   | None => Ok false
   | Some object => Ok (obj_Suicide object)
   end)%R.

Definition Logs : M slice :=
  fun txn =>
    match Radix.Get logIndex (Txn_txn txn) with
    | None => Ok (mkSlice None 0, txn)
    | Some data =>
        let txn' := set_txn (Radix.Delete logIndex (Txn_txn txn)) txn in
        match data with
        | VLogs l => Ok (l, txn')
        | _ => Panics PanicTypeAssertion
        end
    end.

Definition TouchAccount (addr : Address) : M unit :=
  upsertAccount addr true (fun obj => Ok (tt, obj)).

Definition CreateAccount (addr : Address) : M unit :=
  fun txn =>
    let obj := mkStateObject (mkAccount 0 0 EmptyStateHash EmptyCodeHash)
                 [] false false false None in
    match getStateObject addr txn with
    | Panics p => Panics p
    | Ok prev =>
        let obj :=
          match prev with
          | Some prev =>
              set_Account (set_Balance (Z.abs (Balance (obj_Account prev))) (obj_Account obj)) obj
          | None => obj
          end in
        Ok (tt, set_txn (Radix.Insert (Address_Bytes addr) (VObject obj) (Txn_txn txn)) txn)
    end.

(** The keys the first walk of [CleanDeleteObjects] collects. *)
Definition collect_remove (deleteEmptyObjects : bool) (j : Radix.tree value) : list bytes :=
  fold_left (fun remove kv =>
    match snd kv with
    | VObject a =>
        if obj_Suicide a || Empty_obj a && deleteEmptyObjects
        then remove ++ [fst kv]
        else remove
    | _ => remove
    end) (Radix.Walk j) [].

(** One round of the loop over [remove]. *)
Definition mark_deleted (k : bytes) : M unit :=
  fun txn =>
    match Radix.Get k (Txn_txn txn) with
    | None => Panics (PanicMsg "it should not happen"%string)
    | Some v =>
        match v with
        | VObject obj =>
            let obj2 := Copy obj in
            let obj2 := set_Deleted true obj2 in
            Ok (tt, set_txn (Radix.Insert k (VObject obj2) (Txn_txn txn)) txn)
        | _ => Panics (PanicMsg "it should not happen"%string)
        end
    end.

Fixpoint for_each {A : Type} (l : list A) (body : A -> M unit) : M unit :=
  match l with
  | [] => ret tt
  | x :: r => bind (body x) (fun _ => for_each r body)
  end.

Definition CleanDeleteObjects (deleteEmptyObjects : bool) : M unit :=
  (remove <- read (fun txn => Ok (collect_remove deleteEmptyObjects (Txn_txn txn))) ;;
   for_each remove mark_deleted ;;
   (* delete refunds *)
   fun txn => Ok (tt, set_txn (Radix.Delete refundIndex (Txn_txn txn)) txn))%M.

(** The inner walk of [Commit] over the slot overlay of one object. *)
Definition commit_storage (tx : slots) : list StorageObject :=
  fold_left (fun storage kv =>
    let store :=
      match snd kv with
      | None => mkStorageObject true (fst kv) []
      | Some val => mkStorageObject false (fst kv) val
      end in
    storage ++ [store]) (Radix.Walk tx) [].

Definition Commit (txn : Txn) : list Object :=
  let x := Txn_txn txn in
  fold_left (fun objs kv =>
    match snd kv with
    | VObject a =>
        let storage :=
          if obj_Deleted a then []
          else match obj_Txn a with
               | Some tx => commit_storage tx
               | None => []
               end in
        let obj :=
          mkObject (BytesToAddress (fst kv))
                   (BytesToHash (CodeHash (obj_Account a)))
                   (Balance (obj_Account a))
                   (Root (obj_Account a))
                   (Nonce (obj_Account a))
                   (obj_Deleted a)
                   (obj_DirtyCode a)
                   (obj_Code a)
                   storage in
        objs ++ [obj]
    | _ =>
        (* We also have logs, avoid those *)
        objs
    end) (Radix.Walk x) [].

(** ** Sequences of operations

    Every method of [Txn] that can change the transaction, [Commit] apart
    (which consumes it).  The reading methods are functions of the [Txn] and
    cannot change it. *)

Inductive op : Type :=
| OpSnapshot
| OpRevertToSnapshot (id : Z)
| OpAddSealingReward (addr : Address) (balance : Z)
| OpAddBalance (addr : Address) (balance : Z)
| OpSubBalance (addr : Address) (amount : Z)
| OpSetBalance (addr : Address) (balance : Z)
| OpEmitLog (addr : Address) (topics : list Hash) (data : bytes)
| OpSetStorage (addr : Address) (key value : Hash)
| OpSetState (addr : Address) (key value : Hash)
| OpIncrNonce (addr : Address)
| OpSetNonce (addr : Address) (nonce : Z)
| OpSetCode (addr : Address) (code : bytes)
| OpSuicide (addr : Address)
| OpAddRefund (gas : Z)
| OpSubRefund (gas : Z)
| OpLogs
| OpTouchAccount (addr : Address)
| OpCreateAccount (addr : Address)
| OpCleanDeleteObjects (deleteEmptyObjects : bool).

Definition discard {A : Type} (m : M A) : M unit := bind m (fun _ => ret tt).

Definition run_op (o : op) : M unit :=
  match o with
  | OpSnapshot => discard Snapshot_
  | OpRevertToSnapshot id => RevertToSnapshot id
  | OpAddSealingReward addr balance => AddSealingReward addr balance
  | OpAddBalance addr balance => AddBalance addr balance
  | OpSubBalance addr amount => discard (SubBalance addr amount)
  | OpSetBalance addr balance => SetBalance addr balance
  | OpEmitLog addr topics data => EmitLog addr topics data
  | OpSetStorage addr key value => discard (SetStorage addr key value)
  | OpSetState addr key value => SetState addr key value
  | OpIncrNonce addr => IncrNonce addr
  | OpSetNonce addr nonce => SetNonce addr nonce
  | OpSetCode addr code => SetCode addr code
  | OpSuicide addr => discard (Suicide addr)
  | OpAddRefund gas => AddRefund gas
  | OpSubRefund gas => SubRefund gas
  | OpLogs => discard Logs
  | OpTouchAccount addr => TouchAccount addr
  | OpCreateAccount addr => CreateAccount addr
  | OpCleanDeleteObjects deleteEmptyObjects => CleanDeleteObjects deleteEmptyObjects
  end.

Definition run_ops (ops : list op) : M unit := for_each ops run_op.

(** What the reading methods show of a transaction. *)
Record observation : Type := mkObservation {
  see_Account : Address -> result (option Account);
  see_Balance : Address -> result Z;
  see_Nonce : Address -> result Z;
  see_Code : Address -> result bytes;
  see_CodeSize : Address -> result Z;
  see_CodeHash : Address -> result Hash;
  see_State : Address -> Hash -> result Hash;
  see_CommittedState : Address -> Hash -> result Hash;
  see_Exist : Address -> result bool;
  see_Empty : Address -> result bool;
  see_HasSuicided : Address -> result bool;
  see_Refund : result Z;
  see_Logs : result (list (option Log));
  see_Commit : list Object
}.

(** The logs [Logs] would return: the elements of its slice. *)
Definition pending_Logs (txn : Txn) : result (list (option Log)) :=
  match Logs txn with
  | Ok (l, txn') => Ok (elems (Txn_heap txn') l)
  | Panics p => Panics p
  end.

Definition observe (txn : Txn) : observation :=
  mkObservation
    (fun a => GetAccount a txn) (fun a => GetBalance a txn) (fun a => GetNonce a txn)
    (fun a => GetCode a txn) (fun a => GetCodeSize a txn) (fun a => GetCodeHash a txn)
    (fun a k => GetState a k txn) (fun a k => GetCommittedState a k txn)
    (fun a => Exist a txn) (fun a => Empty a txn) (fun a => HasSuicided a txn)
    (GetRefund txn)
    (pending_Logs txn)
    (Commit txn).

(** ** The storage-status rules as the specification words them (4.E) *)

Definition legacy_metering (rev : Revision) : bool :=
  (rev <? Constantinople) || (rev =? Petersburg).

(** The status and the refund counter after a write of [new] over
    [current], the slot holding [original] before the transaction. *)
Definition sstore_rule (rev : Revision) (original current new : Hash) (refund : Z)
  : StorageStatus * Z :=
  if legacy_metering rev then
    if Hash_eqb current zeroHash then (StorageAdded, refund)
    else if Hash_eqb new zeroHash then (StorageDeleted, u64 (refund + 15000))
    else (StorageModified, refund)
  else if Hash_eqb original current then
    if Hash_eqb original zeroHash then (StorageAdded, refund)
    else if Hash_eqb new zeroHash then (StorageDeleted, u64 (refund + 15000))
    else (StorageModified, refund)
  else
    let r1 :=
      if Hash_eqb original zeroHash then refund
      else if Hash_eqb current zeroHash then u64 (refund - 15000)
      else if Hash_eqb new zeroHash then u64 (refund + 15000)
      else refund in
    let r2 :=
      if Hash_eqb new original then
        if Hash_eqb original zeroHash
        then u64 (r1 + (if Istanbul <=? rev then 19200 else 19800))
        else u64 (r1 + (if Istanbul <=? rev then 4200 else 4800))
      else r1 in
    (StorageModifiedAgain, r2).

(** ** Well-formed transactions

    What the Go types and the radix tree guarantee of a journal: the keys
    are in order, an object sits under the 20 bytes of an address, the logs
    under [logIndex], the refund counter (a uint64) under [refundIndex]. *)

Definition wf_slots (o : stateObject) : Prop :=
  match obj_Txn o with
  | Some tx => Radix.ok tx
  | None => True
  end.

Definition wf_value (k : bytes) (v : value) : Prop :=
  match v with
  | VObject o => length k = AddressLength /\ wf_slots o
  | VLogs _ => k = logIndex
  | VRefund r => k = refundIndex /\ 0 <= r < 2 ^ 64
  end.

Definition wf_journal (j : Radix.tree value) : Prop :=
  Radix.ok j /\ Forall (fun kv => wf_value (fst kv) (snd kv)) j.

Definition wf_txn (txn : Txn) : Prop :=
  wf_journal (Txn_txn txn) /\ Forall wf_journal (Txn_snapshots txn).

Definition op_ok (o : op) : Prop :=
  match o with
  | OpAddSealingReward addr _ | OpAddBalance addr _ | OpSubBalance addr _
  | OpSetBalance addr _ | OpSetStorage addr _ _ | OpSetState addr _ _
  | OpIncrNonce addr | OpSetNonce addr _ | OpSetCode addr _ | OpSuicide addr
  | OpTouchAccount addr | OpCreateAccount addr => is_address addr
  | _ => True
  end.

(** Two ways a method may change the transaction. *)

(** The snapshot and the revision stay, the list of snapshots only grows. *)
Definition journal_frame (t t' : Txn) : Prop :=
  Txn_snapshot t' = Txn_snapshot t /\ Txn_rev t' = Txn_rev t /\
  exists l, Txn_snapshots t' = Txn_snapshots t ++ l.

(** Only the entry of the refund counter changes. *)
Definition refund_frame (t t' : Txn) : Prop :=
  Txn_snapshot t' = Txn_snapshot t /\ Txn_rev t' = Txn_rev t /\
  forall k, k <> refundIndex ->
    Radix.Get k (Txn_txn t') = Radix.Get k (Txn_txn t).

Definition stable (R : Txn -> Txn -> Prop) {A : Type} (m : M A) : Prop :=
  forall t a t', m t = Ok (a, t') -> R t t'.

(** The object a mutating callback receives under [create = true]. *)
Definition materialise (got : option stateObject) : stateObject :=
  match got with
  | Some o => o
  | None => newStateObject
  end.

(** The transaction with the refund counter set to [r]. *)
Definition with_refund (r : Z) (txn : Txn) : Txn :=
  set_txn (Radix.Insert refundIndex (VRefund r) (Txn_txn txn)) txn.

(** The transaction with object [o] stored for [addr]. *)
Definition with_object (addr : Address) (o : stateObject) (txn : Txn) : Txn :=
  set_txn (Radix.Insert (Address_Bytes addr) (VObject o) (Txn_txn txn)) txn.

(** The slot values 1 and 2 of the scenarios. *)
Definition hash_one : Hash := BytesToHash [x01].
Definition hash_two : Hash := BytesToHash [x02].

(** *** Helpers of the statements on [CleanDeleteObjects] and [Commit] *)

(** Whether the first walk marks an object for removal. *)
Definition to_remove (deleteEmptyObjects : bool) (a : stateObject) : bool :=
  obj_Suicide a || Empty_obj a && deleteEmptyObjects.

Definition removed_key (deleteEmptyObjects : bool) (kv : bytes * value) : list bytes :=
  match snd kv with
  | VObject a => if to_remove deleteEmptyObjects a then [fst kv] else []
  | _ => []
  end.

(** The storage entry the inner walk appends for a slot. *)
Definition commit_slot (kv : bytes * option bytes) : StorageObject :=
  match snd kv with
  | None => mkStorageObject true (fst kv) []
  | Some val => mkStorageObject false (fst kv) val
  end.

(** The object the outer walk appends for a state object. *)
Definition commit_object (k : bytes) (a : stateObject) : Object :=
  mkObject (BytesToAddress k)
           (BytesToHash (CodeHash (obj_Account a)))
           (Balance (obj_Account a))
           (Root (obj_Account a))
           (Nonce (obj_Account a))
           (obj_Deleted a)
           (obj_DirtyCode a)
           (obj_Code a)
           (if obj_Deleted a then []
            else match obj_Txn a with
                 | Some tx => map commit_slot tx
                 | None => []
                 end).

Definition commit_entry (kv : bytes * value) : list Object :=
  match snd kv with
  | VObject a => [commit_object (fst kv) a]
  | _ => []
  end.

(** A step that keeps the transaction well formed. *)
Definition wf_step (t t' : Txn) : Prop := wf_txn t -> wf_txn t'.

(** ** Basic facts *)

Lemma Account_Copy_id (a : Account) : Account_Copy a = a.
Proof. destruct a; reflexivity. Qed.

Lemma Copy_id (s : stateObject) : Copy s = s.
Proof. destruct s; unfold Copy; simpl. now rewrite Account_Copy_id. Qed.

Lemma right_align_id (n : nat) (b : bytes) : length b = n -> right_align n b = b.
Proof.
  intros <-. unfold right_align. rewrite Nat.sub_diag. reflexivity.
Qed.

Lemma BytesToHash_id (h : Hash) : is_hash h -> BytesToHash h = h.
Proof. apply right_align_id. Qed.

Lemma BytesToAddress_id (a : Address) : is_address a -> BytesToAddress a = a.
Proof. apply right_align_id. Qed.

Lemma address_not_refundIndex (a : Address) : is_address a -> Address_Bytes a <> refundIndex.
Proof. intros H E. unfold Address_Bytes in E. rewrite E in H. discriminate H. Qed.

Lemma address_not_logIndex (a : Address) : is_address a -> Address_Bytes a <> logIndex.
Proof. intros H E. unfold Address_Bytes in E. rewrite E in H. discriminate H. Qed.

Lemma logIndex_not_refundIndex : logIndex <> refundIndex.
Proof. apply bytes_eqb_neq. reflexivity. Qed.

Lemma Hash_eqb_eq (a b : Hash) : Hash_eqb a b = true <-> a = b.
Proof. apply bytes_eqb_eq. Qed.

Lemma Hash_eqb_refl (a : Hash) : Hash_eqb a a = true.
Proof. apply bytes_eqb_refl. Qed.

Lemma Hash_eqb_sym (a b : Hash) : Hash_eqb a b = Hash_eqb b a.
Proof. apply bytes_eqb_sym. Qed.

Lemma u64_range (z : Z) : 0 <= u64 z < 2 ^ 64.
Proof. unfold u64. apply Z.mod_pos_bound. lia. Qed.

Lemma u64_small (z : Z) : 0 <= z < 2 ^ 64 -> u64 z = z.
Proof. unfold u64. apply Z.mod_small. Qed.

(** Running a method step by step. *)

(** ** Slices and [append] *)

Lemma length_set_nth {A : Type} (i : nat) (x : A) (l : list A) :
  length (set_nth i x l) = length l.
Proof. revert i. induction l as [|y r IH]; intros [|i]; simpl; auto. Qed.

Lemma nth_set_nth_eq {A : Type} (i : nat) (x d : A) (l : list A) :
  (i < length l)%nat -> nth i (set_nth i x l) d = x.
Proof.
  revert i. induction l as [|y r IH]; intros [|i] H; simpl in *; try lia; auto.
  apply IH. lia.
Qed.

Lemma nth_set_nth_ne {A : Type} (i j : nat) (x d : A) (l : list A) :
  i <> j -> nth j (set_nth i x l) d = nth j l d.
Proof.
  revert i j. induction l as [|y r IH]; intros [|i] [|j] H; simpl; auto; try congruence.
Qed.

Lemma map_nth_seq {A : Type} (l r : list A) (d : A) :
  map (fun i => nth i (l ++ r) d) (seq 0 (length l)) = l.
Proof.
  revert r. induction l as [|a l IH] using rev_ind; intros r; [reflexivity|].
  rewrite length_app, seq_app, map_app, <- app_assoc, IH. simpl.
  now rewrite nth_middle.
Qed.

Lemma length_elems (h : heap) (s : slice) : length (elems h s) = slice_len s.
Proof. unfold elems. now rewrite length_map, length_seq. Qed.

Lemma elems_ext (h h' : heap) (s s' : slice) :
  slice_len s' = slice_len s ->
  (forall i, (i < slice_len s)%nat ->
     nth i (backing h' s') None = nth i (backing h s) None) ->
  elems h' s' = elems h s.
Proof.
  intros Hl H. unfold elems. rewrite Hl. apply map_ext_in.
  intros i Hi. apply in_seq in Hi. apply H. lia.
Qed.

Lemma elems_snoc (h : heap) (a : option nat) (n : nat) :
  elems h (mkSlice a (S n))
  = elems h (mkSlice a n) ++ [nth n (backing h (mkSlice a n)) None].
Proof. unfold elems. simpl slice_len. now rewrite seq_S, map_app. Qed.

(** A slice with room has an array, and the array is in the heap. *)
Lemma room_allocated (h : heap) (s : slice) (i : nat) :
  (i < cap h s)%nat -> exists a, slice_array s = Some a /\ (a < length h)%nat.
Proof.
  unfold cap, backing. destruct (slice_array s) as [a|]; simpl; [|lia].
  intros H. exists a. split; [reflexivity|].
  destruct (Nat.lt_ge_cases a (length h)) as [Hlt|Hge]; [exact Hlt|].
  rewrite nth_overflow in H by exact Hge. simpl in H. lia.
Qed.

Lemma backing_store (h : heap) (s : slice) (i : nat) (x : option Log) :
  (i < cap h s)%nat -> backing (store h s i x) s = set_nth i x (backing h s).
Proof.
  intros H. destruct (room_allocated h s i H) as [a [Ha Hlt]].
  unfold backing, store. rewrite Ha. now apply nth_set_nth_eq.
Qed.

(** The slice [append] returns holds the elements of its argument and the
    new one, in place or not. *)
Lemma append_elems (s s' : slice) (x : option Log) (h h' : heap) :
  append s x h = (s', h') -> elems h' s' = elems h s ++ [x].
Proof.
  unfold append.
  destruct (Nat.ltb_spec (slice_len s) (cap h s)) as [Hlt|Hge];
    intros H; inversion H; subst; clear H.
  - rewrite elems_snoc.
    change (backing (store h s (slice_len s) x) (mkSlice (slice_array s) (slice_len s)))
      with (backing (store h s (slice_len s) x) s).
    rewrite (backing_store h s _ x Hlt). f_equal.
    + apply elems_ext; [reflexivity|]. intros i Hi.
      change (backing (store h s (slice_len s) x) (mkSlice (slice_array s) (slice_len s)))
        with (backing (store h s (slice_len s) x) s).
      rewrite (backing_store h s _ x Hlt). apply nth_set_nth_ne. lia.
    + f_equal. now apply nth_set_nth_eq.
  - unfold elems at 1, backing at 1. cbn [slice_array slice_len].
    rewrite nth_middle.
    replace (S (slice_len s)) with (length (elems h s ++ [x]))
      by (rewrite length_app, length_elems; simpl; lia).
    replace (elems h s ++ x :: repeat None (spare (cap h s)))
      with ((elems h s ++ [x]) ++ repeat None (spare (cap h s)))
      by (now rewrite <- app_assoc).
    apply map_nth_seq.
Qed.

(** [append] writes one cell at most: the cell after the last of its
    argument. *)
Lemma append_keeps (s s' : slice) (x : option Log) (h h' : heap) (a i : nat) :
  append s x h = (s', h') -> (a < length h)%nat ->
  (slice_array s = Some a -> i <> slice_len s) ->
  nth i (nth a h' []) None = nth i (nth a h []) None.
Proof.
  unfold append.
  destruct (Nat.ltb_spec (slice_len s) (cap h s)) as [Hlt|Hge];
    intros H Ha Hi; inversion H; subst; clear H.
  - unfold store. destruct (slice_array s) as [b|]; [|reflexivity].
    destruct (Nat.eq_dec b a) as [->|Hne].
    + rewrite nth_set_nth_eq by exact Ha. apply nth_set_nth_ne.
      intros E. now apply (Hi eq_refl).
    + now rewrite nth_set_nth_ne by exact Hne.
  - now rewrite app_nth1.
Qed.

(** [append] frees no array and resizes none. *)
Lemma append_heap (s s' : slice) (x : option Log) (h h' : heap) :
  append s x h = (s', h') ->
  (length h <= length h')%nat /\
  forall a, (a < length h)%nat -> length (nth a h' []) = length (nth a h []).
Proof.
  unfold append.
  destruct (Nat.ltb_spec (slice_len s) (cap h s)) as [Hlt|Hge];
    intros H; inversion H; subst; clear H.
  - unfold store. destruct (slice_array s) as [b|]; [|split; [lia | reflexivity]].
    rewrite length_set_nth. split; [lia|]. intros a Ha.
    destruct (Nat.eq_dec b a) as [->|Hne].
    + rewrite nth_set_nth_eq by exact Ha. apply length_set_nth.
    + now rewrite nth_set_nth_ne by exact Hne.
  - rewrite length_app. split; [lia|]. intros a Ha. now rewrite app_nth1.
Qed.

(** The array of the slice that [append] returns: the one of its argument,
    or a new one. *)
Lemma append_array (s s' : slice) (x : option Log) (h h' : heap) :
  append s x h = (s', h') ->
  slice_len s' = S (slice_len s) /\
  (slice_array s' = slice_array s \/ slice_array s' = Some (length h)).
Proof.
  unfold append.
  destruct (slice_len s <? cap h s)%nat; intros H; inversion H; subst; simpl; auto.
Qed.

Lemma bind_ok {A B : Type} (m : M A) (f : A -> M B) t a t' :
  m t = Ok (a, t') -> bind m f t = f a t'.
Proof. unfold bind. now intros ->. Qed.

Lemma bind_inv {A B : Type} (m : M A) (f : A -> M B) t b t2 :
  bind m f t = Ok (b, t2) ->
  exists a t1, m t = Ok (a, t1) /\ f a t1 = Ok (b, t2).
Proof.
  unfold bind. destruct (m t) as [[a t1]|p]; [|discriminate].
  intros H. now exists a, t1.
Qed.

Lemma read_ok {A : Type} (g : Txn -> result A) t a :
  g t = Ok a -> read g t = Ok (a, t).
Proof. unfold read. now intros ->. Qed.

Lemma read_inv {A : Type} (g : Txn -> result A) t a t' :
  read g t = Ok (a, t') -> g t = Ok a /\ t' = t.
Proof.
  unfold read. destruct (g t); [|discriminate].
  intros H. inversion H. now subst.
Qed.

(** Reading an object depends on its own journal entry only. *)

Lemma getStateObject_ext (a : Address) (t1 t2 : Txn) :
  Txn_snapshot t1 = Txn_snapshot t2 ->
  Radix.Get (Address_Bytes a) (Txn_txn t1) = Radix.Get (Address_Bytes a) (Txn_txn t2) ->
  getStateObject a t1 = getStateObject a t2.
Proof. unfold getStateObject. now intros -> ->. Qed.

Lemma getStateObject_not_deleted (a : Address) (t : Txn) (o : stateObject) :
  getStateObject a t = Ok (Some o) -> obj_Deleted o = false.
Proof.
  unfold getStateObject.
  destruct (Radix.Get (Address_Bytes a) (Txn_txn t)) as [[obj| |]|].
  - destruct (obj_Deleted obj) eqn:E; [discriminate|].
    rewrite Copy_id. intros H. inversion H. now subst.
  - discriminate.
  - discriminate.
  - destruct (Snapshot_GetAccount (Txn_snapshot t) a) as [[acc|] [|]];
      try discriminate.
    intros H. inversion H. reflexivity.
Qed.

Lemma getStateObject_with_object (a : Address) (o : stateObject) (t : Txn) :
  getStateObject a (with_object a o t) = Ok (if obj_Deleted o then None else Some o).
Proof.
  unfold getStateObject, with_object. simpl. rewrite Radix.Get_Insert_eq.
  destruct (obj_Deleted o); [reflexivity|]. now rewrite Copy_id.
Qed.

Lemma getStateObject_with_refund (a : Address) (r : Z) (t : Txn) :
  is_address a -> getStateObject a (with_refund r t) = getStateObject a t.
Proof.
  intros Ha. apply getStateObject_ext; [reflexivity|]. simpl.
  apply Radix.Get_Insert_ne. now apply address_not_refundIndex.
Qed.

Lemma materialise_not_deleted (a : Address) (t : Txn) (got : option stateObject) :
  getStateObject a t = Ok got -> obj_Deleted (materialise got) = false.
Proof.
  destruct got as [o|]; simpl; [|reflexivity].
  apply getStateObject_not_deleted.
Qed.

Lemma upsertAccount_on_object (a : Address) (g : stateObject -> stateObject)
    (t : Txn) (got : option stateObject) :
  getStateObject a t = Ok got ->
  upsertAccount a true (on_object g) t = Ok (tt, with_object a (g (materialise got)) t).
Proof.
  intros H. unfold upsertAccount. rewrite H.
  destruct got; reflexivity.
Qed.

Lemma GetRefund_with_refund (r : Z) (t : Txn) : GetRefund (with_refund r t) = Ok r.
Proof. unfold GetRefund, with_refund. simpl. now rewrite Radix.Get_Insert_eq. Qed.

Lemma GetRefund_with_object (a : Address) (o : stateObject) (t : Txn) :
  is_address a -> GetRefund (with_object a o t) = GetRefund t.
Proof.
  intros Ha. unfold GetRefund, with_object. simpl.
  rewrite Radix.Get_Insert_ne; [reflexivity|].
  intros E. symmetry in E. revert E. now apply address_not_refundIndex.
Qed.

Lemma AddRefund_ok (gas r : Z) (t : Txn) :
  GetRefund t = Ok r -> AddRefund gas t = Ok (tt, with_refund (u64 (r + gas)) t).
Proof. unfold AddRefund. now intros ->. Qed.

Lemma SubRefund_ok (gas r : Z) (t : Txn) :
  GetRefund t = Ok r -> SubRefund gas t = Ok (tt, with_refund (u64 (r - gas)) t).
Proof. unfold SubRefund. now intros ->. Qed.

(** ** Snapshots: [Snapshot] and [RevertToSnapshot] *)

Lemma index_in_range {A : Type} (l : list A) (id : Z) :
  0 <= id < Z.of_nat (length l) ->
  exists x, nth_error l (Z.to_nat id) = Some x /\ index l id = Ok x.
Proof.
  intros H. unfold index.
  destruct (id <? 0) eqn:E; [apply Z.ltb_lt in E; lia|].
  destruct (nth_error l (Z.to_nat id)) as [x|] eqn:En.
  - now exists x.
  - apply nth_error_None in En. lia.
Qed.

Lemma index_out_of_range {A : Type} (l : list A) (id : Z) :
  id < 0 \/ Z.of_nat (length l) <= id -> index l id = Panics PanicIndex.
Proof.
  intros H. unfold index.
  destruct (id <? 0) eqn:E; [reflexivity|].
  apply Z.ltb_ge in E.
  destruct (nth_error l (Z.to_nat id)) as [x|] eqn:En; [|reflexivity].
  assert (nth_error l (Z.to_nat id) <> None) as Hn by congruence.
  apply nth_error_Some in Hn. lia.
Qed.

(** C6. [RevertToSnapshot id] panics for every id out of range (negative, or
    at least the number of snapshots taken), and for every id in range it
    returns, the journal being the tree published as version [id], the list
    of versions left as it was (nothing after [id] is dropped). *)
Theorem RevertToSnapshot_range (id : Z) (txn : Txn) :
  (id < 0 \/ Z.of_nat (length (Txn_snapshots txn)) <= id ->
     exists p, RevertToSnapshot id txn = Panics p) /\
  (0 <= id < Z.of_nat (length (Txn_snapshots txn)) ->
     exists tree txn',
       nth_error (Txn_snapshots txn) (Z.to_nat id) = Some tree /\
       RevertToSnapshot id txn = Ok (tt, txn') /\
       Txn_txn txn' = tree /\
       Txn_snapshots txn' = Txn_snapshots txn /\
       Txn_snapshot txn' = Txn_snapshot txn /\
       Txn_rev txn' = Txn_rev txn).
Proof.
  split; intros H; unfold RevertToSnapshot.
  - destruct (id >? Z.of_nat (length (Txn_snapshots txn))).
    + eexists. reflexivity.
    + rewrite (index_out_of_range _ _ H). eexists. reflexivity.
  - destruct (id >? Z.of_nat (length (Txn_snapshots txn))) eqn:E.
    + apply Z.gtb_lt in E. lia.
    + destruct (index_in_range (Txn_snapshots txn) id H) as [tree [Hn Hi]].
      rewrite Hi. exists tree, (set_txn tree txn). now repeat split.
Qed.

Lemma Snapshot_then_Revert (txn : Txn) :
  exists id txn1,
    Snapshot_ txn = Ok (id, txn1) /\
    id = Z.of_nat (length (Txn_snapshots txn)) /\
    Txn_txn txn1 = Txn_txn txn /\
    nth_error (Txn_snapshots txn1) (Z.to_nat id) = Some (Txn_txn txn).
Proof.
  eexists. eexists. repeat split. simpl.
  rewrite Nat2Z.id, nth_error_app2 by lia.
  now rewrite Nat.sub_diag.
Qed.

(** ** Balances *)

Lemma GetBalance_inv (addr : Address) (txn : Txn) (balance : Z) :
  GetBalance addr txn = Ok balance ->
  exists got, getStateObject addr txn = Ok got /\
              balance = match got with
                        | Some o => Balance (obj_Account o)
                        | None => 0
                        end.
Proof.
  unfold GetBalance, rbind.
  destruct (getStateObject addr txn) as [got|]; [|discriminate].
  intros Hb. exists got. split; [reflexivity|].
  destruct got; now inversion Hb.
Qed.

Lemma GetBalance_with_object (addr : Address) (o : stateObject) (txn : Txn) :
  obj_Deleted o = false ->
  GetBalance addr (with_object addr o txn) = Ok (Balance (obj_Account o)).
Proof.
  intros Hd. unfold GetBalance. rewrite getStateObject_with_object, Hd.
  reflexivity.
Qed.

(** C4. [SubBalance addr amount], the visible balance of [addr] being
    [balance]: a zero amount succeeds and changes nothing; an amount above
    the balance fails with [ErrNotEnoughFunds] and leaves the transaction as
    it was; any other amount succeeds, the balance of [addr] is then
    [balance - amount], and no other entry of the journal changes. *)
Theorem SubBalance_spec (addr : Address) (amount balance : Z) (txn : Txn) :
  GetBalance addr txn = Ok balance ->
  (amount = 0 -> SubBalance addr amount txn = Ok (None, txn)) /\
  (amount <> 0 -> balance < amount ->
     SubBalance addr amount txn = Ok (Some ErrNotEnoughFunds, txn)) /\
  (amount <> 0 -> amount <= balance ->
     exists txn',
       SubBalance addr amount txn = Ok (None, txn') /\
       GetBalance addr txn' = Ok (balance - amount) /\
       journal_frame txn txn' /\ Txn_snapshots txn' = Txn_snapshots txn /\
       forall k, k <> Address_Bytes addr ->
         Radix.Get k (Txn_txn txn') = Radix.Get k (Txn_txn txn)).
Proof.
  intros Hb. unfold SubBalance. repeat split.
  - intros ->. reflexivity.
  - intros Hne Hlt. apply Z.eqb_neq in Hne. rewrite Hne.
    rewrite (bind_ok _ _ _ _ _ (read_ok _ _ _ Hb)).
    apply Z.ltb_lt in Hlt. now rewrite Hlt.
  - intros Hne Hle. apply Z.eqb_neq in Hne. rewrite Hne.
    rewrite (bind_ok _ _ _ _ _ (read_ok _ _ _ Hb)).
    apply Z.ltb_ge in Hle. rewrite Hle.
    destruct (GetBalance_inv _ _ _ Hb) as [got [Hg Hbal]].
    rewrite (bind_ok _ _ _ _ _ (upsertAccount_on_object _ _ _ _ Hg)).
    eexists. split; [reflexivity|]. split; [|split; [|split]].
    + rewrite GetBalance_with_object.
      * simpl. subst balance. destruct got; reflexivity.
      * simpl. exact (materialise_not_deleted _ _ _ Hg).
    + repeat split. exists []. simpl. now rewrite app_nil_r.
    + reflexivity.
    + intros k Hk. simpl. now apply Radix.Get_Insert_ne.
Qed.

(** ** Frames *)

Section Stable.
Variable R : Txn -> Txn -> Prop.
Hypothesis R_refl : forall t, R t t.
Hypothesis R_trans : forall a b c, R a b -> R b c -> R a c.

Lemma stable_ret {A : Type} (a : A) : stable R (ret a).
Proof. intros t x t' H. inversion H. apply R_refl. Qed.

Lemma stable_read {A : Type} (g : Txn -> result A) : stable R (read g).
Proof. intros t x t' H. apply read_inv in H. destruct H as [_ ->]. apply R_refl. Qed.

Lemma stable_bind {A B : Type} (m : M A) (f : A -> M B) :
  stable R m -> (forall a, stable R (f a)) -> stable R (bind m f).
Proof.
  intros Hm Hf t b t2 H. apply bind_inv in H.
  destruct H as [a [t1 [H1 H2]]].
  eapply R_trans; [eapply Hm; eassumption | eapply Hf; eassumption].
Qed.

Lemma stable_for_each {A : Type} (l : list A) (body : A -> M unit) :
  (forall x, stable R (body x)) -> stable R (for_each l body).
Proof.
  intros Hb. induction l as [|x l IH]; simpl.
  - apply stable_ret.
  - apply stable_bind; [apply Hb | intros _; exact IH].
Qed.

Lemma stable_discard {A : Type} (m : M A) : stable R m -> stable R (discard m).
Proof. intros H. apply stable_bind; [exact H | intros; apply stable_ret]. Qed.
End Stable.

Lemma refund_frame_refl (t : Txn) : refund_frame t t.
Proof. repeat split. Qed.

Lemma refund_frame_trans (a b c : Txn) :
  refund_frame a b -> refund_frame b c -> refund_frame a c.
Proof.
  intros [H1 [H2 H3]] [H4 [H5 H6]]. repeat split; try congruence.
  intros k Hk. rewrite H6, H3; auto.
Qed.

Lemma refund_frame_with_refund (r : Z) (t : Txn) : refund_frame t (with_refund r t).
Proof.
  repeat split. intros k Hk. simpl. now apply Radix.Get_Insert_ne.
Qed.

Lemma stable_AddRefund (gas : Z) : stable refund_frame (AddRefund gas).
Proof.
  intros t a t'. unfold AddRefund. destruct (GetRefund t); [|discriminate].
  intros H. inversion H. apply refund_frame_with_refund.
Qed.

Lemma stable_SubRefund (gas : Z) : stable refund_frame (SubRefund gas).
Proof.
  intros t a t'. unfold SubRefund. destruct (GetRefund t); [|discriminate].
  intros H. inversion H. apply refund_frame_with_refund.
Qed.

Lemma getStateObject_refund_frame (a : Address) (t t' : Txn) :
  is_address a -> refund_frame t t' -> getStateObject a t' = getStateObject a t.
Proof.
  intros Ha [H1 [_ H3]]. apply getStateObject_ext; [exact H1|].
  apply H3. now apply address_not_refundIndex.
Qed.

(** ** Storage slots *)

Lemma GetState_ext (a : Address) (k : Hash) (t1 t2 : Txn) :
  Txn_snapshot t1 = Txn_snapshot t2 ->
  getStateObject a t1 = getStateObject a t2 ->
  GetState a k t1 = GetState a k t2.
Proof. unfold GetState. now intros -> ->. Qed.

Lemma GetCommittedState_ext (a : Address) (k : Hash) (t1 t2 : Txn) :
  Txn_snapshot t1 = Txn_snapshot t2 ->
  getStateObject a t1 = getStateObject a t2 ->
  GetCommittedState a k t1 = GetCommittedState a k t2.
Proof. unfold GetCommittedState. now intros -> ->. Qed.

Lemma GetState_inv (a : Address) (k : Hash) (t : Txn) (v : Hash) :
  GetState a k t = Ok v -> exists got, getStateObject a t = Ok got.
Proof.
  unfold GetState, rbind. destruct (getStateObject a t) as [got|]; [|discriminate].
  intros _. now exists got.
Qed.

Lemma GetCommittedState_total (a : Address) (k : Hash) (t : Txn) (got : option stateObject) :
  getStateObject a t = Ok got ->
  GetCommittedState a k t =
    Ok (match got with
        | Some o => Snapshot_GetStorage (Txn_snapshot t) a (Root (obj_Account o)) k
        | None => zeroHash
        end).
Proof. unfold GetCommittedState. intros ->. destruct got; reflexivity. Qed.

Lemma write_slot_Deleted (key value : Hash) (o : stateObject) :
  obj_Deleted (write_slot key value o) = obj_Deleted o.
Proof. unfold write_slot. destruct (Hash_eqb value zeroHash); reflexivity. Qed.

Lemma write_slot_Account (key value : Hash) (o : stateObject) :
  obj_Account (write_slot key value o) = obj_Account o.
Proof. unfold write_slot. destruct (Hash_eqb value zeroHash); reflexivity. Qed.

(** The slot reads back as written (I4). *)
Lemma GetState_written (addr : Address) (key value : Hash) (o : stateObject) (txn : Txn) :
  is_hash value -> obj_Deleted o = false ->
  GetState addr key (with_object addr (write_slot key value o) txn) = Ok value.
Proof.
  intros Hv Hd. unfold GetState.
  rewrite getStateObject_with_object, write_slot_Deleted, Hd. simpl.
  unfold write_slot. destruct (Hash_eqb value zeroHash) eqn:E; simpl;
    rewrite Radix.Get_Insert_eq.
  - apply Hash_eqb_eq in E. now subst.
  - unfold Hash_Bytes. now rewrite BytesToHash_id.
Qed.

Lemma GetCommittedState_written (addr : Address) (key k value : Hash)
    (o : stateObject) (txn : Txn) :
  obj_Deleted o = false ->
  GetCommittedState addr k (with_object addr (write_slot key value o) txn) =
    Ok (Snapshot_GetStorage (Txn_snapshot txn) addr (Root (obj_Account o)) k).
Proof.
  intros Hd. unfold GetCommittedState.
  rewrite getStateObject_with_object, write_slot_Deleted, Hd. simpl.
  now rewrite write_slot_Account.
Qed.

Lemma SetState_ok (addr : Address) (key value : Hash) (txn : Txn)
    (got : option stateObject) :
  getStateObject addr txn = Ok got ->
  SetState addr key value txn =
    Ok (tt, with_object addr (write_slot key value (materialise got)) txn).
Proof. apply upsertAccount_on_object. Qed.

(** The test of the code for legacy metering is the one of the
    specification. *)
Lemma legacy_metering_code (txn : Txn) :
  negb (isRevision Istanbul txn)
    && (isRevision Petersburg txn || negb (isRevision Constantinople txn))
  = legacy_metering (Txn_rev txn).
Proof.
  unfold isRevision, legacy_metering, Istanbul, Petersburg, Constantinople.
  destruct (Z.leb_spec 7 (Txn_rev txn)), (Z.leb_spec 6 (Txn_rev txn)),
    (Z.leb_spec 5 (Txn_rev txn)), (Z.ltb_spec (Txn_rev txn) 5),
    (Z.eqb_spec (Txn_rev txn) 6); simpl; try reflexivity; lia.
Qed.

Lemma bind_ret {A B : Type} (a : A) (f : A -> M B) (t : Txn) :
  bind (ret a) f t = f a t.
Proof. reflexivity. Qed.

Lemma bind_read_pure {A B : Type} (h : Txn -> A) (f : A -> M B) (t : Txn) :
  bind (read (fun txn => Ok (h txn))) f t = f (h t) t.
Proof. reflexivity. Qed.

(** A write that changes the slot: [SetStorage] stores the value and its
    status and refund are those of the rules of the specification. *)
Lemma SetStorage_step (addr : Address) (key value : Hash) (txn : Txn)
    (got : option stateObject) (cur orig : Hash) (r : Z) :
  is_address addr ->
  getStateObject addr txn = Ok got ->
  GetState addr key txn = Ok cur ->
  GetCommittedState addr key txn = Ok orig ->
  GetRefund txn = Ok r ->
  Hash_eqb cur value = false ->
  exists txn',
    SetStorage addr key value txn =
      Ok (fst (sstore_rule (Txn_rev txn) orig cur value r), txn') /\
    GetRefund txn' = Ok (snd (sstore_rule (Txn_rev txn) orig cur value r)) /\
    getStateObject addr txn' = Ok (Some (write_slot key value (materialise got))) /\
    Txn_rev txn' = Txn_rev txn /\
    Txn_snapshot txn' = Txn_snapshot txn /\
    Txn_snapshots txn' = Txn_snapshots txn.
Proof.
  intros Ha Hg Hcur Horig Hr Hne.
  pose proof (materialise_not_deleted _ _ _ Hg) as Hd.
  unfold SetStorage.
  rewrite (bind_ok _ _ _ _ _ (read_ok _ _ _ Hcur)), Hne.
  rewrite (bind_ok _ _ _ _ _ (read_ok _ _ _ Horig)).
  rewrite (bind_ok _ _ _ _ _ (SetState_ok _ key value _ _ Hg)).
  set (t1 := with_object addr (write_slot key value (materialise got)) txn).
  assert (GetRefund t1 = Ok r) as Hr1
    by (unfold t1; now rewrite GetRefund_with_object).
  assert (getStateObject addr t1 = Ok (Some (write_slot key value (materialise got)))) as Hg1
    by (unfold t1; now rewrite getStateObject_with_object, write_slot_Deleted, Hd).
  rewrite bind_read_pure. rewrite bind_read_pure.
  rewrite legacy_metering_code.
  replace (Txn_rev t1) with (Txn_rev txn) by reflexivity.
  replace (isRevision Istanbul t1) with (Istanbul <=? Txn_rev txn) by reflexivity.
  unfold sstore_rule.
  rewrite (Hash_eqb_sym value orig).
  destruct (legacy_metering (Txn_rev txn)), (Hash_eqb cur zeroHash),
    (Hash_eqb value zeroHash), (Hash_eqb orig cur), (Hash_eqb orig zeroHash),
    (Hash_eqb orig value), (Istanbul <=? Txn_rev txn); cbn [fst snd negb];
    repeat (first
      [ rewrite bind_ret
      | erewrite bind_ok
          by (first [apply AddRefund_ok | apply SubRefund_ok];
              first [exact Hr1 | apply GetRefund_with_refund]) ]);
    (eexists; split; [reflexivity|];
     rewrite ?GetRefund_with_refund, ?getStateObject_with_refund by assumption;
     repeat split; assumption).
Qed.

Lemma GetState_of_written (addr : Address) (key value : Hash) (o : stateObject) (t : Txn) :
  is_hash value ->
  getStateObject addr t = Ok (Some (write_slot key value o)) ->
  GetState addr key t = Ok value.
Proof.
  intros Hv Hg. unfold GetState. rewrite Hg. simpl.
  unfold write_slot. destruct (Hash_eqb value zeroHash) eqn:E; simpl;
    rewrite Radix.Get_Insert_eq.
  - apply Hash_eqb_eq in E. now subst.
  - unfold Hash_Bytes. now rewrite BytesToHash_id.
Qed.

Ltac solve_stable :=
  repeat first
    [ apply (stable_ret _ refund_frame_refl)
    | apply (stable_read _ refund_frame_refl)
    | apply stable_AddRefund
    | apply stable_SubRefund
    | apply (stable_bind _ refund_frame_trans); [|intros ?]
    | match goal with
      | |- stable _ (if ?b then _ else _) => destruct b
      end ].

(** After [SetStorage addr key value] the slot reads [value]. *)
Lemma SetStorage_reads_back (addr : Address) (key value : Hash) (txn txn1 : Txn)
    (status : StorageStatus) :
  is_address addr -> is_hash value ->
  SetStorage addr key value txn = Ok (status, txn1) ->
  GetState addr key txn1 = Ok value.
Proof.
  intros Ha Hv H. unfold SetStorage in H.
  apply bind_inv in H. destruct H as [cur [t0 [H0 H]]].
  apply read_inv in H0. destruct H0 as [Hcur ->].
  destruct (Hash_eqb cur value) eqn:E.
  - inversion H; subst. apply Hash_eqb_eq in E. now subst.
  - apply bind_inv in H. destruct H as [orig [t0 [H0 H]]].
    apply read_inv in H0. destruct H0 as [_ ->].
    apply bind_inv in H. destruct H as [u [t1 [Hs H]]].
    destruct (GetState_inv _ _ _ _ Hcur) as [got Hg].
    rewrite (SetState_ok _ key value _ _ Hg) in Hs. inversion Hs; subst t1. clear Hs.
    match type of H with
    | ?m _ = _ => assert (stable refund_frame m) as Hst by solve_stable
    end.
    apply Hst in H.
    rewrite (GetState_ext addr key txn1
               (with_object addr (write_slot key value (materialise got)) txn)).
    + apply GetState_written; [exact Hv|].
      exact (materialise_not_deleted _ _ _ Hg).
    + apply H.
    + now apply getStateObject_refund_frame.
Qed.

(** C3. If the slot already reads [value], [SetStorage addr key value]
    returns [StorageUnchanged] and the transaction is as before: nothing is
    written to the overlay and the refund counter is the same.  So a second
    [SetStorage] of the same value, right after the first, returns
    [StorageUnchanged]. *)
Theorem SetStorage_unchanged (addr : Address) (key value : Hash) (txn : Txn) :
  (GetState addr key txn = Ok value ->
     SetStorage addr key value txn = Ok (StorageUnchanged, txn)) /\
  (is_address addr -> is_hash value ->
     forall status txn1,
       SetStorage addr key value txn = Ok (status, txn1) ->
       SetStorage addr key value txn1 = Ok (StorageUnchanged, txn1)).
Proof.
  assert (forall t, GetState addr key t = Ok value ->
                    SetStorage addr key value t = Ok (StorageUnchanged, t)) as Hsame.
  { intros t Hs. unfold SetStorage.
    rewrite (bind_ok _ _ _ _ _ (read_ok _ _ _ Hs)).
    now rewrite Hash_eqb_refl. }
  split.
  - apply Hsame.
  - intros Ha Hv status txn1 H. apply Hsame.
    exact (SetStorage_reads_back _ _ _ _ _ _ Ha Hv H).
Qed.

(** C2. Under legacy gas metering (the revision is before Constantinople, or
    is Petersburg) a [SetStorage] of [new] over a different current value:
    returns [StorageAdded] when the current value is zero, the refund counter
    unchanged; otherwise, when [new] is zero, returns [StorageDeleted] and
    adds 15000 to the refund counter (a uint64); otherwise returns
    [StorageModified], the refund counter unchanged. *)
Theorem SetStorage_legacy (addr : Address) (key new cur : Hash) (r : Z) (txn : Txn) :
  is_address addr ->
  Txn_rev txn < Constantinople \/ Txn_rev txn = Petersburg ->
  GetState addr key txn = Ok cur ->
  GetRefund txn = Ok r ->
  new <> cur ->
  exists status txn',
    SetStorage addr key new txn = Ok (status, txn') /\
    (cur = zeroHash ->
       status = StorageAdded /\ GetRefund txn' = Ok r) /\
    (cur <> zeroHash -> new = zeroHash ->
       status = StorageDeleted /\ GetRefund txn' = Ok (u64 (r + 15000)) /\
       (0 <= r -> r + 15000 < 2 ^ 64 -> GetRefund txn' = Ok (r + 15000))) /\
    (cur <> zeroHash -> new <> zeroHash ->
       status = StorageModified /\ GetRefund txn' = Ok r).
Proof.
  intros Ha Hrev Hcur Hr Hne.
  destruct (GetState_inv _ _ _ _ Hcur) as [got Hg].
  assert (Hash_eqb cur new = false) as Hneb by (apply bytes_eqb_neq; congruence).
  destruct (SetStorage_step addr key new txn got cur _ r Ha Hg Hcur
              (GetCommittedState_total _ key _ _ Hg) Hr Hneb)
    as [txn' [Hrun [Href _]]].
  assert (legacy_metering (Txn_rev txn) = true) as Hleg.
  { unfold legacy_metering. apply orb_true_iff.
    destruct Hrev as [Hlt| ->]; [left; now apply Z.ltb_lt | right; reflexivity]. }
  unfold sstore_rule in Hrun, Href. rewrite Hleg in Hrun, Href.
  eexists. exists txn'. split; [exact Hrun|].
  split; [|split].
  - intros ->. rewrite Hash_eqb_refl in *. now split.
  - intros H1 ->. apply bytes_eqb_neq in H1. unfold Hash_eqb in *.
    rewrite H1, bytes_eqb_refl in *. simpl in Href. repeat split; [exact Href|].
    intros H0 Hfit. rewrite Href. now rewrite u64_small by lia.
  - intros H1 H2. apply bytes_eqb_neq in H1, H2. unfold Hash_eqb in *.
    rewrite H1, H2 in *. now split.
Qed.

Lemma sstore_rule_create (r : Z) :
  sstore_rule Istanbul zeroHash zeroHash hash_one r = (StorageAdded, r).
Proof. reflexivity. Qed.

Lemma sstore_rule_again (r : Z) :
  sstore_rule Istanbul zeroHash hash_one hash_two r = (StorageModifiedAgain, r).
Proof. reflexivity. Qed.

Lemma sstore_rule_reset (r : Z) :
  sstore_rule Istanbul zeroHash hash_two zeroHash r = (StorageModifiedAgain, u64 (r + 19200)).
Proof. reflexivity. Qed.

Lemma is_hash_one : is_hash hash_one.
Proof. reflexivity. Qed.

Lemma is_hash_two : is_hash hash_two.
Proof. reflexivity. Qed.

Lemma is_hash_zero : is_hash zeroHash.
Proof. reflexivity. Qed.

(** C1. On revision Istanbul, for a visible account whose slot [key] is
    committed as zero and not yet written in this transaction, the writes of
    1, then 2, then 0 return [StorageAdded], [StorageModifiedAgain],
    [StorageModifiedAgain]; the first two leave the refund counter as it
    was, the third adds 19200 to it (the counter is a uint64; the sum is the
    plain one whenever it fits). *)
Theorem SetStorage_istanbul_sequence (addr : Address) (key : Hash) (o : stateObject)
    (r : Z) (txn : Txn) :
  is_address addr ->
  Txn_rev txn = Istanbul ->
  getStateObject addr txn = Ok (Some o) ->
  GetCommittedState addr key txn = Ok zeroHash ->
  GetState addr key txn = Ok zeroHash ->
  GetRefund txn = Ok r ->
  exists txn1 txn2 txn3,
    SetStorage addr key hash_one txn = Ok (StorageAdded, txn1) /\
    SetStorage addr key hash_two txn1 = Ok (StorageModifiedAgain, txn2) /\
    SetStorage addr key zeroHash txn2 = Ok (StorageModifiedAgain, txn3) /\
    GetRefund txn1 = Ok r /\
    GetRefund txn2 = Ok r /\
    GetRefund txn3 = Ok (u64 (r + 19200)) /\
    (0 <= r -> r + 19200 < 2 ^ 64 -> GetRefund txn3 = Ok (r + 19200)).
Proof.
  intros Ha Hrev Hg Horig Hcur Hr.
  assert (Snapshot_GetStorage (Txn_snapshot txn) addr (Root (obj_Account o)) key = zeroHash)
    as Hzero.
  { rewrite (GetCommittedState_total _ key _ _ Hg) in Horig. now inversion Horig. }
  (* the write of 1 *)
  destruct (SetStorage_step addr key hash_one txn _ _ _ r Ha Hg Hcur Horig Hr eq_refl)
    as [txn1 [Hrun1 [Hr1 [Hg1 [Hrev1 [Hsn1 _]]]]]].
  rewrite Hrev, sstore_rule_create in Hrun1, Hr1. simpl in Hrun1, Hr1, Hg1.
  assert (GetCommittedState addr key txn1 = Ok zeroHash) as Horig1.
  { rewrite (GetCommittedState_total _ key _ _ Hg1), Hsn1, write_slot_Account.
    now rewrite Hzero. }
  (* the write of 2 *)
  destruct (SetStorage_step addr key hash_two txn1 _ _ _ r Ha Hg1
              (GetState_of_written _ _ _ _ _ is_hash_one Hg1) Horig1 Hr1 eq_refl)
    as [txn2 [Hrun2 [Hr2 [Hg2 [Hrev2 [Hsn2 _]]]]]].
  rewrite Hrev1, Hrev, sstore_rule_again in Hrun2, Hr2. simpl in Hrun2, Hr2, Hg2.
  assert (GetCommittedState addr key txn2 = Ok zeroHash) as Horig2.
  { rewrite (GetCommittedState_total _ key _ _ Hg2), Hsn2, Hsn1, !write_slot_Account.
    now rewrite Hzero. }
  (* the write of 0 *)
  destruct (SetStorage_step addr key zeroHash txn2 _ _ _ r Ha Hg2
              (GetState_of_written _ _ _ _ _ is_hash_two Hg2) Horig2 Hr2 eq_refl)
    as [txn3 [Hrun3 [Hr3 _]]].
  rewrite Hrev2, Hrev1, Hrev, sstore_rule_reset in Hrun3, Hr3. simpl in Hrun3, Hr3.
  exists txn1, txn2, txn3. repeat split; try assumption.
  intros H0 H1. rewrite Hr3. now rewrite u64_small by lia.
Qed.

(** ** Account lifecycle *)

(** C8. [CreateAccount addr] stores a fresh object for [addr]: its balance
    is the balance visible before (zero for an absent account; the code
    copies the magnitude, which is the balance itself as balances are never
    negative), its nonce is 0, its code hash is [EmptyCodeHash] and it holds
    no code, its storage root is [EmptyStateHash], it has no slot overlay,
    and none of its flags is set. *)
Theorem CreateAccount_fresh (addr : Address) (before : Z) (txn : Txn) :
  GetBalance addr txn = Ok before ->
  exists obj txn',
    CreateAccount addr txn = Ok (tt, txn') /\
    Radix.Get (Address_Bytes addr) (Txn_txn txn') = Some (VObject obj) /\
    getStateObject addr txn' = Ok (Some obj) /\
    Balance (obj_Account obj) = Z.abs before /\
    (0 <= before -> Balance (obj_Account obj) = before) /\
    Nonce (obj_Account obj) = 0 /\
    CodeHash (obj_Account obj) = EmptyCodeHash /\
    obj_Code obj = [] /\
    Root (obj_Account obj) = EmptyStateHash /\
    obj_Txn obj = None /\
    obj_DirtyCode obj = false /\
    obj_Suicide obj = false /\
    obj_Deleted obj = false.
Proof.
  intros Hb. destruct (GetBalance_inv _ _ _ Hb) as [prev [Hg Hbal]].
  unfold CreateAccount. rewrite Hg.
  eexists. eexists. split; [reflexivity|].
  split; [simpl; apply Radix.Get_Insert_eq|].
  split.
  { fold (with_object addr
            match prev with
            | Some prev0 =>
                set_Account
                  (set_Balance (Z.abs (Balance (obj_Account prev0)))
                     (obj_Account (mkStateObject (mkAccount 0 0 EmptyStateHash EmptyCodeHash)
                                     [] false false false None)))
                  (mkStateObject (mkAccount 0 0 EmptyStateHash EmptyCodeHash)
                     [] false false false None)
            | None => mkStateObject (mkAccount 0 0 EmptyStateHash EmptyCodeHash)
                        [] false false false None
            end txn).
    rewrite getStateObject_with_object. destruct prev; reflexivity. }
  subst before. destruct prev as [p|]; simpl; repeat split; try reflexivity.
  intros H. now apply Z.abs_eq.
Qed.

(** C10. [Suicide] on a visible account whose suicided flag is already set
    returns false and still leaves the balance at zero.  So, for a visible
    account, after [Suicide], [AddBalance] of a positive amount and [Suicide]
    again, the second [Suicide] returns false and the balance reads 0. *)
Theorem Suicide_again (addr : Address) (o : stateObject) (txn : Txn) :
  getStateObject addr txn = Ok (Some o) ->
  (obj_Suicide o = true ->
     exists txn',
       Suicide addr txn = Ok (false, txn') /\
       GetBalance addr txn' = Ok 0 /\
       HasSuicided addr txn' = Ok true) /\
  (forall v, 0 < v ->
     exists b t1 t2 t3,
       Suicide addr txn = Ok (b, t1) /\
       AddBalance addr v t1 = Ok (tt, t2) /\
       GetBalance addr t2 = Ok v /\
       Suicide addr t2 = Ok (false, t3) /\
       GetBalance addr t3 = Ok 0).
Proof.
  assert (forall t x, getStateObject addr t = Ok (Some x) ->
            Suicide addr t =
              Ok (negb (obj_Suicide x),
                  with_object addr
                    (set_Account (set_Balance 0 (obj_Account x)) (set_Suicide true x)) t))
    as Hrun.
  { intros t x Hx. unfold Suicide, upsertAccount. rewrite Hx.
    destruct x as [acc code su de di tx]. destruct su; reflexivity. }
  intros Hg. pose proof (getStateObject_not_deleted _ _ _ Hg) as Hd. split.
  - intros Hs. eexists. rewrite (Hrun _ _ Hg), Hs. split; [reflexivity|].
    unfold GetBalance, HasSuicided.
    rewrite getStateObject_with_object. simpl. rewrite Hd. now split.
  - intros v Hv.
    set (o1 := set_Account (set_Balance 0 (obj_Account o)) (set_Suicide true o)).
    set (t1 := with_object addr o1 txn).
    assert (getStateObject addr t1 = Ok (Some o1)) as Hg1.
    { unfold t1. rewrite getStateObject_with_object. unfold o1. simpl. now rewrite Hd. }
    set (o2 := set_Account (set_Balance (Balance (obj_Account o1) + v) (obj_Account o1)) o1).
    set (t2 := with_object addr o2 t1).
    assert (getStateObject addr t2 = Ok (Some o2)) as Hg2.
    { unfold t2. rewrite getStateObject_with_object. unfold o2, o1. simpl. now rewrite Hd. }
    exists (negb (obj_Suicide o)), t1, t2.
    eexists. split; [exact (Hrun _ _ Hg)|].
    split; [exact (upsertAccount_on_object _ _ _ _ Hg1)|].
    split; [unfold GetBalance; rewrite Hg2; reflexivity|].
    split; [exact (Hrun _ _ Hg2)|].
    unfold GetBalance. rewrite getStateObject_with_object. simpl. now rewrite Hd.
Qed.

(** On an absent account the first [Suicide] does nothing, and after
    [AddBalance] the account is a new one: the second [Suicide] is its
    first. *)
Lemma Suicide_absent_then_funded (addr : Address) (v : Z) (txn : Txn) :
  getStateObject addr txn = Ok None ->
  exists t2 t3,
    Suicide addr txn = Ok (false, txn) /\
    AddBalance addr v txn = Ok (tt, t2) /\
    Suicide addr t2 = Ok (true, t3).
Proof.
  intros Hg. unfold Suicide at 1, upsertAccount. rewrite Hg.
  unfold AddBalance. rewrite (upsertAccount_on_object _ _ _ _ Hg).
  do 2 eexists. split; [reflexivity|]. split; [reflexivity|].
  unfold Suicide, upsertAccount. rewrite getStateObject_with_object. reflexivity.
Qed.

(** ** Walks that append *)

Lemma fold_left_append {A B : Type} (g : A -> list B) (l : list A) (acc : list B) :
  fold_left (fun acc x => acc ++ g x) l acc = acc ++ flat_map g l.
Proof.
  revert acc. induction l as [|x l IH]; intros acc; simpl.
  - now rewrite app_nil_r.
  - rewrite IH. now rewrite app_assoc.
Qed.

Lemma flat_map_singleton {A B : Type} (f : A -> B) (l : list A) :
  flat_map (fun x => [f x]) l = map f l.
Proof. induction l as [|x l IH]; simpl; [reflexivity | now rewrite IH]. Qed.

Lemma fold_left_ext {A B : Type} (f g : A -> B -> A) (l : list B) (a : A) :
  (forall a x, f a x = g a x) -> fold_left f l a = fold_left g l a.
Proof.
  intros H. revert a. induction l as [|x l IH]; intros a; simpl.
  - reflexivity.
  - now rewrite H, IH.
Qed.

(** ** [CleanDeleteObjects] *)

Lemma collect_remove_flat_map (de : bool) (j : Radix.tree value) :
  collect_remove de j = flat_map (removed_key de) j.
Proof.
  unfold collect_remove, Radix.Walk.
  rewrite <- (app_nil_l (flat_map _ j)), <- fold_left_append.
  apply fold_left_ext. intros acc [k v]. unfold removed_key, to_remove. simpl.
  destruct v as [a| |]; rewrite ?app_nil_r; try reflexivity.
  destruct (obj_Suicide a || Empty_obj a && de); now rewrite ?app_nil_r.
Qed.

(** In a well-formed journal the key [k] is collected exactly when the
    object stored under it is to be removed. *)
Lemma collect_remove_mem (de : bool) (j : Radix.tree value) (k : bytes) :
  Radix.ok j ->
  existsb (bytes_eqb k) (collect_remove de j) =
    match Radix.Get k j with
    | Some (VObject a) => to_remove de a
    | _ => false
    end.
Proof.
  rewrite collect_remove_flat_map.
  induction j as [|[k1 v1] j IH]; intros Hok; simpl; [reflexivity|].
  rewrite existsb_app, (IH (Radix.ok_tail _ _ _ Hok)).
  destruct (bytes_eqb k k1) eqn:E.
  - apply bytes_eqb_eq in E. subst k1.
    rewrite (Radix.ok_head_fresh _ _ _ Hok).
    unfold removed_key. simpl.
    destruct v1 as [a| |]; simpl; try reflexivity.
    destruct (to_remove de a); simpl; rewrite ?bytes_eqb_refl; reflexivity.
  - unfold removed_key. simpl.
    destruct v1 as [a| |]; simpl; try reflexivity.
    destruct (to_remove de a); simpl; rewrite ?E; reflexivity.
Qed.

Lemma collect_remove_objects (de : bool) (j : Radix.tree value) (k : bytes) :
  In k (collect_remove de j) -> exists o, In (k, VObject o) j.
Proof.
  rewrite collect_remove_flat_map. intros H.
  apply in_flat_map in H. destruct H as [[k1 v1] [Hin Hk]].
  unfold removed_key in Hk. simpl in Hk.
  destruct v1 as [a| |]; try contradiction.
  destruct (to_remove de a); [|contradiction].
  destruct Hk as [->|[]]. now exists a.
Qed.

Lemma set_Deleted_idem (o : stateObject) :
  set_Deleted true (set_Deleted true o) = set_Deleted true o.
Proof. reflexivity. Qed.

(** The loop over the collected keys. *)
Lemma mark_deleted_all (ks : list bytes) (t : Txn) :
  (forall k, In k ks -> exists o, Radix.Get k (Txn_txn t) = Some (VObject o)) ->
  exists t',
    for_each ks mark_deleted t = Ok (tt, t') /\
    Txn_snapshot t' = Txn_snapshot t /\
    Txn_snapshots t' = Txn_snapshots t /\
    Txn_rev t' = Txn_rev t /\
    forall k,
      Radix.Get k (Txn_txn t') =
        match Radix.Get k (Txn_txn t) with
        | Some (VObject o) =>
            Some (VObject (if existsb (bytes_eqb k) ks then set_Deleted true o else o))
        | other => other
        end.
Proof.
  revert t. induction ks as [|k1 ks IH]; intros t Hks.
  - exists t. simpl. repeat split.
    intros k. now destruct (Radix.Get k (Txn_txn t)) as [[| |]|].
  - destruct (Hks k1 (or_introl eq_refl)) as [o1 Ho1].
    set (t1 := set_txn (Radix.Insert k1 (VObject (set_Deleted true o1)) (Txn_txn t)) t).
    assert (mark_deleted k1 t = Ok (tt, t1)) as Hm.
    { unfold mark_deleted. rewrite Ho1, Copy_id. reflexivity. }
    destruct (IH t1) as [t' [Hrun [H1 [H2 [H3 H4]]]]].
    { intros k Hk. unfold t1. simpl. rewrite Radix.Get_Insert.
      destruct (bytes_eqb k k1); [eauto|]. apply Hks. now right. }
    exists t'. simpl for_each. rewrite (bind_ok _ _ _ _ _ Hm).
    split; [exact Hrun|]. repeat split; try assumption.
    intros k. rewrite H4. unfold t1. simpl. rewrite Radix.Get_Insert.
    destruct (bytes_eqb k k1) eqn:E.
    + apply bytes_eqb_eq in E. subst k1. rewrite Ho1.
      now destruct (existsb (bytes_eqb k) ks).
    + reflexivity.
Qed.


(** ** [Commit] *)

Lemma commit_storage_map (tx : slots) : commit_storage tx = map commit_slot tx.
Proof.
  unfold commit_storage, Radix.Walk.
  rewrite (fold_left_ext _ (fun acc kv => acc ++ [commit_slot kv])).
  - rewrite fold_left_append. simpl. apply flat_map_singleton.
  - intros acc [k [v|]]; reflexivity.
Qed.

Lemma Commit_flat_map (txn : Txn) : Commit txn = flat_map commit_entry (Txn_txn txn).
Proof.
  unfold Commit, Radix.Walk.
  rewrite (fold_left_ext _ (fun acc kv => acc ++ commit_entry kv)).
  - now rewrite fold_left_append.
  - intros acc [k [a| |]]; unfold commit_entry, commit_object; cbn [fst snd];
      rewrite ?app_nil_r; try reflexivity.
    destruct (obj_Deleted a); [reflexivity|].
    destruct (obj_Txn a); [rewrite commit_storage_map|]; reflexivity.
Qed.

Lemma Commit_sources (j : Radix.tree value) (obj : Object) :
  In obj (flat_map commit_entry j) ->
  exists k a, In (k, VObject a) j /\ obj = commit_object k a.
Proof.
  intros H. apply in_flat_map in H. destruct H as [[k v] [Hin Ho]].
  unfold commit_entry in Ho. simpl in Ho.
  destruct v as [a| |]; try contradiction.
  destruct Ho as [<-|[]]. now exists k, a.
Qed.

Lemma wf_journal_In (j : Radix.tree value) (k : bytes) (v : value) :
  wf_journal j -> In (k, v) j -> wf_value k v.
Proof.
  intros [_ Hall] Hin. rewrite Forall_forall in Hall. exact (Hall _ Hin).
Qed.

Lemma StronglySorted_map_slots (tx : slots) :
  Radix.ok tx -> StronglySorted bytes_lt (map Storage_Key (map commit_slot tx)).
Proof.
  unfold Radix.ok, Radix.keys. intros H.
  replace (map Storage_Key (map commit_slot tx)) with (map fst tx); [exact H|].
  rewrite map_map. apply map_ext. intros [k [v|]]; reflexivity.
Qed.

Lemma Commit_addresses_sorted (j : Radix.tree value) :
  wf_journal j ->
  StronglySorted bytes_lt (map Object_Address (flat_map commit_entry j)).
Proof.
  intros [Hok Hall]. unfold Radix.ok, Radix.keys in Hok.
  induction j as [|[k v] j IH]; simpl; [constructor|].
  inversion Hok as [|? ? Hs Hlt]; subst. inversion Hall as [|? ? Hv Hall']; subst.
  specialize (IH Hs Hall').
  destruct v as [a| |]; simpl; try exact IH.
  constructor; [exact IH|].
  simpl in Hv. destruct Hv as [Hlen _]. rewrite (BytesToAddress_id k Hlen).
  apply Forall_forall. intros x Hx.
  apply in_map_iff in Hx. destruct Hx as [obj [<- Hobj]].
  apply Commit_sources in Hobj. destruct Hobj as [k' [a' [Hin ->]]].
  simpl. rewrite Forall_forall in Hall'. pose proof (Hall' _ Hin) as Hv'.
  simpl in Hv'. destruct Hv' as [Hlen' _]. rewrite (BytesToAddress_id k' Hlen').
  rewrite Forall_forall in Hlt. apply Hlt.
  apply (in_map fst) in Hin. exact Hin.
Qed.

(** C7. The list [Commit] returns: every object in it is built from an entry
    of the journal that holds a state object, under a key that is neither
    [logIndex] nor [refundIndex], so the logs and the refund counter are not
    in it; the addresses are strictly ascending; an object not deleted
    carries the slots of its overlay in strictly ascending key order, a
    nil slot as an entry with [Deleted] set and any other with its bytes;
    an object whose deleted flag is set is emitted with [Deleted] set and no
    storage. *)
Theorem Commit_ordered (txn : Txn) :
  wf_journal (Txn_txn txn) ->
  Commit txn = flat_map commit_entry (Txn_txn txn) /\
  (forall obj, In obj (Commit txn) ->
     exists k a,
       In (k, VObject a) (Txn_txn txn) /\ k <> logIndex /\ k <> refundIndex /\
       obj = commit_object k a /\ Object_Address obj = k /\
       Object_Deleted obj = obj_Deleted a /\
       (obj_Deleted a = true -> Object_Storage obj = []) /\
       (obj_Deleted a = false ->
          Object_Storage obj =
            match obj_Txn a with
            | Some tx => map commit_slot tx
            | None => []
            end)) /\
  StronglySorted bytes_lt (map Object_Address (Commit txn)) /\
  (forall obj, In obj (Commit txn) -> Object_Deleted obj = false ->
     StronglySorted bytes_lt (map Storage_Key (Object_Storage obj)) /\
     (forall s, In s (Object_Storage obj) ->
        Storage_Deleted s = true -> Storage_Val s = [])) /\
  (forall obj, In obj (Commit txn) -> Object_Deleted obj = true ->
     Object_Storage obj = []).
Proof.
  intros Hwf. rewrite Commit_flat_map.
  split; [reflexivity|]. split; [|split; [|split]].
  - intros obj Hin. apply Commit_sources in Hin. destruct Hin as [k [a [Hin ->]]].
    pose proof (wf_journal_In _ _ _ Hwf Hin) as [Hlen _].
    exists k, a. split; [exact Hin|].
    split; [exact (address_not_logIndex k Hlen)|].
    split; [exact (address_not_refundIndex k Hlen)|].
    split; [reflexivity|]. split; [exact (BytesToAddress_id k Hlen)|].
    split; [reflexivity|]. simpl. split; intros ->; reflexivity.
  - now apply Commit_addresses_sorted.
  - intros obj Hin Hd. apply Commit_sources in Hin. destruct Hin as [k [a [Hin ->]]].
    pose proof (wf_journal_In _ _ _ Hwf Hin) as [_ Hslots].
    simpl in Hd. simpl. rewrite Hd. unfold wf_slots in Hslots.
    destruct (obj_Txn a) as [tx|]; simpl.
    + split; [now apply StronglySorted_map_slots|].
      intros s Hs. apply in_map_iff in Hs. destruct Hs as [[k' [v|]] [<- _]]; simpl.
      * discriminate.
      * reflexivity.
    + split; [constructor|]. intros s [].
  - intros obj Hin Hd. apply Commit_sources in Hin. destruct Hin as [k [a [Hin ->]]].
    simpl in Hd. simpl. now rewrite Hd.
Qed.

(** ** Snapshot and revert over sequences of operations *)

Lemma journal_frame_refl (t : Txn) : journal_frame t t.
Proof. repeat split. exists []. now rewrite app_nil_r. Qed.

Lemma journal_frame_trans (a b c : Txn) :
  journal_frame a b -> journal_frame b c -> journal_frame a c.
Proof.
  intros [H1 [H2 [l1 H3]]] [H4 [H5 [l2 H6]]]. repeat split; try congruence.
  exists (l1 ++ l2). now rewrite H6, H3, app_assoc.
Qed.

Lemma journal_frame_set_txn (j : Radix.tree value) (t : Txn) :
  journal_frame t (set_txn j t).
Proof. repeat split. exists []. simpl. now rewrite app_nil_r. Qed.

Ltac frame_raw :=
  let H := fresh "H" in
  intros ? ? ? H;
  repeat match type of H with
         | context [match ?x with _ => _ end] => destruct x eqn:?
         end;
  try discriminate; inversion H; subst;
  first [apply journal_frame_refl | apply journal_frame_set_txn].

Lemma frame_upsertAccount {R : Type} (addr : Address) (create : bool)
    (f : option stateObject -> result (R * option stateObject)) :
  stable journal_frame (upsertAccount addr create f).
Proof.
  intros t a t' H. unfold upsertAccount in H.
  destruct (getStateObject addr t) as [got|]; [|discriminate].
  match type of H with
  | context [f ?x] => destruct (f x) as [[r [o|]]|]
  end; try discriminate; inversion H; subst;
    first [apply journal_frame_refl | apply journal_frame_set_txn].
Qed.

Lemma frame_Snapshot : stable journal_frame Snapshot_.
Proof.
  intros t a t' H. inversion H; subst. repeat split. now exists [Txn_txn t].
Qed.

Lemma frame_RevertToSnapshot (id : Z) : stable journal_frame (RevertToSnapshot id).
Proof. unfold RevertToSnapshot. frame_raw. Qed.

Lemma frame_EmitLog (addr : Address) (topics : list Hash) (data : bytes) :
  stable journal_frame (EmitLog addr topics data).
Proof.
  intros t a t' H. unfold EmitLog in H.
  destruct (Radix.Get logIndex (Txn_txn t)) as [[o|l|r]|]; try discriminate;
    match type of H with
    | context [append ?s ?x ?h] => destruct (append s x h) as [s' h']
    end; inversion H; subst; repeat split; exists []; simpl; now rewrite app_nil_r.
Qed.

Lemma frame_AddRefund (gas : Z) : stable journal_frame (AddRefund gas).
Proof. unfold AddRefund. frame_raw. Qed.

Lemma frame_SubRefund (gas : Z) : stable journal_frame (SubRefund gas).
Proof. unfold SubRefund. frame_raw. Qed.

Lemma frame_Logs : stable journal_frame Logs.
Proof. unfold Logs. frame_raw. Qed.

Lemma frame_CreateAccount (addr : Address) : stable journal_frame (CreateAccount addr).
Proof. unfold CreateAccount. frame_raw. Qed.

Lemma frame_mark_deleted (k : bytes) : stable journal_frame (mark_deleted k).
Proof. unfold mark_deleted. frame_raw. Qed.

Ltac solve_frame :=
  repeat first
    [ apply (stable_ret _ journal_frame_refl)
    | apply (stable_read _ journal_frame_refl)
    | apply frame_upsertAccount
    | apply frame_AddRefund
    | apply frame_SubRefund
    | apply (stable_discard _ journal_frame_refl journal_frame_trans)
    | apply (stable_bind _ journal_frame_trans); [|intros ?]
    | match goal with
      | |- stable _ (if ?b then _ else _) => destruct b
      end ].

Lemma frame_SetStorage (addr : Address) (key value : Hash) :
  stable journal_frame (SetStorage addr key value).
Proof. unfold SetStorage, SetState. solve_frame. Qed.

Lemma frame_SubBalance (addr : Address) (amount : Z) :
  stable journal_frame (SubBalance addr amount).
Proof. unfold SubBalance. solve_frame. Qed.

Lemma frame_CleanDeleteObjects (deleteEmptyObjects : bool) :
  stable journal_frame (CleanDeleteObjects deleteEmptyObjects).
Proof.
  unfold CleanDeleteObjects.
  apply (stable_bind _ journal_frame_trans); [apply (stable_read _ journal_frame_refl)|].
  intros remove.
  apply (stable_bind _ journal_frame_trans).
  - apply (stable_for_each _ journal_frame_refl journal_frame_trans).
    apply frame_mark_deleted.
  - intros _. frame_raw.
Qed.

Lemma frame_run_op (o : op) : stable journal_frame (run_op o).
Proof.
  destruct o; simpl;
    first [ apply (stable_discard _ journal_frame_refl journal_frame_trans) | idtac ];
    first [ apply frame_Snapshot | apply frame_RevertToSnapshot
          | apply frame_upsertAccount | apply frame_SubBalance
          | apply frame_EmitLog | apply frame_SetStorage
          | apply frame_AddRefund | apply frame_SubRefund | apply frame_Logs
          | apply frame_CreateAccount | apply frame_CleanDeleteObjects ].
Qed.

Lemma frame_run_ops (ops : list op) : stable journal_frame (run_ops ops).
Proof.
  apply (stable_for_each _ journal_frame_refl journal_frame_trans).
  apply frame_run_op.
Qed.

(** ** Well-formedness is kept by every operation *)

Lemma wf_step_refl (t : Txn) : wf_step t t.
Proof. intros H. exact H. Qed.

Lemma wf_step_trans (a b c : Txn) : wf_step a b -> wf_step b c -> wf_step a c.
Proof. unfold wf_step. auto. Qed.

Lemma In_Insert {V : Type} (k : bytes) (v : V) (t : Radix.tree V) (x : bytes * V) :
  In x (Radix.Insert k v t) -> x = (k, v) \/ In x t.
Proof.
  induction t as [|[k1 v1] r IH]; simpl.
  - intuition.
  - destruct (bytes_compare k k1); simpl; intuition.
Qed.

Lemma In_Delete {V : Type} (k : bytes) (t : Radix.tree V) (x : bytes * V) :
  In x (Radix.Delete k t) -> In x t.
Proof.
  induction t as [|[k1 v1] r IH]; simpl; [tauto|].
  destruct (bytes_eqb k k1); simpl; intuition.
Qed.

Lemma wf_journal_New : wf_journal Radix.New.
Proof. split; constructor. Qed.

Lemma wf_journal_Insert (k : bytes) (v : value) (j : Radix.tree value) :
  wf_journal j -> wf_value k v -> wf_journal (Radix.Insert k v j).
Proof.
  intros [Hok Hall] Hv. split; [now apply Radix.ok_Insert|].
  apply Forall_forall. intros x Hx. apply In_Insert in Hx.
  destruct Hx as [->|Hx]; [exact Hv|].
  rewrite Forall_forall in Hall. now apply Hall.
Qed.

Lemma wf_journal_Delete (k : bytes) (j : Radix.tree value) :
  wf_journal j -> wf_journal (Radix.Delete k j).
Proof.
  intros [Hok Hall]. split; [now apply Radix.ok_Delete|].
  apply Forall_forall. intros x Hx. apply In_Delete in Hx.
  rewrite Forall_forall in Hall. now apply Hall.
Qed.

Lemma wf_journal_Get (j : Radix.tree value) (k : bytes) (v : value) :
  wf_journal j -> Radix.Get k j = Some v -> wf_value k v.
Proof. intros Hwf Hg. apply (wf_journal_In j); [exact Hwf|]. now apply Radix.Get_In. Qed.

Lemma wf_set_txn (j : Radix.tree value) (t : Txn) :
  wf_journal j -> wf_step t (set_txn j t).
Proof. intros Hj [_ Hs]. split; assumption. Qed.

Lemma newTxn_wf (snapshot : Snapshot) : wf_txn (newTxn snapshot).
Proof. split; [apply wf_journal_New | constructor]. Qed.

(** In a well-formed transaction the reads do not panic. *)

Lemma wf_getStateObject (addr : Address) (t : Txn) :
  wf_txn t -> is_address addr ->
  exists got, getStateObject addr t = Ok got /\
              match got with Some o => wf_slots o | None => True end.
Proof.
  intros [Hj _] Ha. unfold getStateObject.
  destruct (Radix.Get (Address_Bytes addr) (Txn_txn t)) as [v|] eqn:E.
  - pose proof (wf_journal_Get _ _ _ Hj E) as Hv.
    destruct v as [o|l|r]; simpl in Hv.
    + destruct (obj_Deleted o); eexists; (split; [reflexivity|]); [exact I|].
      rewrite Copy_id. apply Hv.
    + exfalso. revert Hv. now apply address_not_logIndex.
    + exfalso. destruct Hv as [Hv _]. revert Hv. now apply address_not_refundIndex.
  - destruct (Snapshot_GetAccount (Txn_snapshot t) addr) as [[acc|] [|]];
      eexists; (split; [reflexivity|]); exact I.
Qed.

Lemma wf_GetRefund (t : Txn) :
  wf_txn t -> exists r, GetRefund t = Ok r /\ 0 <= r < 2 ^ 64.
Proof.
  intros [Hj _]. unfold GetRefund.
  destruct (Radix.Get refundIndex (Txn_txn t)) as [v|] eqn:E.
  - pose proof (wf_journal_Get _ _ _ Hj E) as Hv.
    destruct v as [o|l|r]; simpl in Hv.
    + destruct Hv as [Hv _]. discriminate Hv.
    + exfalso. symmetry in Hv. revert Hv. apply logIndex_not_refundIndex.
    + exists r. split; [reflexivity | apply Hv].
  - exists 0. split; [reflexivity | lia].
Qed.

Lemma wf_GetState (addr : Address) (key : Hash) (t : Txn) :
  wf_txn t -> is_address addr -> exists v, GetState addr key t = Ok v.
Proof.
  intros Hwf Ha. destruct (wf_getStateObject addr t Hwf Ha) as [got [Hg _]].
  unfold GetState. rewrite Hg. simpl.
  destruct got as [o|]; [|now eexists].
  destruct (obj_Txn o) as [tx|]; [|now eexists].
  destruct (Radix.Get (Hash_Bytes key) tx) as [[b|]|]; now eexists.
Qed.

Lemma wf_GetBalance (addr : Address) (t : Txn) :
  wf_txn t -> is_address addr -> exists b, GetBalance addr t = Ok b.
Proof.
  intros Hwf Ha. destruct (wf_getStateObject addr t Hwf Ha) as [got [Hg _]].
  unfold GetBalance. rewrite Hg. destruct got; now eexists.
Qed.

(** The operations keep the transaction well formed. *)

Lemma wf_upsertAccount {R : Type} (addr : Address) (create : bool)
    (f : option stateObject -> result (R * option stateObject)) :
  is_address addr ->
  (forall o r o', match o with Some x => wf_slots x | None => True end ->
                  f o = Ok (r, Some o') -> wf_slots o') ->
  stable wf_step (upsertAccount addr create f).
Proof.
  intros Ha Hf t a t' H Hwf. unfold upsertAccount in H.
  destruct (wf_getStateObject addr t Hwf Ha) as [got [Hg Hgot]].
  rewrite Hg in H.
  match type of H with
  | context [f ?x] => destruct (f x) as [[r [o|]]|] eqn:E
  end; try discriminate; inversion H; subst; [|exact Hwf].
  apply wf_set_txn; [|exact Hwf].
  apply wf_journal_Insert; [apply Hwf|].
  split; [exact Ha|]. apply (Hf _ _ _) in E; [exact E|].
  destruct got as [x|]; [exact Hgot|]. destruct create; exact I.
Qed.

Lemma wf_on_object (g : stateObject -> stateObject) :
  (forall x, wf_slots x -> wf_slots (g x)) ->
  forall o r o', match o with Some x => wf_slots x | None => True end ->
                 on_object g o = Ok (r, Some o') -> wf_slots o'.
Proof.
  intros Hg [x|] r o' Hx H; simpl in H; [|discriminate].
  inversion H; subst. now apply Hg.
Qed.

Lemma wf_slots_write_slot (key value : Hash) (x : stateObject) :
  wf_slots x -> wf_slots (write_slot key value x).
Proof.
  unfold wf_slots, write_slot. intros H.
  destruct (Hash_eqb value zeroHash); simpl; apply Radix.ok_Insert;
    destruct (obj_Txn x); try exact H; apply Radix.ok_New.
Qed.

Lemma wf_SetState (addr : Address) (key value : Hash) :
  is_address addr -> stable wf_step (SetState addr key value).
Proof.
  intros Ha. apply wf_upsertAccount; [exact Ha|].
  apply wf_on_object. apply wf_slots_write_slot.
Qed.

Lemma wf_with_refund_step (m : M unit) :
  (forall t a t', m t = Ok (a, t') -> exists r, t' = with_refund (u64 r) t) ->
  stable wf_step m.
Proof.
  intros Hm t a t' H Hwf. apply Hm in H. destruct H as [r ->].
  apply wf_set_txn; [|exact Hwf].
  apply wf_journal_Insert; [apply Hwf|].
  split; [reflexivity | apply u64_range].
Qed.

Lemma wf_AddRefund (gas : Z) : stable wf_step (AddRefund gas).
Proof.
  apply wf_with_refund_step. intros t a t'. unfold AddRefund.
  destruct (GetRefund t) as [r|]; [|discriminate].
  intros H. inversion H. now exists (r + gas).
Qed.

Lemma wf_SubRefund (gas : Z) : stable wf_step (SubRefund gas).
Proof.
  apply wf_with_refund_step. intros t a t'. unfold SubRefund.
  destruct (GetRefund t) as [r|]; [|discriminate].
  intros H. inversion H. now exists (r - gas).
Qed.

Ltac solve_wf :=
  repeat first
    [ apply (stable_ret _ wf_step_refl)
    | apply (stable_read _ wf_step_refl)
    | apply wf_AddRefund
    | apply wf_SubRefund
    | apply (stable_discard _ wf_step_refl wf_step_trans)
    | apply (stable_bind _ wf_step_trans); [|intros ?]
    | match goal with
      | |- stable _ (if ?b then _ else _) => destruct b
      end ].

Lemma wf_SetStorage (addr : Address) (key value : Hash) :
  is_address addr -> stable wf_step (SetStorage addr key value).
Proof.
  intros Ha. pose proof (wf_SetState addr key value Ha) as Hs.
  unfold SetStorage.
  apply (stable_bind _ wf_step_trans); [apply (stable_read _ wf_step_refl)|intros cur].
  destruct (Hash_eqb cur value); [apply (stable_ret _ wf_step_refl)|].
  apply (stable_bind _ wf_step_trans); [apply (stable_read _ wf_step_refl)|intros orig].
  apply (stable_bind _ wf_step_trans); [exact Hs|intros _].
  solve_wf.
Qed.

Lemma wf_keep_slots (g : stateObject -> stateObject) :
  (forall x, obj_Txn (g x) = obj_Txn x) ->
  forall x, wf_slots x -> wf_slots (g x).
Proof. intros Hg x. unfold wf_slots. now rewrite Hg. Qed.

Lemma wf_SubBalance (addr : Address) (amount : Z) :
  is_address addr -> stable wf_step (SubBalance addr amount).
Proof.
  intros Ha. unfold SubBalance.
  destruct (amount =? 0); [apply (stable_ret _ wf_step_refl)|].
  apply (stable_bind _ wf_step_trans); [apply (stable_read _ wf_step_refl)|intros b].
  destruct (b <? amount); [apply (stable_ret _ wf_step_refl)|].
  apply (stable_bind _ wf_step_trans); [|intros _; apply (stable_ret _ wf_step_refl)].
  apply wf_upsertAccount; [exact Ha|].
  apply wf_on_object. now apply wf_keep_slots.
Qed.

Lemma wf_Suicide (addr : Address) : is_address addr -> stable wf_step (Suicide addr).
Proof.
  intros Ha. apply wf_upsertAccount; [exact Ha|].
  intros [x|] r o' Hx H; [|discriminate].
  destruct (obj_Suicide x); inversion H; subst; exact Hx.
Qed.

Lemma wf_EmitLog (addr : Address) (topics : list Hash) (data : bytes) :
  stable wf_step (EmitLog addr topics data).
Proof.
  intros t a t' H Hwf. unfold EmitLog in H.
  destruct (Radix.Get logIndex (Txn_txn t)) as [[| |]|]; try discriminate;
    match type of H with
    | context [append ?s ?x ?h] => destruct (append s x h) as [s' h']
    end; inversion H; subst; (apply wf_set_txn; [|exact Hwf]);
    (apply wf_journal_Insert; [apply Hwf | reflexivity]).
Qed.

Lemma wf_Logs : stable wf_step Logs.
Proof.
  intros t a t' H Hwf. unfold Logs in H.
  destruct (Radix.Get logIndex (Txn_txn t)) as [[| |]|]; try discriminate;
    inversion H; subst; [|exact Hwf].
  apply wf_set_txn; [|exact Hwf]. apply wf_journal_Delete. apply Hwf.
Qed.

Lemma wf_CreateAccount (addr : Address) :
  is_address addr -> stable wf_step (CreateAccount addr).
Proof.
  intros Ha t a t' H Hwf. unfold CreateAccount in H.
  destruct (getStateObject addr t) as [prev|]; [|discriminate].
  inversion H; subst. apply wf_set_txn; [|exact Hwf].
  apply wf_journal_Insert; [apply Hwf|].
  split; [exact Ha|]. destruct prev; exact I.
Qed.

Lemma wf_mark_deleted (k : bytes) : stable wf_step (mark_deleted k).
Proof.
  intros t a t' H Hwf. unfold mark_deleted in H.
  destruct (Radix.Get k (Txn_txn t)) as [[o| |]|] eqn:E; try discriminate.
  inversion H; subst. apply wf_set_txn; [|exact Hwf].
  apply wf_journal_Insert; [apply Hwf|].
  destruct Hwf as [Hj _]. pose proof (wf_journal_Get _ _ _ Hj E) as Hv.
  rewrite Copy_id. exact Hv.
Qed.

Lemma wf_CleanDeleteObjects (deleteEmptyObjects : bool) :
  stable wf_step (CleanDeleteObjects deleteEmptyObjects).
Proof.
  unfold CleanDeleteObjects.
  apply (stable_bind _ wf_step_trans); [apply (stable_read _ wf_step_refl)|].
  intros remove.
  apply (stable_bind _ wf_step_trans).
  - apply (stable_for_each _ wf_step_refl wf_step_trans). apply wf_mark_deleted.
  - intros _ t a t' H Hwf. inversion H; subst.
    apply wf_set_txn; [|exact Hwf]. apply wf_journal_Delete. apply Hwf.
Qed.

Lemma wf_Snapshot : stable wf_step Snapshot_.
Proof.
  intros t a t' H [Hj Hs]. inversion H; subst. split; [exact Hj|].
  simpl. apply Forall_app. split; [exact Hs|]. now constructor.
Qed.

Lemma wf_RevertToSnapshot (id : Z) : stable wf_step (RevertToSnapshot id).
Proof.
  intros t a t' H Hwf. unfold RevertToSnapshot, index in H.
  destruct (id >? Z.of_nat (length (Txn_snapshots t))); [discriminate|].
  destruct (id <? 0); [discriminate|].
  destruct (nth_error (Txn_snapshots t) (Z.to_nat id)) as [tree|] eqn:E; [|discriminate].
  inversion H; subst. apply wf_set_txn; [|exact Hwf].
  destruct Hwf as [_ Hs]. rewrite Forall_forall in Hs.
  apply Hs. eapply nth_error_In. exact E.
Qed.

Lemma wf_run_op (o : op) : op_ok o -> stable wf_step (run_op o).
Proof.
  destruct o; simpl; intros Hok;
    first [ apply (stable_discard _ wf_step_refl wf_step_trans) | idtac ];
    first [ apply wf_Snapshot | apply wf_RevertToSnapshot
          | now apply wf_SubBalance | apply wf_EmitLog | now apply wf_SetStorage
          | now apply wf_SetState | now apply wf_Suicide
          | apply wf_AddRefund | apply wf_SubRefund | apply wf_Logs
          | now apply wf_CreateAccount | apply wf_CleanDeleteObjects
          | idtac ].
  - (* AddSealingReward *)
    apply wf_upsertAccount; [exact Hok|]. apply wf_on_object.
    intros x Hx. destruct (obj_Suicide x); [exact I | exact Hx].
  - (* AddBalance *)
    apply wf_upsertAccount; [exact Hok|]. apply wf_on_object. now apply wf_keep_slots.
  - (* SetBalance *)
    apply wf_upsertAccount; [exact Hok|]. apply wf_on_object. now apply wf_keep_slots.
  - (* IncrNonce *)
    apply wf_upsertAccount; [exact Hok|]. apply wf_on_object. now apply wf_keep_slots.
  - (* SetNonce *)
    apply wf_upsertAccount; [exact Hok|]. apply wf_on_object. now apply wf_keep_slots.
  - (* SetCode *)
    apply wf_upsertAccount; [exact Hok|]. apply wf_on_object. now apply wf_keep_slots.
  - (* TouchAccount *)
    apply wf_upsertAccount; [exact Hok|].
    intros [x|] r o' Hx H; inversion H; subst; exact Hx.
Qed.

(** Every transaction reached from a new one by operations on addresses is
    well formed. *)
Lemma wf_run_ops (ops : list op) (t t' : Txn) :
  Forall op_ok ops -> wf_txn t -> run_ops ops t = Ok (tt, t') -> wf_txn t'.
Proof.
  unfold run_ops. revert t. induction ops as [|o ops IH]; intros t Hok Hwf H; simpl in H.
  - inversion H. now subst.
  - inversion Hok as [|? ? Ho Hops]; subst.
    apply bind_inv in H. destruct H as [u [t1 [H1 H2]]].
    apply (IH t1 Hops); [|exact H2].
    exact (wf_run_op o Ho _ _ _ H1 Hwf).
Qed.

(** So is every transaction reached from [NewTxn]. *)
Corollary wf_reachable (snapshot : Snapshot) (ops : list op) (t : Txn) :
  Forall op_ok ops -> run_ops ops (NewTxn snapshot) = Ok (tt, t) -> wf_txn t.
Proof. intros Hok. apply wf_run_ops; [exact Hok | apply newTxn_wf]. Qed.

(** ** Further properties of the methods *)

(** *** Reads of one account *)

Lemma GetNonce_of (a : Address) (t : Txn) (got : option stateObject) :
  getStateObject a t = Ok got ->
  GetNonce a t = Ok (match got with Some o => Nonce (obj_Account o) | None => 0 end).
Proof. unfold GetNonce. intros ->. now destruct got. Qed.

Lemma GetBalance_of (a : Address) (t : Txn) (got : option stateObject) :
  getStateObject a t = Ok got ->
  GetBalance a t = Ok (match got with Some o => Balance (obj_Account o) | None => 0 end).
Proof. unfold GetBalance. intros ->. now destruct got. Qed.

Lemma Exist_of (a : Address) (t : Txn) (got : option stateObject) :
  getStateObject a t = Ok got ->
  Exist a t = Ok (match got with Some _ => true | None => false end).
Proof. unfold Exist. intros ->. now destruct got. Qed.

Lemma Empty_of (a : Address) (t : Txn) (got : option stateObject) :
  getStateObject a t = Ok got ->
  Empty a t = Ok (match got with Some o => Empty_obj o | None => true end).
Proof. unfold Empty. intros ->. now destruct got. Qed.

Lemma HasSuicided_of (a : Address) (t : Txn) (got : option stateObject) :
  getStateObject a t = Ok got ->
  HasSuicided a t = Ok (match got with Some o => obj_Suicide o | None => false end).
Proof. unfold HasSuicided. intros ->. now destruct got. Qed.

Lemma getStateObject_with_object_other (a b : Address) (o : stateObject) (t : Txn) :
  b <> a -> getStateObject b (with_object a o t) = getStateObject b t.
Proof.
  intros Hne. apply getStateObject_ext; [reflexivity|]. simpl.
  now apply Radix.Get_Insert_ne.
Qed.

Lemma getStateObject_stored (a : Address) (o : stateObject) (t : Txn) :
  obj_Deleted o = false -> getStateObject a (with_object a o t) = Ok (Some o).
Proof. intros Hd. now rewrite getStateObject_with_object, Hd. Qed.

(** Names the read of the object just stored for [addr]. *)
Ltac note_stored addr txn Hd H :=
  cbv beta zeta;
  match goal with
  | |- context [with_object addr ?o txn] =>
      assert (getStateObject addr (with_object addr o txn) = Ok (Some o)) as H
        by (apply getStateObject_stored; exact Hd)
  end.

(** *** Storage slots: write and read back *)

(** X1. [SetState] then [GetState] gives the value back.  For an account
    that was visible, every other slot reads as before and the committed
    state of every slot is as before; the slots of every other account read
    as before. *)
Theorem SetState_GetState (addr : Address) (key value : Hash) (txn : Txn)
    (got : option stateObject) :
  is_hash value ->
  getStateObject addr txn = Ok got ->
  exists txn',
    SetState addr key value txn = Ok (tt, txn') /\
    GetState addr key txn' = Ok value /\
    (got <> None ->
       (forall k, k <> key -> GetState addr k txn' = GetState addr k txn) /\
       (forall k, GetCommittedState addr k txn' = GetCommittedState addr k txn)) /\
    (forall a k, a <> addr -> GetState a k txn' = GetState a k txn).
Proof.
  intros Hv Hg. pose proof (materialise_not_deleted _ _ _ Hg) as Hd.
  eexists. split; [exact (SetState_ok _ key value _ _ Hg)|].
  split; [now apply GetState_written|]. split.
  - destruct got as [o|]; [intros _|congruence]. simpl in Hd. simpl materialise. split.
    + intros k Hk. unfold GetState.
      rewrite getStateObject_with_object, write_slot_Deleted, Hd, Hg. simpl.
      rewrite write_slot_Account. unfold write_slot, Hash_Bytes.
      destruct (Hash_eqb value zeroHash); simpl;
        rewrite Radix.Get_Insert_ne by exact Hk;
        destruct (obj_Txn o); reflexivity.
    + intros k. rewrite (GetCommittedState_written _ _ _ _ _ _ Hd).
      now rewrite (GetCommittedState_total _ k _ _ Hg).
  - intros a k Hne. apply GetState_ext; [reflexivity|].
    now apply getStateObject_with_object_other.
Qed.

(** *** Nonces *)

(** X2. [SetNonce] then [GetNonce] gives the nonce back and leaves the
    balance as it was; [IncrNonce] adds one to the nonce read before, as a
    uint64: from 2^64-1 it wraps to 0. *)
Theorem Nonce_roundtrip (addr : Address) (txn : Txn) (got : option stateObject) :
  getStateObject addr txn = Ok got ->
  (forall nonce, exists txn',
     SetNonce addr nonce txn = Ok (tt, txn') /\
     GetNonce addr txn' = Ok nonce /\
     GetBalance addr txn' = GetBalance addr txn) /\
  (forall n, GetNonce addr txn = Ok n ->
     exists txn',
       IncrNonce addr txn = Ok (tt, txn') /\
       GetNonce addr txn' = Ok (u64 (n + 1)) /\
       (0 <= n < 2 ^ 64 - 1 -> GetNonce addr txn' = Ok (n + 1)) /\
       (n = 2 ^ 64 - 1 -> GetNonce addr txn' = Ok 0)).
Proof.
  intros Hg. pose proof (materialise_not_deleted _ _ _ Hg) as Hd. split.
  - intros nonce. eexists. split; [exact (upsertAccount_on_object _ _ _ _ Hg)|].
    note_stored addr txn Hd Hg'.
    rewrite (GetNonce_of _ _ _ Hg'), (GetBalance_of _ _ _ Hg'), (GetBalance_of _ _ _ Hg).
    split; [reflexivity|]. now destruct got.
  - intros n Hn. rewrite (GetNonce_of _ _ _ Hg) in Hn. injection Hn as Hn'.
    assert (Nonce (obj_Account (materialise got)) = n) as E
      by (subst n; now destruct got).
    eexists. split; [exact (upsertAccount_on_object _ _ _ _ Hg)|].
    note_stored addr txn Hd Hg'.
    rewrite (GetNonce_of _ _ _ Hg'). simpl. rewrite E.
    split; [reflexivity|]. split.
    + intros Hr. now rewrite u64_small by lia.
    + intros ->. reflexivity.
Qed.

(** *** Code *)

(** X3. [SetCode] then [GetCode] gives the code back and [GetCodeSize] its
    length.  [GetCodeHash] then gives the hash of the code, unless the account
    is empty (nonce 0, balance 0 and the hash that of the empty code), when it
    gives the zero hash. *)
Theorem SetCode_GetCode (addr : Address) (code : bytes) (txn : Txn)
    (got : option stateObject) :
  getStateObject addr txn = Ok got ->
  exists txn',
    SetCode addr code txn = Ok (tt, txn') /\
    GetCode addr txn' = Ok code /\
    GetCodeSize addr txn' = Ok (Z.of_nat (length code)) /\
    GetCodeHash addr txn' =
      Ok (if (Nonce (obj_Account (materialise got)) =? 0)
             && (Balance (obj_Account (materialise got)) =? 0)
             && bytes_eqb (Keccak256 code) EmptyCodeHash
          then zeroHash
          else BytesToHash (Keccak256 code)) /\
    GetNonce addr txn' = GetNonce addr txn /\
    GetBalance addr txn' = GetBalance addr txn.
Proof.
  intros Hg. pose proof (materialise_not_deleted _ _ _ Hg) as Hd.
  eexists. split; [exact (upsertAccount_on_object _ _ _ _ Hg)|].
  note_stored addr txn Hd Hg'.
  unfold GetCodeSize, GetCodeHash, GetCode.
  rewrite (Empty_of _ _ _ Hg'), (GetNonce_of _ _ _ Hg'), (GetBalance_of _ _ _ Hg'),
    (GetNonce_of _ _ _ Hg), (GetBalance_of _ _ _ Hg), Hg'.
  simpl. unfold Empty_obj. simpl.
  repeat split; try (now destruct got).
  destruct ((Nonce (obj_Account (materialise got)) =? 0)
            && (Balance (obj_Account (materialise got)) =? 0)
            && bytes_eqb (Keccak256 code) EmptyCodeHash); reflexivity.
Qed.

(** *** Balances *)

(** X4. [AddBalance] adds the amount to the visible balance and makes the
    account exist; when the balance was not negative, a [SubBalance] of the
    same amount then succeeds and the balance is the one before. *)
Theorem AddBalance_SubBalance (addr : Address) (v b : Z) (txn : Txn) :
  GetBalance addr txn = Ok b ->
  exists t1,
    AddBalance addr v txn = Ok (tt, t1) /\
    GetBalance addr t1 = Ok (b + v) /\
    Exist addr t1 = Ok true /\
    (0 <= b ->
       exists t2, SubBalance addr v t1 = Ok (None, t2) /\ GetBalance addr t2 = Ok b).
Proof.
  intros Hb. destruct (GetBalance_inv _ _ _ Hb) as [got [Hg Hbal]].
  pose proof (materialise_not_deleted _ _ _ Hg) as Hd.
  assert (Balance (obj_Account (materialise got)) = b) as E
    by (subst b; now destruct got).
  eexists. split; [exact (upsertAccount_on_object _ _ _ _ Hg)|].
  match goal with
  | |- context [with_object addr ?o txn] =>
      set (o1 := o);
      assert (getStateObject addr (with_object addr o1 txn) = Ok (Some o1)) as Hg1
        by (apply getStateObject_stored; exact Hd)
  end.
  rewrite (GetBalance_of _ _ _ Hg1), (Exist_of _ _ _ Hg1).
  unfold o1 at 1. simpl. rewrite E. repeat split.
  intros Hnn. unfold SubBalance.
  destruct (v =? 0) eqn:Ev.
  - apply Z.eqb_eq in Ev. subst v. eexists. split; [reflexivity|].
    rewrite (GetBalance_of _ _ _ Hg1). unfold o1. simpl. rewrite E. f_equal. lia.
  - rewrite (bind_ok _ _ _ _ _ (read_ok _ _ _ (GetBalance_of _ _ _ Hg1))).
    unfold o1 at 1. simpl. rewrite E.
    destruct (Z.ltb_spec (b + v) v) as [Hlt|_]; [lia|].
    rewrite (bind_ok _ _ _ _ _ (upsertAccount_on_object _ _ _ _ Hg1)).
    eexists. split; [reflexivity|].
    rewrite GetBalance_with_object by exact Hd.
    unfold o1. simpl. rewrite E. f_equal. lia.
Qed.

(** X5. A transfer: a [SubBalance] of a covered, non-zero amount from one
    account and an [AddBalance] of it to another leave the first with the
    amount less, the second with the amount more, and the sum as it was. *)
Theorem transfer_conserves (from to : Address) (v x y : Z) (txn : Txn) :
  from <> to ->
  GetBalance from txn = Ok x ->
  GetBalance to txn = Ok y ->
  v <> 0 -> v <= x ->
  exists t1 t2 x' y',
    SubBalance from v txn = Ok (None, t1) /\
    AddBalance to v t1 = Ok (tt, t2) /\
    GetBalance from t2 = Ok x' /\
    GetBalance to t2 = Ok y' /\
    x' = x - v /\ y' = y + v /\ x' + y' = x + y.
Proof.
  intros Hne Hx Hy Hv Hle.
  destruct (GetBalance_inv _ _ _ Hx) as [gx [Hgx Ex]].
  destruct (GetBalance_inv _ _ _ Hy) as [gy [Hgy Ey]].
  pose proof (materialise_not_deleted _ _ _ Hgx) as Hdx.
  pose proof (materialise_not_deleted _ _ _ Hgy) as Hdy.
  set (o1 := set_Account (set_Balance (Balance (obj_Account (materialise gx)) - v)
                            (obj_Account (materialise gx))) (materialise gx)).
  set (t1 := with_object from o1 txn).
  assert (SubBalance from v txn = Ok (None, t1)) as Hsub.
  { unfold SubBalance. apply Z.eqb_neq in Hv. rewrite Hv.
    rewrite (bind_ok _ _ _ _ _ (read_ok _ _ _ Hx)).
    destruct (Z.ltb_spec x v) as [Hlt|_]; [lia|].
    now rewrite (bind_ok _ _ _ _ _ (upsertAccount_on_object _ _ _ _ Hgx)). }
  assert (getStateObject to t1 = Ok gy) as Hgy1
    by (unfold t1; rewrite getStateObject_with_object_other; [exact Hgy | congruence]).
  exists t1. eexists. do 2 eexists. split; [exact Hsub|].
  split; [exact (upsertAccount_on_object _ _ _ _ Hgy1)|].
  split; [|split].
  - rewrite (GetBalance_of from _ (Some o1)); [reflexivity|].
    rewrite getStateObject_with_object_other by exact Hne.
    now apply getStateObject_stored.
  - rewrite GetBalance_with_object by exact Hdy. reflexivity.
  - simpl.
    assert (Balance (obj_Account (materialise gx)) = x) as E1 by (subst x; now destruct gx).
    assert (Balance (obj_Account (materialise gy)) = y) as E2 by (subst y; now destruct gy).
    rewrite E1, E2. lia.
Qed.

(** ** The logs and the heap

    Only [EmitLog] allocates or writes an array, and only [EmitLog],
    [RevertToSnapshot] and [Logs] change the slice that the journal holds:
    [Logs] removes it. *)

(** A step that leaves the heap and the list of snapshots as they are and
    puts no slice into the journal. *)
Definition logs_frame (t t' : Txn) : Prop :=
  Txn_heap t' = Txn_heap t /\ Txn_snapshots t' = Txn_snapshots t /\
  forall s, Radix.Get logIndex (Txn_txn t') = Some (VLogs s) ->
            Radix.Get logIndex (Txn_txn t) = Some (VLogs s).

(** The operations other than [Snapshot], [RevertToSnapshot] and
    [EmitLog]. *)
Definition quiet (o : op) : Prop :=
  match o with
  | OpSnapshot | OpRevertToSnapshot _ | OpEmitLog _ _ _ => False
  | _ => True
  end.

Lemma logs_frame_refl (t : Txn) : logs_frame t t.
Proof. now repeat split. Qed.

Lemma logs_frame_trans (a b c : Txn) : logs_frame a b -> logs_frame b c -> logs_frame a c.
Proof.
  intros [H1 [H2 H3]] [H4 [H5 H6]]. repeat split; try congruence.
  intros s H. apply H3, H6, H.
Qed.

Lemma logs_frame_Insert (k : bytes) (v : value) (t : Txn) :
  (forall s, v <> VLogs s) -> logs_frame t (set_txn (Radix.Insert k v (Txn_txn t)) t).
Proof.
  intros Hv. repeat split. simpl. intros s. rewrite Radix.Get_Insert.
  destruct (bytes_eqb logIndex k); [|auto].
  intros H. exfalso. inversion H as [E]. exact (Hv s E).
Qed.

Lemma logs_frame_Delete (k : bytes) (t : Txn) :
  logs_frame t (set_txn (Radix.Delete k (Txn_txn t)) t).
Proof.
  repeat split. simpl. intros s. rewrite Radix.Get_Delete.
  destruct (bytes_eqb logIndex k); [discriminate | auto].
Qed.

Ltac logs_raw :=
  let H := fresh "H" in
  intros ? ? ? H;
  repeat match type of H with
         | context [match ?x with _ => _ end] => destruct x eqn:?
         end;
  try discriminate; inversion H; subst;
  first [ apply logs_frame_refl
        | apply logs_frame_Delete
        | apply logs_frame_Insert; intros ?; discriminate ].

Lemma logs_upsertAccount {R : Type} (addr : Address) (create : bool)
    (f : option stateObject -> result (R * option stateObject)) :
  stable logs_frame (upsertAccount addr create f).
Proof.
  intros t a t' H. unfold upsertAccount in H.
  destruct (getStateObject addr t) as [got|]; [|discriminate].
  match type of H with
  | context [f ?x] => destruct (f x) as [[r [o|]]|]
  end; try discriminate; inversion H; subst;
    first [apply logs_frame_refl | apply logs_frame_Insert; intros ?; discriminate].
Qed.

Lemma logs_AddRefund (gas : Z) : stable logs_frame (AddRefund gas).
Proof. unfold AddRefund. logs_raw. Qed.

Lemma logs_SubRefund (gas : Z) : stable logs_frame (SubRefund gas).
Proof. unfold SubRefund. logs_raw. Qed.

Lemma logs_Logs : stable logs_frame Logs.
Proof. unfold Logs. logs_raw. Qed.

Lemma logs_CreateAccount (addr : Address) : stable logs_frame (CreateAccount addr).
Proof. unfold CreateAccount. logs_raw. Qed.

Lemma logs_mark_deleted (k : bytes) : stable logs_frame (mark_deleted k).
Proof. unfold mark_deleted. logs_raw. Qed.

Ltac solve_logs :=
  repeat first
    [ apply (stable_ret _ logs_frame_refl)
    | apply (stable_read _ logs_frame_refl)
    | apply logs_upsertAccount
    | apply logs_AddRefund
    | apply logs_SubRefund
    | apply (stable_discard _ logs_frame_refl logs_frame_trans)
    | apply (stable_bind _ logs_frame_trans); [|intros ?]
    | match goal with
      | |- stable _ (if ?b then _ else _) => destruct b
      end ].

Lemma logs_SetStorage (addr : Address) (key value : Hash) :
  stable logs_frame (SetStorage addr key value).
Proof. unfold SetStorage, SetState. solve_logs. Qed.

Lemma logs_SubBalance (addr : Address) (amount : Z) :
  stable logs_frame (SubBalance addr amount).
Proof. unfold SubBalance. solve_logs. Qed.

Lemma logs_CleanDeleteObjects (deleteEmptyObjects : bool) :
  stable logs_frame (CleanDeleteObjects deleteEmptyObjects).
Proof.
  unfold CleanDeleteObjects.
  apply (stable_bind _ logs_frame_trans); [apply (stable_read _ logs_frame_refl)|].
  intros remove.
  apply (stable_bind _ logs_frame_trans).
  - apply (stable_for_each _ logs_frame_refl logs_frame_trans).
    apply logs_mark_deleted.
  - intros _. logs_raw.
Qed.

Lemma logs_run_op (o : op) : quiet o -> stable logs_frame (run_op o).
Proof.
  destruct o; simpl; intros Hq; try contradiction;
    first [ apply (stable_discard _ logs_frame_refl logs_frame_trans) | idtac ];
    first [ apply logs_upsertAccount | apply logs_SubBalance
          | apply logs_SetStorage | apply logs_AddRefund | apply logs_SubRefund
          | apply logs_Logs | apply logs_CreateAccount
          | apply logs_CleanDeleteObjects ].
Qed.

(** *** One account at a time *)

Lemma account_reads_ext (b : Address) (t1 t2 : Txn) :
  Txn_snapshot t1 = Txn_snapshot t2 ->
  getStateObject b t1 = getStateObject b t2 ->
  GetAccount b t1 = GetAccount b t2 /\
  GetBalance b t1 = GetBalance b t2 /\
  GetNonce b t1 = GetNonce b t2 /\
  GetCode b t1 = GetCode b t2 /\
  GetCodeHash b t1 = GetCodeHash b t2 /\
  (forall k, GetState b k t1 = GetState b k t2) /\
  (forall k, GetCommittedState b k t1 = GetCommittedState b k t2) /\
  Exist b t1 = Exist b t2 /\
  Empty b t1 = Empty b t2 /\
  HasSuicided b t1 = HasSuicided b t2.
Proof.
  intros Hs Hg.
  unfold GetAccount, GetBalance, GetNonce, GetCode, GetCodeHash, GetState,
    GetCommittedState, Exist, Empty, HasSuicided.
  rewrite Hs, Hg. repeat split.
Qed.

Lemma pending_Logs_ext (t1 t2 : Txn) :
  Radix.Get logIndex (Txn_txn t1) = Radix.Get logIndex (Txn_txn t2) ->
  Txn_heap t1 = Txn_heap t2 ->
  pending_Logs t1 = pending_Logs t2.
Proof.
  intros H Hh. unfold pending_Logs, Logs. rewrite H.
  destruct (Radix.Get logIndex (Txn_txn t2)) as [[| |]|]; simpl; now rewrite ?Hh.
Qed.

(** X6. Whatever its callback does, [upsertAccount] on one address changes
    nothing that is read of another address, nor the refund counter, the
    pending logs or the list of snapshots: the methods built on it
    ([AddBalance], [SetBalance], [SetNonce], [IncrNonce], [SetCode],
    [SetState], [Suicide], [TouchAccount], [AddSealingReward]) act on their
    own account only. *)
Theorem upsertAccount_frame {R : Type} (addr : Address) (create : bool)
    (f : option stateObject -> result (R * option stateObject))
    (txn txn' : Txn) (r : R) :
  is_address addr ->
  upsertAccount addr create f txn = Ok (r, txn') ->
  (forall b, b <> addr ->
     GetAccount b txn' = GetAccount b txn /\
     GetBalance b txn' = GetBalance b txn /\
     GetNonce b txn' = GetNonce b txn /\
     GetCode b txn' = GetCode b txn /\
     GetCodeHash b txn' = GetCodeHash b txn /\
     (forall k, GetState b k txn' = GetState b k txn) /\
     (forall k, GetCommittedState b k txn' = GetCommittedState b k txn) /\
     Exist b txn' = Exist b txn /\
     Empty b txn' = Empty b txn /\
     HasSuicided b txn' = HasSuicided b txn) /\
  GetRefund txn' = GetRefund txn /\
  pending_Logs txn' = pending_Logs txn /\
  Txn_snapshots txn' = Txn_snapshots txn.
Proof.
  intros Ha H. unfold upsertAccount in H.
  destruct (getStateObject addr txn) as [got|]; [|discriminate].
  match type of H with
  | context [f ?x] => destruct (f x) as [[r' [o|]]|]
  end; try discriminate; inversion H; subst.
  - fold (with_object addr o txn). split; [|split; [|split]].
    + intros b Hb. apply account_reads_ext; [reflexivity|].
      now apply getStateObject_with_object_other.
    + now apply GetRefund_with_object.
    + apply pending_Logs_ext; [|reflexivity]. simpl. apply Radix.Get_Insert_ne.
      intros E. symmetry in E. revert E. now apply address_not_logIndex.
    + reflexivity.
  - repeat split.
Qed.

(** *** Logs *)

(** What [EmitLog] does when the pending logs are [l]. *)
Lemma EmitLog_pending (addr : Address) (topics : list Hash) (data : bytes)
    (l : list (option Log)) (txn : Txn) :
  pending_Logs txn = Ok l ->
  exists s0 s h,
    elems (Txn_heap txn) s0 = l /\
    append s0 (Some (mkLog addr topics data)) (Txn_heap txn) = (s, h) /\
    EmitLog addr topics data txn
    = Ok (tt, set_txn (Radix.Insert logIndex (VLogs s) (Txn_txn txn)) (set_heap h txn)).
Proof.
  intros Hl. unfold pending_Logs, Logs in Hl. unfold EmitLog.
  change ([] ++ topics) with topics. change ([] ++ data) with data.
  destruct (Radix.Get logIndex (Txn_txn txn)) as [[o|s0|r]|]; try discriminate;
    inversion Hl; subst; clear Hl.
  - destruct (append s0 (Some (mkLog addr topics data)) (Txn_heap txn)) as [s' h'] eqn:E.
    exists s0, s', h'. split; [reflexivity|]. split; [exact E|]. reflexivity.
  - destruct (append (mkSlice None 0) (Some (mkLog addr topics data)) (Txn_heap txn))
      as [s' h'] eqn:E.
    exists (mkSlice None 0), s', h'. split; [reflexivity|]. split; [exact E|]. reflexivity.
Qed.

(** X7. [EmitLog] appends its log after the logs emitted before, whether
    [append] writes into the array of the pending logs or into a new one;
    [Logs] returns a slice of them all, in order, and leaves none: a second
    [Logs] returns the nil slice.  Neither touches an account or the refund
    counter. *)
Theorem EmitLog_Logs (addr : Address) (topics : list Hash) (data : bytes)
    (l : list (option Log)) (txn : Txn) :
  pending_Logs txn = Ok l ->
  exists t1 s t2,
    EmitLog addr topics data txn = Ok (tt, t1) /\
    pending_Logs t1 = Ok (l ++ [Some (mkLog addr topics data)]) /\
    Logs t1 = Ok (s, t2) /\
    elems (Txn_heap t2) s = l ++ [Some (mkLog addr topics data)] /\
    Logs t2 = Ok (mkSlice None 0, t2) /\
    pending_Logs t2 = Ok [] /\
    (forall a, is_address a -> getStateObject a t2 = getStateObject a txn) /\
    GetRefund t2 = GetRefund txn.
Proof.
  intros Hl.
  destruct (EmitLog_pending addr topics data l txn Hl) as (s0 & s & h & Hl0 & Ha & He).
  set (t1 := set_txn (Radix.Insert logIndex (VLogs s) (Txn_txn txn)) (set_heap h txn)) in *.
  set (t2 := set_txn (Radix.Delete logIndex (Txn_txn t1)) t1).
  assert (Radix.Get logIndex (Txn_txn t1) = Some (VLogs s))
    as Hg1 by (unfold t1; simpl; apply Radix.Get_Insert_eq).
  assert (Radix.Get logIndex (Txn_txn t2) = None)
    as Hg2 by (unfold t2; simpl; rewrite Radix.Get_Delete; now rewrite bytes_eqb_refl).
  assert (elems h s = l ++ [Some (mkLog addr topics data)]) as Hel
    by (rewrite (append_elems _ _ _ _ _ Ha); now rewrite Hl0).
  exists t1, s, t2. split; [exact He|].
  split; [unfold pending_Logs, Logs; rewrite Hg1; simpl; now rewrite Hel|].
  split; [unfold Logs; now rewrite Hg1|].
  split; [exact Hel|].
  split; [unfold Logs; now rewrite Hg2|].
  split; [unfold pending_Logs, Logs; now rewrite Hg2|]. split.
  - intros a Hadr. apply getStateObject_ext; [reflexivity|].
    unfold t2, t1. simpl. rewrite Radix.Get_Delete.
    pose proof (address_not_logIndex a Hadr) as Hne.
    apply bytes_eqb_neq in Hne. rewrite Hne.
    apply Radix.Get_Insert_ne. now apply address_not_logIndex.
  - unfold GetRefund, t2, t1. simpl. rewrite Radix.Get_Delete.
    assert (refundIndex <> logIndex) as Hne
      by (intros E; symmetry in E; revert E; apply logIndex_not_refundIndex).
    rewrite (proj2 (bytes_eqb_neq _ _) Hne).
    now rewrite Radix.Get_Insert_ne by exact Hne.
Qed.

(** *** The refund counter *)

(** X8. [AddRefund] then [SubRefund] of the same gas give the counter back
    (it is a uint64).  [SubRefund] does not guard against underflow: below
    zero the counter wraps around 2^64. *)
Theorem Refund_roundtrip (gas r : Z) (txn : Txn) :
  GetRefund txn = Ok r ->
  (exists t1 t2,
     AddRefund gas txn = Ok (tt, t1) /\
     GetRefund t1 = Ok (u64 (r + gas)) /\
     SubRefund gas t1 = Ok (tt, t2) /\
     GetRefund t2 = Ok (u64 r) /\
     (0 <= r < 2 ^ 64 -> GetRefund t2 = Ok r)) /\
  (exists t3,
     SubRefund gas txn = Ok (tt, t3) /\
     GetRefund t3 = Ok (u64 (r - gas)) /\
     (0 <= r -> r < gas -> gas <= 2 ^ 64 -> GetRefund t3 = Ok (r - gas + 2 ^ 64))).
Proof.
  intros Hr. split.
  - exists (with_refund (u64 (r + gas)) txn).
    exists (with_refund (u64 (u64 (r + gas) - gas)) (with_refund (u64 (r + gas)) txn)).
    split; [exact (AddRefund_ok _ _ _ Hr)|].
    split; [apply GetRefund_with_refund|].
    split; [exact (SubRefund_ok _ _ _ (GetRefund_with_refund _ _))|].
    assert (u64 (u64 (r + gas) - gas) = u64 r) as E.
    { unfold u64. rewrite Zminus_mod_idemp_l. f_equal. lia. }
    rewrite GetRefund_with_refund, E. split; [reflexivity|].
    intros Hrange. now rewrite u64_small.
  - exists (with_refund (u64 (r - gas)) txn).
    split; [exact (SubRefund_ok _ _ _ Hr)|].
    rewrite GetRefund_with_refund. split; [reflexivity|].
    intros H0 Hlt Hle. f_equal. unfold u64.
    rewrite <- (Z_mod_plus_full (r - gas) 1 (2 ^ 64)).
    apply Z.mod_small. lia.
Qed.

(** *** Suicide, touch and the end-of-transaction sweep *)

(** X9. [Suicide] on an absent address returns false and changes nothing.
    On a visible account not yet suicided it returns true; the account is
    then flagged, its balance reads 0, and it still exists with its nonce,
    code and storage (the deletion is left to [CleanDeleteObjects]). *)
Theorem Suicide_first (addr : Address) (txn : Txn) :
  (getStateObject addr txn = Ok None -> Suicide addr txn = Ok (false, txn)) /\
  (forall o, getStateObject addr txn = Ok (Some o) -> obj_Suicide o = false ->
     exists txn',
       Suicide addr txn = Ok (true, txn') /\
       HasSuicided addr txn' = Ok true /\
       GetBalance addr txn' = Ok 0 /\
       Exist addr txn' = Ok true /\
       GetNonce addr txn' = GetNonce addr txn /\
       GetCode addr txn' = GetCode addr txn /\
       (forall k, GetState addr k txn' = GetState addr k txn)).
Proof.
  split.
  - intros Hg. unfold Suicide, upsertAccount. now rewrite Hg.
  - intros o Hg Hs. pose proof (getStateObject_not_deleted _ _ _ Hg) as Hd.
    set (o1 := set_Account (set_Balance 0 (obj_Account o)) (set_Suicide true o)).
    assert (Suicide addr txn = Ok (true, with_object addr o1 txn)) as Hrun.
    { unfold Suicide, upsertAccount. rewrite Hg, Hs. reflexivity. }
    assert (getStateObject addr (with_object addr o1 txn) = Ok (Some o1)) as Hg1
      by (apply getStateObject_stored; exact Hd).
    exists (with_object addr o1 txn). split; [exact Hrun|].
    unfold HasSuicided, GetBalance, Exist, GetNonce, GetCode, GetState.
    rewrite Hg1, Hg. simpl. repeat split.
Qed.

(** What [CleanDeleteObjects] leaves under each key of a journal with
    distinct keys. *)
Lemma CleanDeleteObjects_lookup (deleteEmptyObjects : bool) (txn : Txn) :
  Radix.ok (Txn_txn txn) ->
  exists txn',
    CleanDeleteObjects deleteEmptyObjects txn = Ok (tt, txn') /\
    Txn_snapshot txn' = Txn_snapshot txn /\
    forall k,
      Radix.Get k (Txn_txn txn') =
        if bytes_eqb k refundIndex then None
        else match Radix.Get k (Txn_txn txn) with
             | Some (VObject o) =>
                 Some (VObject (if to_remove deleteEmptyObjects o
                                then set_Deleted true o else o))
             | other => other
             end.
Proof.
  intros Hok.
  destruct (mark_deleted_all (collect_remove deleteEmptyObjects (Txn_txn txn)) txn)
    as [t' [Hrun [H1 [H2 [H3 H4]]]]].
  { intros k Hk. apply collect_remove_objects in Hk. destruct Hk as [o Ho].
    exists o. now apply Radix.In_Get. }
  unfold CleanDeleteObjects. rewrite bind_read_pure.
  rewrite (bind_ok _ _ _ _ _ Hrun).
  eexists. split; [reflexivity|]. split; [exact H1|].
  intros k. simpl. rewrite Radix.Get_Delete.
  destruct (bytes_eqb k refundIndex); [reflexivity|].
  rewrite H4, (collect_remove_mem _ _ _ Hok).
  destruct (Radix.Get k (Txn_txn txn)) as [[o| |]|]; reflexivity.
Qed.

Lemma getStateObject_absent_of_deleted (addr : Address) (o : stateObject) (t : Txn) :
  Radix.Get (Address_Bytes addr) (Txn_txn t) = Some (VObject o) ->
  obj_Deleted o = true ->
  getStateObject addr t = Ok None.
Proof. intros Hg Hd. unfold getStateObject. now rewrite Hg, Hd. Qed.

(** X10. A visible account that is suicided is gone after
    [CleanDeleteObjects], whatever its flag: it does not exist, its balance
    and nonce read 0 and its slots the zero hash, and [Commit] emits it as a
    deleted object without storage. *)
Theorem Suicide_CleanDeleteObjects (addr : Address) (o : stateObject)
    (deleteEmptyObjects : bool) (txn : Txn) :
  is_address addr ->
  Radix.ok (Txn_txn txn) ->
  getStateObject addr txn = Ok (Some o) ->
  exists b t1 t2,
    Suicide addr txn = Ok (b, t1) /\
    CleanDeleteObjects deleteEmptyObjects t1 = Ok (tt, t2) /\
    Exist addr t2 = Ok false /\
    GetBalance addr t2 = Ok 0 /\
    GetNonce addr t2 = Ok 0 /\
    (forall k, GetState addr k t2 = Ok zeroHash) /\
    exists obj,
      In obj (Commit t2) /\ Object_Address obj = addr /\
      Object_Deleted obj = true /\ Object_Storage obj = [].
Proof.
  intros Ha Hok Hg.
  set (o1 := set_Account (set_Balance 0 (obj_Account o)) (set_Suicide true o)).
  set (t1 := with_object addr o1 txn).
  assert (Suicide addr txn = Ok (negb (obj_Suicide o), t1)) as Hrun.
  { unfold Suicide, upsertAccount. rewrite Hg.
    destruct o as [acc code su de di tx]. destruct su; reflexivity. }
  assert (Radix.ok (Txn_txn t1)) as Hok1 by (unfold t1; simpl; now apply Radix.ok_Insert).
  destruct (CleanDeleteObjects_lookup deleteEmptyObjects t1 Hok1) as [t2 [Hclean [Hsn Hget]]].
  assert (Radix.Get (Address_Bytes addr) (Txn_txn t2) = Some (VObject (set_Deleted true o1)))
    as Hg2.
  { rewrite Hget. rewrite (proj2 (bytes_eqb_neq _ _) (address_not_refundIndex addr Ha)).
    unfold t1. simpl. rewrite Radix.Get_Insert_eq. reflexivity. }
  pose proof (getStateObject_absent_of_deleted addr _ t2 Hg2 eq_refl) as Hnone.
  exists (negb (obj_Suicide o)), t1, t2.
  split; [exact Hrun|]. split; [exact Hclean|].
  unfold Exist, GetBalance, GetNonce, GetState. rewrite Hnone. simpl.
  repeat split.
  exists (commit_object (Address_Bytes addr) (set_Deleted true o1)).
  split; [|split; [exact (BytesToAddress_id addr Ha) | split; reflexivity]].
  rewrite Commit_flat_map. apply in_flat_map.
  exists (Address_Bytes addr, VObject (set_Deleted true o1)).
  split; [now apply Radix.Get_In | now left].
Qed.

(** X11. [TouchAccount] on an absent address makes an empty account exist;
    [CleanDeleteObjects] with the flag set then deletes it, and without the
    flag keeps it.  On a visible account [TouchAccount] changes nothing that
    is read of it. *)
Theorem TouchAccount_swept (addr : Address) (txn : Txn) :
  is_address addr ->
  Radix.ok (Txn_txn txn) ->
  (getStateObject addr txn = Ok None ->
     exists t1 t2 t3,
       TouchAccount addr txn = Ok (tt, t1) /\
       Exist addr t1 = Ok true /\
       Empty addr t1 = Ok true /\
       CleanDeleteObjects true t1 = Ok (tt, t2) /\
       Exist addr t2 = Ok false /\
       CleanDeleteObjects false t1 = Ok (tt, t3) /\
       Exist addr t3 = Ok true) /\
  (forall o, getStateObject addr txn = Ok (Some o) ->
     exists t1,
       TouchAccount addr txn = Ok (tt, t1) /\
       getStateObject addr t1 = Ok (Some o)).
Proof.
  intros Ha Hok. split.
  - intros Hg.
    set (t1 := with_object addr newStateObject txn).
    assert (TouchAccount addr txn = Ok (tt, t1)) as Hrun
      by (unfold TouchAccount, upsertAccount; now rewrite Hg).
    assert (getStateObject addr t1 = Ok (Some newStateObject)) as Hg1
      by (apply getStateObject_stored; reflexivity).
    assert (Empty_obj newStateObject = true) as Hempty.
    { unfold Empty_obj, newStateObject. simpl. now rewrite bytes_eqb_refl. }
    assert (Radix.ok (Txn_txn t1)) as Hok1 by (unfold t1; simpl; now apply Radix.ok_Insert).
    assert (Radix.Get (Address_Bytes addr) (Txn_txn t1) = Some (VObject newStateObject))
      as Hget1 by (unfold t1; simpl; apply Radix.Get_Insert_eq).
    pose proof (proj2 (bytes_eqb_neq _ _) (address_not_refundIndex addr Ha)) as Hne.
    destruct (CleanDeleteObjects_lookup true t1 Hok1) as [t2 [Hc2 [Hs2 Hget2]]].
    destruct (CleanDeleteObjects_lookup false t1 Hok1) as [t3 [Hc3 [Hs3 Hget3]]].
    specialize (Hget2 (Address_Bytes addr)). specialize (Hget3 (Address_Bytes addr)).
    rewrite Hne, Hget1 in Hget2, Hget3.
    unfold to_remove in Hget2, Hget3. rewrite Hempty in Hget2, Hget3.
    simpl in Hget2, Hget3.
    exists t1, t2, t3. split; [exact Hrun|].
    rewrite (Exist_of _ _ _ Hg1), (Empty_of _ _ _ Hg1), Hempty.
    split; [reflexivity|]. split; [reflexivity|].
    split; [exact Hc2|]. split.
    + rewrite (Exist_of _ _ None); [reflexivity|].
      exact (getStateObject_absent_of_deleted addr _ t2 Hget2 eq_refl).
    + split; [exact Hc3|].
      rewrite (Exist_of _ _ (Some newStateObject)); [reflexivity|].
      unfold getStateObject. rewrite Hget3. simpl. now rewrite Copy_id.
  - intros o Hg. pose proof (getStateObject_not_deleted _ _ _ Hg) as Hd.
    exists (with_object addr o txn). split.
    + unfold TouchAccount, upsertAccount. now rewrite Hg.
    + now apply getStateObject_stored.
Qed.

(** X12. [AddSealingReward] on a suicided account replaces it by a new
    object holding the magnitude of the reward: the flag, the nonce, the code
    and the slot overlay are gone, the storage root is [EmptyStateHash].  On
    any other visible account it adds the reward to the balance and keeps the
    rest. *)
Theorem AddSealingReward_spec (addr : Address) (reward : Z) (o : stateObject) (txn : Txn) :
  getStateObject addr txn = Ok (Some o) ->
  exists txn',
    AddSealingReward addr reward txn = Ok (tt, txn') /\
    (obj_Suicide o = true ->
       getStateObject addr txn' =
         Ok (Some (mkStateObject (mkAccount 0 (Z.abs reward) EmptyStateHash EmptyCodeHash)
                     [] false false false None)) /\
       GetBalance addr txn' = Ok (Z.abs reward) /\
       HasSuicided addr txn' = Ok false /\
       GetNonce addr txn' = Ok 0 /\
       (forall k, GetState addr k txn' =
                  Ok (Snapshot_GetStorage (Txn_snapshot txn) addr EmptyStateHash k))) /\
    (obj_Suicide o = false ->
       GetBalance addr txn' = Ok (Balance (obj_Account o) + reward) /\
       HasSuicided addr txn' = Ok false /\
       GetNonce addr txn' = GetNonce addr txn /\
       GetCode addr txn' = GetCode addr txn /\
       (forall k, GetState addr k txn' = GetState addr k txn)).
Proof.
  intros Hg. pose proof (getStateObject_not_deleted _ _ _ Hg) as Hd.
  eexists. split; [exact (upsertAccount_on_object _ _ _ _ Hg)|].
  simpl materialise. split; intros Hs; rewrite Hs; cbv beta iota zeta.
  - match goal with
    | |- context [with_object addr ?x txn] =>
        assert (getStateObject addr (with_object addr x txn) = Ok (Some x)) as Hg1
          by (apply getStateObject_stored; reflexivity)
    end.
    unfold GetBalance, HasSuicided, GetNonce, GetState. rewrite Hg1. simpl.
    repeat split.
  - note_stored addr txn Hd Hg1.
    unfold GetBalance, HasSuicided, GetNonce, GetCode, GetState. rewrite Hg1, Hg. simpl.
    rewrite Hs. repeat split.
Qed.

(** *** Nested snapshots *)

(** A slice of a Go program lies within an array of the heap. *)
Definition valid (h : heap) (s : slice) : Prop :=
  match slice_array s with
  | Some a => (a < length h)%nat /\ (slice_len s <= length (nth a h []))%nat
  | None => slice_len s = 0%nat
  end.

Definition valid_journal (h : heap) (j : Radix.tree value) : Prop :=
  forall s, Radix.Get logIndex j = Some (VLogs s) -> valid h s.

(** The slices of the journal and of the snapshots are valid. *)
Definition wf_heap (t : Txn) : Prop :=
  valid_journal (Txn_heap t) (Txn_txn t) /\
  Forall (valid_journal (Txn_heap t)) (Txn_snapshots t).

Definition heap_step (t t' : Txn) : Prop := wf_heap t -> wf_heap t'.

(** An operation that reverts to no snapshot older than [id]. *)
Definition reverts_from (id : Z) (o : op) : Prop :=
  match o with
  | OpRevertToSnapshot id' => id <= id'
  | _ => True
  end.

(** A version of the journal whose slice, when it lies on the array [a],
    has [n] elements at least: [append] to it writes no cell below [n]. *)
Definition above (a n : nat) (j : Radix.tree value) : Prop :=
  forall s, Radix.Get logIndex j = Some (VLogs s) ->
            slice_array s = Some a -> (n <= slice_len s)%nat.

(** The first [n] cells of the array [a] are as in the heap [h0], and no
    version that the transaction can come to write from (its journal, the
    snapshots from [k] on) reaches below them. *)
Definition guarded (a n k : nat) (h0 : heap) (t : Txn) : Prop :=
  above a n (Txn_txn t) /\
  (forall i j, (k <= i)%nat -> nth_error (Txn_snapshots t) i = Some j -> above a n j) /\
  (a < length (Txn_heap t))%nat /\
  (forall i, (i < n)%nat ->
     nth i (nth a (Txn_heap t) []) None = nth i (nth a h0 []) None).

Lemma Revert_published (t t0 t' : Txn) (id : Z) :
  Snapshot_ t = Ok (id, t0) ->
  journal_frame t0 t' ->
  RevertToSnapshot id t' = Ok (tt, set_txn (Txn_txn t) t').
Proof.
  intros Hs [_ [_ [l H3]]]. inversion Hs; subst id t0. clear Hs. simpl in H3.
  assert (index (Txn_snapshots t') (Z.of_nat (length (Txn_snapshots t))) = Ok (Txn_txn t))
    as Hi.
  { unfold index.
    destruct (Z.ltb_spec (Z.of_nat (length (Txn_snapshots t))) 0) as [Hlt|_]; [lia|].
    rewrite H3, Nat2Z.id, <- app_assoc, nth_error_app2, Nat.sub_diag by lia.
    reflexivity. }
  unfold RevertToSnapshot. rewrite Hi.
  destruct (Z.gtb_spec (Z.of_nat (length (Txn_snapshots t)))
              (Z.of_nat (length (Txn_snapshots t')))) as [Hgt|_]; [|reflexivity].
  rewrite H3, !length_app in Hgt. lia.
Qed.

Lemma journal_frame_length (t t' : Txn) :
  journal_frame t t' -> (length (Txn_snapshots t) <= length (Txn_snapshots t'))%nat.
Proof. intros [_ [_ [l H]]]. rewrite H, length_app. lia. Qed.

(** What the reading methods show depends on the journal, on the committed
    state and, for the logs, on the heap. *)
Lemma observe_ext (t1 t2 : Txn) :
  Txn_txn t1 = Txn_txn t2 -> Txn_snapshot t1 = Txn_snapshot t2 ->
  pending_Logs t1 = pending_Logs t2 ->
  observe t1 = observe t2.
Proof.
  destruct t1, t2. simpl. intros -> -> H. unfold observe. rewrite H. reflexivity.
Qed.

Lemma pending_Logs_cells (t1 t2 : Txn) :
  Txn_txn t1 = Txn_txn t2 ->
  (forall s a i, Radix.Get logIndex (Txn_txn t2) = Some (VLogs s) ->
     slice_array s = Some a -> (i < slice_len s)%nat ->
     nth i (nth a (Txn_heap t1) []) None = nth i (nth a (Txn_heap t2) []) None) ->
  pending_Logs t1 = pending_Logs t2.
Proof.
  intros Hj Hc. unfold pending_Logs, Logs. rewrite Hj.
  destruct (Radix.Get logIndex (Txn_txn t2)) as [[o|s|r]|] eqn:E; simpl; try reflexivity.
  f_equal. apply elems_ext; [reflexivity|]. intros i Hi. unfold backing.
  destruct (slice_array s) as [a|] eqn:Ea; [|reflexivity].
  exact (Hc s a i eq_refl Ea Hi).
Qed.

(** The three operations that are not quiet. *)

Lemma Snapshot_inv (t t' : Txn) (a : unit) :
  discard Snapshot_ t = Ok (a, t') ->
  t' = set_snapshots (Txn_snapshots t ++ [Txn_txn t]) t.
Proof. intros H. now inversion H. Qed.

Lemma RevertToSnapshot_inv (id : Z) (t t' : Txn) (a : unit) :
  RevertToSnapshot id t = Ok (a, t') ->
  0 <= id /\
  exists tree, nth_error (Txn_snapshots t) (Z.to_nat id) = Some tree /\
               t' = set_txn tree t.
Proof.
  unfold RevertToSnapshot, index.
  destruct (id >? Z.of_nat (length (Txn_snapshots t))); [discriminate|].
  destruct (Z.ltb_spec id 0) as [Hlt|Hge]; [discriminate|].
  destruct (nth_error (Txn_snapshots t) (Z.to_nat id)) as [tree|]; [|discriminate].
  intros H. inversion H. split; [exact Hge|]. now exists tree.
Qed.

Lemma EmitLog_inv (addr : Address) (topics : list Hash) (data : bytes)
    (t t' : Txn) (a : unit) :
  EmitLog addr topics data t = Ok (a, t') ->
  exists s0 s h,
    (Radix.Get logIndex (Txn_txn t) = Some (VLogs s0) \/ slice_array s0 = None) /\
    append s0 (Some (mkLog addr topics data)) (Txn_heap t) = (s, h) /\
    t' = set_txn (Radix.Insert logIndex (VLogs s) (Txn_txn t)) (set_heap h t).
Proof.
  unfold EmitLog. change ([] ++ topics) with topics. change ([] ++ data) with data.
  destruct (Radix.Get logIndex (Txn_txn t)) as [[o|s0|r]|]; try discriminate.
  - destruct (append s0 (Some (mkLog addr topics data)) (Txn_heap t)) as [s h] eqn:E.
    intros H. inversion H. exists s0, s, h. auto.
  - destruct (append (mkSlice None 0) (Some (mkLog addr topics data)) (Txn_heap t))
      as [s h] eqn:E.
    intros H. inversion H. exists (mkSlice None 0), s, h. auto.
Qed.

Lemma nth_error_snoc {A : Type} (l : list A) (x y : A) (i : nat) :
  nth_error (l ++ [x]) i = Some y -> nth_error l i = Some y \/ y = x.
Proof.
  intros H. destruct (Nat.lt_ge_cases i (length l)) as [Hlt|Hge].
  - left. now rewrite nth_error_app1 in H.
  - right. rewrite nth_error_app2 in H by exact Hge.
    destruct (i - length l)%nat as [|m]; simpl in H; [now inversion H|].
    destruct m; discriminate.
Qed.

(** **** The slices stay valid *)

Lemma append_valid (s s' : slice) (x : option Log) (h h' : heap) :
  append s x h = (s', h') -> valid h' s'.
Proof.
  unfold append.
  destruct (Nat.ltb_spec (slice_len s) (cap h s)) as [Hlt|Hge];
    intros H; inversion H; subst; clear H; unfold valid; simpl.
  - destruct (room_allocated h s _ Hlt) as [a [Ea Ha]].
    unfold store. rewrite Ea. rewrite length_set_nth. split; [exact Ha|].
    rewrite nth_set_nth_eq by exact Ha. rewrite length_set_nth.
    unfold cap, backing in Hlt. rewrite Ea in Hlt. lia.
  - split; [rewrite length_app; simpl; lia|].
    rewrite nth_middle, length_app, length_elems. simpl. lia.
Qed.

Lemma valid_grow (h h' : heap) (s : slice) :
  (length h <= length h')%nat ->
  (forall a, (a < length h)%nat -> length (nth a h' []) = length (nth a h [])) ->
  valid h s -> valid h' s.
Proof.
  intros Hl Ha. unfold valid. destruct (slice_array s) as [a|]; [|auto].
  intros [H1 H2]. split; [lia|]. now rewrite Ha.
Qed.

Lemma heap_step_refl (t : Txn) : heap_step t t.
Proof. intros H. exact H. Qed.

Lemma heap_step_trans (a b c : Txn) : heap_step a b -> heap_step b c -> heap_step a c.
Proof. unfold heap_step. auto. Qed.

Lemma heap_step_logs_frame (t t' : Txn) : logs_frame t t' -> heap_step t t'.
Proof.
  intros [Hh [Hs Hg]] [Hj Hl]. split.
  - rewrite Hh. intros s Hs'. apply Hj, Hg, Hs'.
  - now rewrite Hh, Hs.
Qed.

Lemma wf_heap_run_op (o : op) : stable heap_step (run_op o).
Proof.
  intros t u t' H.
  destruct (match o with
            | OpSnapshot | OpRevertToSnapshot _ | OpEmitLog _ _ _ => false
            | _ => true
            end) eqn:Eq.
  { apply heap_step_logs_frame.
    assert (quiet o) as Hq by (destruct o; try discriminate; exact I).
    exact (logs_run_op o Hq _ _ _ H). }
  intros [Hj Hl]. destruct o; try discriminate; simpl in H.
  - apply Snapshot_inv in H. subst t'. split; [exact Hj|]. simpl.
    apply Forall_app. split; [exact Hl|]. now constructor.
  - apply RevertToSnapshot_inv in H. destruct H as [_ [tree [Hn ->]]].
    split; [|exact Hl]. simpl. rewrite Forall_forall in Hl.
    apply Hl. eapply nth_error_In. exact Hn.
  - apply EmitLog_inv in H. destruct H as (s0 & s & h & _ & Ha & ->).
    destruct (append_heap _ _ _ _ _ Ha) as [Hlen Harr].
    split; simpl.
    + intros s' Hs'. rewrite Radix.Get_Insert_eq in Hs'. inversion Hs'; subst s'.
      exact (append_valid _ _ _ _ _ Ha).
    + rewrite Forall_forall in *. intros j Hin s' Hs'.
      apply (valid_grow _ _ _ Hlen Harr). exact (Hl j Hin s' Hs').
Qed.

Lemma wf_heap_run_ops (ops : list op) (t t' : Txn) :
  wf_heap t -> run_ops ops t = Ok (tt, t') -> wf_heap t'.
Proof.
  intros Hwf H.
  exact (stable_for_each _ heap_step_refl heap_step_trans ops run_op
           wf_heap_run_op _ _ _ H Hwf).
Qed.

(** Every transaction reached from [NewTxn] has valid slices. *)
Corollary wf_heap_reachable (snapshot : Snapshot) (ops : list op) (t : Txn) :
  run_ops ops (NewTxn snapshot) = Ok (tt, t) -> wf_heap t.
Proof.
  apply wf_heap_run_ops. split; [|constructor]. intros s H. discriminate H.
Qed.

(** **** The cells below a snapshot stay *)

Lemma guarded_run_op (a n k : nat) (h0 : heap) (o : op) (t t' : Txn) (u : unit) :
  reverts_from (Z.of_nat k) o ->
  run_op o t = Ok (u, t') ->
  guarded a n k h0 t -> guarded a n k h0 t'.
Proof.
  intros Hr H (Hj & Hl & Ha & Hc).
  destruct (match o with
            | OpSnapshot | OpRevertToSnapshot _ | OpEmitLog _ _ _ => false
            | _ => true
            end) eqn:Eq.
  { assert (quiet o) as Hq by (destruct o; try discriminate; exact I).
    destruct (logs_run_op o Hq _ _ _ H) as [Hh [Hs Hg]].
    repeat split.
    - intros s Hs' Hs''. exact (Hj s (Hg s Hs') Hs'').
    - rewrite Hs. exact Hl.
    - now rewrite Hh.
    - now rewrite Hh. }
  destruct o; try discriminate; simpl in H, Hr.
  - apply Snapshot_inv in H. subst t'. repeat split; try assumption. simpl.
    intros i j Hi Hn. apply nth_error_snoc in Hn. destruct Hn as [Hn| ->].
    + exact (Hl i j Hi Hn).
    + exact Hj.
  - apply RevertToSnapshot_inv in H. destruct H as [Hid [tree [Hn ->]]].
    repeat split; try assumption. simpl.
    apply (Hl (Z.to_nat id) tree); [lia | exact Hn].
  - apply EmitLog_inv in H. destruct H as (s0 & s & h & Hs0 & Happ & ->).
    destruct (append_heap _ _ _ _ _ Happ) as [Hlen _].
    destruct (append_array _ _ _ _ _ Happ) as [Hsl Hsa].
    assert (slice_array s0 = Some a -> (n <= slice_len s0)%nat) as Hn0.
    { intros E. destruct Hs0 as [Hs0|Hs0]; [exact (Hj s0 Hs0 E) | congruence]. }
    repeat split; simpl.
    + intros s' Hs' E. rewrite Radix.Get_Insert_eq in Hs'. inversion Hs'; subst s'.
      destruct Hsa as [Hsa|Hsa].
      * rewrite Hsa in E. apply Hn0 in E. lia.
      * rewrite Hsa in E. inversion E. lia.
    + exact Hl.
    + lia.
    + intros i Hi. rewrite <- (Hc i Hi).
      apply (append_keeps _ _ _ _ _ a i Happ Ha).
      intros E. apply Hn0 in E. lia.
Qed.

Lemma guarded_run_ops (a n k : nat) (h0 : heap) (ops : list op) (t t' : Txn) :
  Forall (reverts_from (Z.of_nat k)) ops ->
  run_ops ops t = Ok (tt, t') ->
  guarded a n k h0 t -> guarded a n k h0 t'.
Proof.
  unfold run_ops. revert t. induction ops as [|o ops IH]; intros t Hr H G; simpl in H.
  - inversion H. now subst.
  - inversion Hr as [|? ? Ho Hops]; subst.
    apply bind_inv in H. destruct H as [u [t1 [H1 H2]]].
    apply (IH t1 Hops H2). exact (guarded_run_op _ _ _ _ o _ _ _ Ho H1 G).
Qed.

(** A snapshot guards the elements of the slice it holds. *)
Lemma guarded_Snapshot (t t0 : Txn) (id : Z) (s : slice) (a : nat) :
  wf_heap t -> Snapshot_ t = Ok (id, t0) ->
  Radix.Get logIndex (Txn_txn t) = Some (VLogs s) -> slice_array s = Some a ->
  guarded a (slice_len s) (length (Txn_snapshots t)) (Txn_heap t) t0.
Proof.
  intros [Hv _] Hs Hg Ea. inversion Hs; subst id t0. clear Hs.
  assert (above a (slice_len s) (Txn_txn t)) as Hab.
  { intros s' Hs' _. rewrite Hg in Hs'. inversion Hs'. lia. }
  repeat split; simpl.
  - exact Hab.
  - intros i j Hi Hn. rewrite nth_error_app2 in Hn by exact Hi.
    destruct (i - length (Txn_snapshots t))%nat as [|m]; simpl in Hn.
    + inversion Hn; subst j. exact Hab.
    + destruct m; discriminate.
  - specialize (Hv s Hg). unfold valid in Hv. rewrite Ea in Hv. apply Hv.
Qed.

(** After a snapshot and operations that revert to no older snapshot, the
    logs of the snapshot are in the heap as they were. *)
Lemma rollback_cells (ops : list op) (id : Z) (txn txn0 txn1 t : Txn) :
  wf_heap txn ->
  Snapshot_ txn = Ok (id, txn0) ->
  run_ops ops txn0 = Ok (tt, txn1) ->
  Forall (reverts_from id) ops ->
  Txn_txn t = Txn_txn txn -> Txn_heap t = Txn_heap txn1 ->
  pending_Logs t = pending_Logs txn.
Proof.
  intros Hwf Hs Hrun Hr Hj Hh. apply pending_Logs_cells; [exact Hj|].
  intros s a i Hg Ea Hi. rewrite Hh.
  pose proof (guarded_Snapshot _ _ _ _ _ Hwf Hs Hg Ea) as G.
  assert (id = Z.of_nat (length (Txn_snapshots txn))) as Hid by (now inversion Hs).
  rewrite Hid in Hr.
  destruct (guarded_run_ops _ _ _ _ _ _ _ Hr Hrun G) as (_ & _ & _ & Hc).
  exact (Hc i Hi).
Qed.

Lemma reverts_from_le (id id' : Z) (ops : list op) :
  id <= id' -> Forall (reverts_from id') ops -> Forall (reverts_from id) ops.
Proof.
  intros Hle. apply Forall_impl. intros [] H; simpl in *; auto. lia.
Qed.

(** X21. Take a snapshot, run any operations (none of them [Commit]) that
    return, and revert to the snapshot.  The revert returns and the journal
    is the one of the snapshot: the reading methods show the accounts,
    balances, nonces, code, storage, refund counter, existence, emptiness
    and suicide flags, and what a commit would emit, as when the snapshot
    was taken, and they show the logs of then as the heap holds them now.
    When the operations revert to no snapshot older than this one (as nested
    calls do), the heap holds these logs as it did, and all that is read is
    as it was.  In particular, after [SetBalance addr 100], a snapshot,
    [SetBalance addr 200] and the revert, the balance reads 100. *)
Theorem Snapshot_revert_stack (txn : Txn) :
  (forall (ops : list op) (id : Z) (txn0 txn1 : Txn),
     Snapshot_ txn = Ok (id, txn0) ->
     run_ops ops txn0 = Ok (tt, txn1) ->
     exists txn2,
       RevertToSnapshot id txn1 = Ok (tt, txn2) /\
       Txn_txn txn2 = Txn_txn txn /\
       Txn_snapshot txn2 = Txn_snapshot txn /\
       Txn_rev txn2 = Txn_rev txn /\
       observe txn2 = observe (set_heap (Txn_heap txn1) txn) /\
       (wf_heap txn -> Forall (reverts_from id) ops -> observe txn2 = observe txn)) /\
  (forall (addr : Address) (got : option stateObject),
     getStateObject addr txn = Ok got ->
     exists t1 id t2 t3 t4,
       SetBalance addr 100 txn = Ok (tt, t1) /\
       Snapshot_ t1 = Ok (id, t2) /\
       SetBalance addr 200 t2 = Ok (tt, t3) /\
       GetBalance addr t3 = Ok 200 /\
       RevertToSnapshot id t3 = Ok (tt, t4) /\
       GetBalance addr t4 = Ok 100).
Proof.
  split.
  - intros ops id txn0 txn1 Hs Hrun.
    pose proof (frame_run_ops _ _ _ _ Hrun) as F.
    pose proof (Revert_published _ _ _ _ Hs F) as Hrev.
    destruct F as [F1 [F2 _]].
    assert (Txn_snapshot txn0 = Txn_snapshot txn /\ Txn_rev txn0 = Txn_rev txn) as [E1 E2]
      by (inversion Hs; now split).
    exists (set_txn (Txn_txn txn) txn1). split; [exact Hrev|].
    split; [reflexivity|]. split; [simpl; congruence|]. split; [simpl; congruence|].
    split.
    + apply observe_ext; [reflexivity | simpl; congruence |].
      now apply pending_Logs_ext.
    + intros Hwf Hr. apply observe_ext; [reflexivity | simpl; congruence |].
      now apply (rollback_cells ops id txn txn0 txn1).
  - intros addr got Hg.
    set (o1 := set_Account (set_Balance (Z.abs 100) (obj_Account (materialise got)))
                 (materialise got)).
    set (t1 := with_object addr o1 txn).
    pose proof (materialise_not_deleted _ _ _ Hg) as Hd.
    assert (getStateObject addr t1 = Ok (Some o1)) as Hg1.
    { unfold t1. rewrite getStateObject_with_object. unfold o1. simpl. now rewrite Hd. }
    set (t2 := set_snapshots (Txn_snapshots t1 ++ [Txn_txn t1]) t1).
    assert (getStateObject addr t2 = Ok (Some o1)) as Hg2 by exact Hg1.
    set (o3 := set_Account (set_Balance (Z.abs 200) (obj_Account o1)) o1).
    set (t3 := with_object addr o3 t2).
    assert (journal_frame t2 t3) as F by apply journal_frame_set_txn.
    exists t1, (Z.of_nat (length (Txn_snapshots t1))), t2, t3.
    eexists. split; [exact (upsertAccount_on_object _ _ _ _ Hg)|].
    split; [reflexivity|].
    split; [exact (upsertAccount_on_object _ _ _ _ Hg2)|].
    split.
    { unfold t3. rewrite GetBalance_with_object; [reflexivity|].
      unfold o3, o1. simpl. exact Hd. }
    split; [exact (Revert_published t1 t2 t3 _ eq_refl F)|].
    unfold GetBalance.
    replace (getStateObject addr (set_txn (Txn_txn t1) t3))
      with (getStateObject addr t1) by reflexivity.
    rewrite Hg1. reflexivity.
Qed.

(** X13. Snapshots nest and their ids only grow.  After a snapshot,
    operations, a second snapshot and more operations, the revert to the first
    id returns and restores the first journal; the second id is still valid
    then, and the revert to it returns and restores the second journal; a
    snapshot taken after that gets an id above both.  The restored journals
    hold the slices of their logs, not the elements: when each run of
    operations reverts to no snapshot older than its own, the heap holds the
    elements as it did and both reverts restore all that is read, the logs
    too. *)
Theorem Snapshot_nested (ops1 ops2 : list op) (id0 id1 : Z) (txn t0 t1 t2 t3 : Txn) :
  Snapshot_ txn = Ok (id0, t0) ->
  run_ops ops1 t0 = Ok (tt, t1) ->
  Snapshot_ t1 = Ok (id1, t2) ->
  run_ops ops2 t2 = Ok (tt, t3) ->
  id0 < id1 /\
  exists t4 t5 id2 t6,
    RevertToSnapshot id0 t3 = Ok (tt, t4) /\
    Txn_txn t4 = Txn_txn txn /\
    observe t4 = observe (set_heap (Txn_heap t3) txn) /\
    RevertToSnapshot id1 t4 = Ok (tt, t5) /\
    Txn_txn t5 = Txn_txn t1 /\
    observe t5 = observe (set_heap (Txn_heap t3) t1) /\
    Snapshot_ t5 = Ok (id2, t6) /\
    id1 < id2 /\
    (wf_heap txn ->
     Forall (reverts_from id0) ops1 -> Forall (reverts_from id1) ops2 ->
     observe t4 = observe txn /\ observe t5 = observe t1).
Proof.
  intros Hs0 Hr1 Hs1 Hr2.
  pose proof (frame_run_ops _ _ _ _ Hr1) as F01.
  pose proof (frame_Snapshot _ _ _ Hs1) as F12.
  pose proof (frame_run_ops _ _ _ _ Hr2) as F23.
  assert (journal_frame t0 t3) as F03
    by (eapply journal_frame_trans; [exact F01|];
        eapply journal_frame_trans; [exact F12 | exact F23]).
  pose proof (Revert_published _ _ _ _ Hs0 F03) as Hrev0.
  pose proof (frame_RevertToSnapshot _ _ _ _ Hrev0) as F34.
  assert (journal_frame t2 (set_txn (Txn_txn txn) t3)) as F24
    by (eapply journal_frame_trans; [exact F23 | exact F34]).
  pose proof (Revert_published _ _ _ _ Hs1 F24) as Hrev1.
  pose proof (journal_frame_length _ _ F01) as L01.
  pose proof (journal_frame_length _ _ F23) as L23.
  assert (Txn_snapshot t3 = Txn_snapshot txn) as E3
    by (destruct F03 as [E _]; rewrite E; now inversion Hs0).
  assert (Txn_snapshot t3 = Txn_snapshot t1) as E31
    by (destruct F23 as [E _]; rewrite E; now inversion Hs1).
  assert (id0 < id1) as Hlt.
  { inversion Hs0; subst id0 t0. inversion Hs1; subst id1 t2.
    simpl in L01. rewrite length_app in L01. simpl in L01. lia. }
  split; [exact Hlt|].
  exists (set_txn (Txn_txn txn) t3), (set_txn (Txn_txn t1) (set_txn (Txn_txn txn) t3)).
  do 2 eexists. split; [exact Hrev0|]. split; [reflexivity|].
  split; [apply observe_ext; [reflexivity | exact E3 | now apply pending_Logs_ext]|].
  split; [exact Hrev1|]. split; [reflexivity|].
  split; [apply observe_ext; [reflexivity | exact E31 | now apply pending_Logs_ext]|].
  split; [reflexivity|].
  split.
  { inversion Hs0; subst id0 t0. inversion Hs1; subst id1 t2.
    simpl in L23. rewrite length_app in L23. simpl in L23. simpl. lia. }
  intros Hwf Hf1 Hf2.
  assert (wf_heap t1) as Hwf1.
  { apply (wf_heap_run_ops ops1 t0); [|exact Hr1].
    inversion Hs0; subst id0 t0. destruct Hwf as [Hj Hl]. split; [exact Hj|].
    simpl. apply Forall_app. split; [exact Hl|]. now constructor. }
  split.
  - apply observe_ext; [reflexivity | exact E3 |].
    assert (run_ops (ops1 ++ OpSnapshot :: ops2) t0 = Ok (tt, t3)) as Hrun.
    { unfold run_ops in *. clear - Hr1 Hs1 Hr2. revert t0 Hr1.
      induction ops1 as [|o ops IH]; intros t0 Hr1; simpl in *.
      - inversion Hr1; subst t1. unfold bind at 1. unfold discard, bind at 1.
        rewrite Hs1. exact Hr2.
      - apply bind_inv in Hr1. destruct Hr1 as [u [tm [H1 H2]]].
        rewrite (bind_ok _ _ _ _ _ H1). exact (IH tm H2). }
    apply (rollback_cells _ id0 txn t0 t3 _ Hwf Hs0 Hrun); [|reflexivity|reflexivity].
    apply Forall_app. split; [exact Hf1|]. constructor; [exact I|].
    apply (reverts_from_le id0 id1); [lia | exact Hf2].
  - apply observe_ext; [reflexivity | exact E31 |].
    now apply (rollback_cells ops2 id1 t1 t2 t3).
Qed.

(** *** What [SetStorage] changes *)

Definition yields {A : Type} (P : A -> Prop) (m : M A) : Prop :=
  forall t a t', m t = Ok (a, t') -> P a.

Lemma yields_ret {A : Type} (P : A -> Prop) (a : A) : P a -> yields P (ret a).
Proof. intros H t x t' E. inversion E. now subst. Qed.

Lemma yields_bind {A B : Type} (P : B -> Prop) (m : M A) (f : A -> M B) :
  (forall a, yields P (f a)) -> yields P (bind m f).
Proof.
  intros Hf t b t2 H. apply bind_inv in H. destruct H as [a [t1 [_ H2]]].
  exact (Hf a _ _ _ H2).
Qed.

Ltac solve_yields :=
  repeat first
    [ apply yields_ret; discriminate
    | apply yields_bind; intros ?
    | match goal with
      | |- yields _ (if ?b then _ else _) => destruct b
      end ].

(** X14. A [SetStorage] that returns gives [StorageUnchanged] exactly when
    the slot already read the value, and then the transaction is the same.
    In any case it changes nothing that is read of another address and no
    pending log; of its own account, when that was visible, it keeps the
    balance, the nonce, the code, the suicide flag, the committed state and
    every other slot. *)
Theorem SetStorage_effect (addr : Address) (key value : Hash) (txn txn' : Txn)
    (status : StorageStatus) :
  is_address addr ->
  SetStorage addr key value txn = Ok (status, txn') ->
  (status = StorageUnchanged <-> GetState addr key txn = Ok value) /\
  (status = StorageUnchanged -> txn' = txn) /\
  (forall b, is_address b -> b <> addr -> getStateObject b txn' = getStateObject b txn) /\
  pending_Logs txn' = pending_Logs txn /\
  (forall o, getStateObject addr txn = Ok (Some o) ->
     GetBalance addr txn' = GetBalance addr txn /\
     GetNonce addr txn' = GetNonce addr txn /\
     GetCode addr txn' = GetCode addr txn /\
     HasSuicided addr txn' = HasSuicided addr txn /\
     (forall k, GetCommittedState addr k txn' = GetCommittedState addr k txn) /\
     (forall k, k <> key -> GetState addr k txn' = GetState addr k txn)).
Proof.
  intros Ha H. unfold SetStorage in H.
  apply bind_inv in H. destruct H as [cur [t0 [H0 H]]].
  apply read_inv in H0. destruct H0 as [Hcur ->].
  destruct (Hash_eqb cur value) eqn:E.
  - inversion H; subst. apply Hash_eqb_eq in E. subst cur.
    repeat split; auto.
  - apply bind_inv in H. destruct H as [orig [t0 [H0 H]]].
    apply read_inv in H0. destruct H0 as [_ ->].
    apply bind_inv in H. destruct H as [u [t1 [Hs H]]].
    destruct (GetState_inv _ _ _ _ Hcur) as [got Hg].
    rewrite (SetState_ok _ key value _ _ Hg) in Hs. inversion Hs; subst t1. clear Hs.
    pose proof (materialise_not_deleted _ _ _ Hg) as Hd.
    match type of H with
    | ?m _ = _ =>
        assert (stable refund_frame m) as Hst by solve_stable;
        assert (stable logs_frame m) as Hlf by solve_logs;
        assert (yields (fun s => s <> StorageUnchanged) m) as Hy by solve_yields
    end.
    pose proof (Hy _ _ _ H) as Hstatus.
    destruct (Hlf _ _ _ H) as [Hheap _]. apply Hst in H.
    assert (getStateObject addr txn' = Ok (Some (write_slot key value (materialise got))))
      as Hg'.
    { rewrite (getStateObject_refund_frame _ _ _ Ha H).
      apply getStateObject_stored. now rewrite write_slot_Deleted. }
    split; [|split; [|split; [|split]]].
    + split; [contradiction|]. intros Hv. rewrite Hv in Hcur. inversion Hcur; subst.
      rewrite Hash_eqb_refl in E. discriminate.
    + contradiction.
    + intros b Hb Hne. rewrite (getStateObject_refund_frame _ _ _ Hb H).
      now apply getStateObject_with_object_other.
    + destruct H as [_ [_ Hget]]. apply pending_Logs_ext; [|now rewrite Hheap].
      rewrite Hget by exact logIndex_not_refundIndex. simpl.
      apply Radix.Get_Insert_ne.
      intros Eq. symmetry in Eq. revert Eq. now apply address_not_logIndex.
    + intros o Ho. rewrite Ho in Hg. inversion Hg; subst got. simpl materialise in *.
      destruct H as [Hsn _].
      unfold GetBalance, GetNonce, GetCode, HasSuicided, GetCommittedState, GetState.
      rewrite Hg', Ho, Hsn. simpl. rewrite write_slot_Account.
      assert (obj_Code (write_slot key value o) = obj_Code o
              /\ obj_Suicide (write_slot key value o) = obj_Suicide o
              /\ obj_DirtyCode (write_slot key value o) = obj_DirtyCode o) as [E1 [E2 E3]]
        by (unfold write_slot; destruct (Hash_eqb value zeroHash); repeat split).
      rewrite E1, E2, E3. repeat split.
      intros k Hk. unfold write_slot, Hash_Bytes.
      destruct (Hash_eqb value zeroHash); simpl;
        rewrite Radix.Get_Insert_ne by exact Hk;
        destruct (obj_Txn o); reflexivity.
Qed.

(** *** No panic in a well-formed transaction *)

(** The one operation with a precondition: a revert needs a snapshot id in
    range. *)
Definition op_in_range (o : op) (t : Txn) : Prop :=
  match o with
  | OpRevertToSnapshot id => 0 <= id < Z.of_nat (length (Txn_snapshots t))
  | _ => True
  end.

Lemma discard_ok {A : Type} (m : M A) (t t' : Txn) (a : A) :
  m t = Ok (a, t') -> discard m t = Ok (tt, t').
Proof. intros H. unfold discard. now rewrite (bind_ok _ _ _ _ _ H). Qed.

Lemma wf_logs (t : Txn) :
  wf_txn t -> exists l, pending_Logs t = Ok l.
Proof.
  intros [Hj _]. unfold pending_Logs, Logs.
  destruct (Radix.Get logIndex (Txn_txn t)) as [v|] eqn:E; [|eexists; reflexivity].
  pose proof (wf_journal_Get _ _ _ Hj E) as Hv.
  destruct v as [o|l|r]; simpl in Hv.
  - destruct Hv as [Hv _]. discriminate Hv.
  - eexists; reflexivity.
  - exfalso. destruct Hv as [Hv _]. revert Hv. apply logIndex_not_refundIndex.
Qed.

Lemma SetStorage_returns (addr : Address) (key value : Hash) (t : Txn) :
  wf_txn t -> is_address addr ->
  exists status t', SetStorage addr key value t = Ok (status, t').
Proof.
  intros Hwf Ha.
  destruct (wf_getStateObject addr t Hwf Ha) as [got [Hg _]].
  destruct (wf_GetState addr key t Hwf Ha) as [cur Hcur].
  destruct (wf_GetRefund t Hwf) as [r [Hr _]].
  destruct (Hash_eqb cur value) eqn:E.
  - exists StorageUnchanged, t. unfold SetStorage.
    rewrite (bind_ok _ _ _ _ _ (read_ok _ _ _ Hcur)). now rewrite E.
  - destruct (SetStorage_step addr key value t got cur _ r Ha Hg Hcur
                (GetCommittedState_total _ key _ _ Hg) Hr E) as [t' [Hrun _]].
    eexists. exists t'. exact Hrun.
Qed.

(** X15. In a well-formed transaction (every one reached from [NewTxn] is)
    each operation on an address returns and leaves a well-formed
    transaction: no type assertion fails and no callback meets a nil object.
    The only panic left is that of [RevertToSnapshot] on an id out of range.
    The reading methods return too. *)
Theorem run_op_returns (t : Txn) :
  wf_txn t ->
  (forall o, op_ok o -> op_in_range o t ->
     exists t', run_op o t = Ok (tt, t') /\ wf_txn t') /\
  (forall a k, is_address a ->
     (exists x, GetAccount a t = Ok x) /\ (exists x, GetBalance a t = Ok x) /\
     (exists x, GetNonce a t = Ok x) /\ (exists x, GetCode a t = Ok x) /\
     (exists x, GetCodeSize a t = Ok x) /\ (exists x, GetCodeHash a t = Ok x) /\
     (exists x, GetState a k t = Ok x) /\ (exists x, GetCommittedState a k t = Ok x) /\
     (exists x, Exist a t = Ok x) /\ (exists x, Empty a t = Ok x) /\
     (exists x, HasSuicided a t = Ok x)) /\
  (exists r, GetRefund t = Ok r /\ 0 <= r < 2 ^ 64) /\
  (exists l, pending_Logs t = Ok l).
Proof.
  intros Hwf. split; [|split; [|split]].
  - intros o Hok Hin.
    assert (exists t', run_op o t = Ok (tt, t')) as [t' Hrun].
    { destruct o; simpl in Hok, Hin; simpl run_op;
        try (destruct (wf_getStateObject addr t Hwf Hok) as [got [Hg _]]).
      - eexists; reflexivity.
      - unfold RevertToSnapshot.
        destruct (Z.gtb_spec id (Z.of_nat (length (Txn_snapshots t)))) as [Hgt|_]; [lia|].
        destruct (index_in_range (Txn_snapshots t) id Hin) as [tree [_ Hi]].
        rewrite Hi. eexists; reflexivity.
      - eexists. exact (upsertAccount_on_object _ _ _ _ Hg).
      - eexists. exact (upsertAccount_on_object _ _ _ _ Hg).
      - destruct (wf_GetBalance addr t Hwf Hok) as [b Hb].
        unfold SubBalance. destruct (amount =? 0); [eexists; reflexivity|].
        destruct (b <? amount) eqn:Eb; eexists.
        + apply discard_ok with (a := Some ErrNotEnoughFunds).
          rewrite (bind_ok _ _ _ _ _ (read_ok _ _ _ Hb)), Eb. reflexivity.
        + apply discard_ok with (a := None).
          rewrite (bind_ok _ _ _ _ _ (read_ok _ _ _ Hb)), Eb.
          now rewrite (bind_ok _ _ _ _ _ (upsertAccount_on_object _ _ _ _ Hg)).
      - eexists. exact (upsertAccount_on_object _ _ _ _ Hg).
      - destruct (wf_logs t Hwf) as [l Hl].
        destruct (EmitLog_pending addr topics data l t Hl) as (s0 & s & h & _ & _ & He).
        eexists. exact He.
      - match goal with
        | |- context [SetStorage ?a ?k ?v] =>
            destruct (SetStorage_returns a k v t Hwf Hok) as [s [t' Hs]]
        end.
        exists t'. exact (discard_ok _ _ _ _ Hs).
      - eexists. exact (SetState_ok _ _ _ _ _ Hg).
      - eexists. exact (upsertAccount_on_object _ _ _ _ Hg).
      - eexists. exact (upsertAccount_on_object _ _ _ _ Hg).
      - eexists. exact (upsertAccount_on_object _ _ _ _ Hg).
      - unfold discard, bind, Suicide, upsertAccount. rewrite Hg.
        destruct got as [x|]; [destruct (obj_Suicide x)|]; eexists; reflexivity.
      - destruct (wf_GetRefund t Hwf) as [r [Hr _]].
        eexists. exact (AddRefund_ok _ _ _ Hr).
      - destruct (wf_GetRefund t Hwf) as [r [Hr _]].
        eexists. exact (SubRefund_ok _ _ _ Hr).
      - destruct (wf_logs t Hwf) as [l Hl]. unfold pending_Logs in Hl.
        unfold discard, bind.
        destruct (Logs t) as [[l' t']|]; [|discriminate]. eexists; reflexivity.
      - unfold TouchAccount, upsertAccount. rewrite Hg.
        destruct got; eexists; reflexivity.
      - unfold CreateAccount. rewrite Hg. eexists; reflexivity.
      - destruct (CleanDeleteObjects_lookup deleteEmptyObjects t (proj1 (proj1 Hwf)))
          as [t' [Hc _]].
        exists t'. exact Hc. }
    exists t'. split; [exact Hrun|].
    exact (wf_run_op o Hok _ _ _ Hrun Hwf).
  - intros a k Ha. destruct (wf_getStateObject a t Hwf Ha) as [got [Hg _]].
    unfold GetAccount, GetBalance, GetNonce, GetCodeSize, GetCode, GetCodeHash, Empty,
      GetState, GetCommittedState, Exist, HasSuicided.
    rewrite Hg. simpl.
    destruct got as [o|]; simpl; repeat split; try (eexists; reflexivity).
    + destruct (obj_DirtyCode o); [eexists; reflexivity|].
      destruct (Snapshot_GetCode _ _ _). eexists; reflexivity.
    + destruct (obj_DirtyCode o); [eexists; reflexivity|].
      destruct (Snapshot_GetCode _ _ _). eexists; reflexivity.
    + destruct (Empty_obj o); eexists; reflexivity.
    + destruct (obj_Txn o) as [tx|]; [|eexists; reflexivity].
      destruct (Radix.Get (Hash_Bytes k) tx) as [[b|]|]; eexists; reflexivity.
  - exact (wf_GetRefund t Hwf).
  - exact (wf_logs t Hwf).
Qed.

(** *** The addresses of a commit *)

Lemma StronglySorted_NoDup (l : list bytes) : StronglySorted bytes_lt l -> NoDup l.
Proof.
  induction 1 as [|x l Hs IH Hall]; constructor; [|exact IH].
  intros Hin. rewrite Forall_forall in Hall.
  exact (bytes_lt_irrefl _ (Hall _ Hin)).
Qed.

(** X16. [Commit] emits one object for each address that has an object in
    the journal, and none for any other address: no address comes twice, and
    an address is in the list exactly when the transaction has read or
    written the account into the journal. *)
Theorem Commit_addresses (txn : Txn) :
  wf_journal (Txn_txn txn) ->
  NoDup (map Object_Address (Commit txn)) /\
  (forall a,
     In a (map Object_Address (Commit txn)) <->
     exists o, Radix.Get a (Txn_txn txn) = Some (VObject o)) /\
  (forall a o, Radix.Get a (Txn_txn txn) = Some (VObject o) ->
     In (commit_object a o) (Commit txn)).
Proof.
  intros Hwf.
  assert (forall a o, Radix.Get a (Txn_txn txn) = Some (VObject o) ->
                      In (commit_object a o) (Commit txn)) as Hin.
  { intros a o Hg. rewrite Commit_flat_map. apply in_flat_map.
    exists (a, VObject o). split; [now apply Radix.Get_In | now left]. }
  split; [|split; [|exact Hin]].
  - apply StronglySorted_NoDup. rewrite Commit_flat_map.
    now apply Commit_addresses_sorted.
  - intros a. split.
    + intros H. apply in_map_iff in H. destruct H as [obj [Ha Hobj]].
      rewrite Commit_flat_map in Hobj. apply Commit_sources in Hobj.
      destruct Hobj as [k [o [Hk ->]]]. simpl in Ha.
      pose proof (wf_journal_In _ _ _ Hwf Hk) as [Hlen _].
      rewrite (BytesToAddress_id k Hlen) in Ha. subst k.
      exists o. apply Radix.In_Get; [apply Hwf | exact Hk].
    + intros [o Hg]. apply in_map_iff. exists (commit_object a o).
      split; [|now apply Hin]. simpl.
      pose proof (wf_journal_Get _ _ _ Hwf Hg) as [Hlen _].
      exact (BytesToAddress_id a Hlen).
Qed.

(** *** Balances are never negative *)

Definition nonneg_value (v : value) : Prop :=
  match v with
  | VObject o => 0 <= Balance (obj_Account o)
  | _ => True
  end.

Definition nonneg_journal (j : Radix.tree value) : Prop :=
  Forall (fun kv => nonneg_value (snd kv)) j.

(** No balance is negative: in the committed state, in the journal and in the
    published versions. *)
Definition nonneg_txn (t : Txn) : Prop :=
  (forall a acc e, Snapshot_GetAccount (Txn_snapshot t) a = (Some acc, e) ->
                   0 <= Balance acc) /\
  nonneg_journal (Txn_txn t) /\
  Forall nonneg_journal (Txn_snapshots t).

(** The amounts the caller adds are not negative. *)
Definition op_nonneg (o : op) : Prop :=
  match o with
  | OpAddBalance _ balance | OpAddSealingReward _ balance => 0 <= balance
  | _ => True
  end.

Definition nonneg_step (t t' : Txn) : Prop := nonneg_txn t -> nonneg_txn t'.

Lemma nonneg_step_refl (t : Txn) : nonneg_step t t.
Proof. intros H. exact H. Qed.

Lemma nonneg_step_trans (a b c : Txn) : nonneg_step a b -> nonneg_step b c -> nonneg_step a c.
Proof. unfold nonneg_step. auto. Qed.

Lemma nonneg_Insert (k : bytes) (v : value) (j : Radix.tree value) :
  nonneg_journal j -> nonneg_value v -> nonneg_journal (Radix.Insert k v j).
Proof.
  intros Hall Hv. apply Forall_forall. intros x Hx. apply In_Insert in Hx.
  destruct Hx as [->|Hx]; [exact Hv|].
  unfold nonneg_journal in Hall. rewrite Forall_forall in Hall. now apply Hall.
Qed.

Lemma nonneg_Delete (k : bytes) (j : Radix.tree value) :
  nonneg_journal j -> nonneg_journal (Radix.Delete k j).
Proof.
  intros Hall. apply Forall_forall. intros x Hx. apply In_Delete in Hx.
  unfold nonneg_journal in Hall. rewrite Forall_forall in Hall. now apply Hall.
Qed.

Lemma nonneg_set_txn (j : Radix.tree value) (t : Txn) :
  nonneg_journal j -> nonneg_step t (set_txn j t).
Proof. intros Hj [Hs [_ Hl]]. repeat split; assumption. Qed.

Lemma nonneg_getStateObject (a : Address) (t : Txn) (o : stateObject) :
  nonneg_txn t -> getStateObject a t = Ok (Some o) -> 0 <= Balance (obj_Account o).
Proof.
  intros [Hs [Hj _]]. unfold getStateObject.
  destruct (Radix.Get (Address_Bytes a) (Txn_txn t)) as [[obj| |]|] eqn:E; try discriminate.
  - destruct (obj_Deleted obj); [discriminate|]. rewrite Copy_id.
    intros H. inversion H; subst.
    apply Radix.Get_In in E. unfold nonneg_journal in Hj. rewrite Forall_forall in Hj.
    exact (Hj _ E).
  - destruct (Snapshot_GetAccount (Txn_snapshot t) a) as [[acc|] [|]] eqn:Ea;
      try discriminate.
    intros H. inversion H; subst. simpl.
    exact (Hs _ _ _ Ea).
Qed.

Lemma nonneg_materialise (a : Address) (t : Txn) (got : option stateObject) :
  nonneg_txn t -> getStateObject a t = Ok got ->
  0 <= Balance (obj_Account (materialise got)).
Proof.
  intros Hnn Hg. destruct got as [o|]; simpl; [|lia].
  exact (nonneg_getStateObject _ _ _ Hnn Hg).
Qed.

Lemma nonneg_upsertAccount {R : Type} (addr : Address) (create : bool)
    (f : option stateObject -> result (R * option stateObject)) :
  (forall o r o',
     match o with Some x => 0 <= Balance (obj_Account x) | None => True end ->
     f o = Ok (r, Some o') -> 0 <= Balance (obj_Account o')) ->
  stable nonneg_step (upsertAccount addr create f).
Proof.
  intros Hf t a t' H Hnn. unfold upsertAccount in H.
  destruct (getStateObject addr t) as [got|] eqn:Hg; [|discriminate].
  match type of H with
  | context [f ?x] => destruct (f x) as [[r [o|]]|] eqn:E
  end; try discriminate; inversion H; subst; [|exact Hnn].
  apply nonneg_set_txn; [|exact Hnn].
  apply nonneg_Insert; [apply Hnn|]. simpl.
  apply (Hf _ _ _) in E; [exact E|].
  destruct got as [x|]; [exact (nonneg_getStateObject _ _ _ Hnn Hg)|].
  destruct create; simpl; [lia | exact I].
Qed.

Lemma nonneg_on_object (g : stateObject -> stateObject) :
  (forall x, 0 <= Balance (obj_Account x) -> 0 <= Balance (obj_Account (g x))) ->
  forall o r o',
    match o with Some x => 0 <= Balance (obj_Account x) | None => True end ->
    on_object g o = Ok (r, Some o') -> 0 <= Balance (obj_Account o').
Proof.
  intros Hg [x|] r o' Hx H; simpl in H; [|discriminate].
  inversion H; subst. now apply Hg.
Qed.

Lemma nonneg_refund (m : M unit) :
  (forall t a t', m t = Ok (a, t') -> exists r, t' = with_refund r t) ->
  stable nonneg_step m.
Proof.
  intros Hm t a t' H Hnn. apply Hm in H. destruct H as [r ->].
  apply nonneg_set_txn; [|exact Hnn]. apply nonneg_Insert; [apply Hnn | exact I].
Qed.

Lemma nonneg_AddRefund (gas : Z) : stable nonneg_step (AddRefund gas).
Proof.
  apply nonneg_refund. intros t a t'. unfold AddRefund.
  destruct (GetRefund t) as [r|]; [|discriminate].
  intros H. inversion H. now eexists.
Qed.

Lemma nonneg_SubRefund (gas : Z) : stable nonneg_step (SubRefund gas).
Proof.
  apply nonneg_refund. intros t a t'. unfold SubRefund.
  destruct (GetRefund t) as [r|]; [|discriminate].
  intros H. inversion H. now eexists.
Qed.

Ltac solve_nonneg :=
  repeat first
    [ apply (stable_ret _ nonneg_step_refl)
    | apply (stable_read _ nonneg_step_refl)
    | apply nonneg_AddRefund
    | apply nonneg_SubRefund
    | apply (stable_discard _ nonneg_step_refl nonneg_step_trans)
    | apply (stable_bind _ nonneg_step_trans); [|intros ?]
    | match goal with
      | |- stable _ (if ?b then _ else _) => destruct b
      end ].

Lemma nonneg_keep_balance (g : stateObject -> stateObject) :
  (forall x, Balance (obj_Account (g x)) = Balance (obj_Account x)) ->
  forall x, 0 <= Balance (obj_Account x) -> 0 <= Balance (obj_Account (g x)).
Proof. intros Hg x. now rewrite Hg. Qed.

Lemma nonneg_SetStorage (addr : Address) (key value : Hash) :
  stable nonneg_step (SetStorage addr key value).
Proof.
  unfold SetStorage.
  apply (stable_bind _ nonneg_step_trans); [apply (stable_read _ nonneg_step_refl)|intros cur].
  destruct (Hash_eqb cur value); [apply (stable_ret _ nonneg_step_refl)|].
  apply (stable_bind _ nonneg_step_trans); [apply (stable_read _ nonneg_step_refl)|intros orig].
  apply (stable_bind _ nonneg_step_trans); [|intros _; solve_nonneg].
  apply nonneg_upsertAccount. apply nonneg_on_object. apply nonneg_keep_balance.
  intros x. now rewrite write_slot_Account.
Qed.

(** The guard of [SubBalance] is what keeps the balance from going below
    zero. *)
Lemma nonneg_SubBalance (addr : Address) (amount : Z) :
  stable nonneg_step (SubBalance addr amount).
Proof.
  intros t a t' H Hnn. unfold SubBalance in H.
  destruct (amount =? 0); [inversion H; now subst|].
  apply bind_inv in H. destruct H as [b [t0 [H0 H]]].
  apply read_inv in H0. destruct H0 as [Hb ->].
  destruct (Z.ltb_spec b amount) as [Hlt|Hge]; [inversion H; now subst|].
  apply bind_inv in H. destruct H as [u [t1 [Hu H]]]. inversion H; subst. clear H.
  destruct (GetBalance_inv _ _ _ Hb) as [got [Hg Hbal]].
  rewrite (upsertAccount_on_object _ _ _ _ Hg) in Hu. inversion Hu; subst. clear Hu.
  apply nonneg_set_txn; [|exact Hnn].
  apply nonneg_Insert; [apply Hnn|]. simpl.
  assert (Balance (obj_Account (materialise got)) =
          match got with Some o => Balance (obj_Account o) | None => 0 end) as E
    by now destruct got.
  rewrite E. lia.
Qed.

Lemma nonneg_run_op (o : op) : op_nonneg o -> stable nonneg_step (run_op o).
Proof.
  destruct o; simpl; intros Hok;
    first [ apply (stable_discard _ nonneg_step_refl nonneg_step_trans) | idtac ];
    first [ apply nonneg_SubBalance | apply nonneg_SetStorage
          | apply nonneg_AddRefund | apply nonneg_SubRefund
          | idtac ].
  - (* Snapshot *)
    intros t a t' H [Hs [Hj Hl]]. inversion H; subst. repeat split; try assumption.
    simpl. apply Forall_app. split; [exact Hl | now constructor].
  - (* RevertToSnapshot *)
    intros t a t' H Hnn. unfold RevertToSnapshot, index in H.
    destruct (id >? Z.of_nat (length (Txn_snapshots t))); [discriminate|].
    destruct (id <? 0); [discriminate|].
    destruct (nth_error (Txn_snapshots t) (Z.to_nat id)) as [tree|] eqn:E; [|discriminate].
    inversion H; subst. apply nonneg_set_txn; [|exact Hnn].
    destruct Hnn as [_ [_ Hl]]. rewrite Forall_forall in Hl.
    apply Hl. eapply nth_error_In. exact E.
  - (* AddSealingReward *)
    apply nonneg_upsertAccount. apply nonneg_on_object.
    intros x Hx. destruct (obj_Suicide x); simpl; lia.
  - (* AddBalance *)
    apply nonneg_upsertAccount. apply nonneg_on_object.
    intros x Hx. simpl. lia.
  - (* SetBalance *)
    apply nonneg_upsertAccount. apply nonneg_on_object.
    intros x Hx. simpl. lia.
  - (* EmitLog *)
    intros t a t' H Hnn. unfold EmitLog in H.
    destruct (Radix.Get logIndex (Txn_txn t)) as [[| |]|]; try discriminate;
      match type of H with
      | context [append ?s ?x ?h] => destruct (append s x h) as [s' h']
      end; inversion H; subst; (apply nonneg_set_txn; [|exact Hnn]);
      (apply nonneg_Insert; [apply Hnn | exact I]).
  - (* SetState *)
    apply nonneg_upsertAccount. apply nonneg_on_object. apply nonneg_keep_balance.
    intros x. now rewrite write_slot_Account.
  - (* IncrNonce *)
    apply nonneg_upsertAccount. apply nonneg_on_object. now apply nonneg_keep_balance.
  - (* SetNonce *)
    apply nonneg_upsertAccount. apply nonneg_on_object. now apply nonneg_keep_balance.
  - (* SetCode *)
    apply nonneg_upsertAccount. apply nonneg_on_object. now apply nonneg_keep_balance.
  - (* Suicide *)
    apply nonneg_upsertAccount.
    intros [x|] r o' Hx H; [|discriminate].
    destruct (obj_Suicide x); inversion H; subst; simpl; lia.
  - (* Logs *)
    intros t a t' H Hnn. unfold Logs in H.
    destruct (Radix.Get logIndex (Txn_txn t)) as [[| |]|]; try discriminate;
      inversion H; subst; [|exact Hnn].
    apply nonneg_set_txn; [|exact Hnn]. apply nonneg_Delete. apply Hnn.
  - (* TouchAccount *)
    apply nonneg_upsertAccount.
    intros [x|] r o' Hx H; inversion H; subst; exact Hx.
  - (* CreateAccount *)
    intros t a t' H Hnn. unfold CreateAccount in H.
    destruct (getStateObject addr t) as [prev|]; [|discriminate].
    inversion H; subst. apply nonneg_set_txn; [|exact Hnn].
    apply nonneg_Insert; [apply Hnn|]. destruct prev; simpl; lia.
  - (* CleanDeleteObjects *)
    unfold CleanDeleteObjects.
    apply (stable_bind _ nonneg_step_trans); [apply (stable_read _ nonneg_step_refl)|].
    intros remove. apply (stable_bind _ nonneg_step_trans).
    + apply (stable_for_each _ nonneg_step_refl nonneg_step_trans).
      intros k t a t' H Hnn. unfold mark_deleted in H.
      destruct (Radix.Get k (Txn_txn t)) as [[o| |]|] eqn:E; try discriminate.
      inversion H; subst. apply nonneg_set_txn; [|exact Hnn].
      apply nonneg_Insert; [apply Hnn|]. rewrite Copy_id. simpl.
      destruct Hnn as [_ [Hj _]]. apply Radix.Get_In in E.
      unfold nonneg_journal in Hj. rewrite Forall_forall in Hj. exact (Hj _ E).
    + intros _ t a t' H Hnn. inversion H; subst.
      apply nonneg_set_txn; [|exact Hnn]. apply nonneg_Delete. apply Hnn.
Qed.

(** X17. No balance goes below zero: when no balance of the committed
    state or of the journal is negative and the amounts the caller adds
    ([AddBalance], [AddSealingReward]) are not negative, then after any
    operations no balance of the journal is negative and every balance read
    is at least 0.  [SubBalance] needs no condition on its amount: its guard
    refuses what the balance does not cover. *)
Theorem balances_nonneg (ops : list op) (t t' : Txn) :
  nonneg_txn t ->
  Forall op_nonneg ops ->
  run_ops ops t = Ok (tt, t') ->
  nonneg_txn t' /\
  (forall a b, GetBalance a t' = Ok b -> 0 <= b).
Proof.
  intros Hnn Hops Hrun.
  assert (nonneg_txn t') as Hnn'.
  { revert t Hnn Hrun. unfold run_ops.
    induction Hops as [|o ops Ho Hops IH]; intros t Hnn H; simpl in H.
    - inversion H. now subst.
    - apply bind_inv in H. destruct H as [u [t1 [H1 H2]]].
      apply (IH t1); [|exact H2].
      exact (nonneg_run_op o Ho _ _ _ H1 Hnn). }
  split; [exact Hnn'|].
  intros a b Hb. destruct (GetBalance_inv _ _ _ Hb) as [got [Hg ->]].
  destruct got as [o|]; [|lia].
  exact (nonneg_getStateObject _ _ _ Hnn' Hg).
Qed.

(** *** The gas pool of the tests (txn_test.go) *)

Record gasPool : Type := mkGasPool { gas : Z (* uint64 *) }.

Definition newGasPool (gas : Z) : gasPool := mkGasPool gas.

(** [SubGas] returns the error (nil when there is none) and the pool after
    the call. *)
Definition SubGas (amount : Z) (g : gasPool) : option string * gasPool :=
  if gas g <? amount then (Some "gas limit reached"%string, g)
  else (None, mkGasPool (u64 (gas g - amount))).

(** The calls of [SubGas] for a list of amounts, one after the other: the
    amounts it accepted and the pool at the end. *)
Fixpoint SubGas_each (amounts : list Z) (g : gasPool) : list Z * gasPool :=
  match amounts with
  | [] => ([], g)
  | amount :: rest =>
      match SubGas amount g with
      | (None, g') => let '(taken, g'') := SubGas_each rest g' in (amount :: taken, g'')
      | (Some _, g') => SubGas_each rest g'
      end
  end.

(** X18. [SubGas] never overdraws the pool: an amount above the gas left is
    refused and leaves the pool as it is, any other is taken off exactly,
    without wrap-around.  Over any sequence of calls the gas left plus the
    amounts accepted is the gas the pool started with. *)
Theorem SubGas_conserves (amounts : list Z) (g : gasPool) :
  0 <= gas g < 2 ^ 64 ->
  Forall (fun amount => 0 <= amount < 2 ^ 64) amounts ->
  (forall amount, 0 <= amount < 2 ^ 64 ->
     (gas g < amount -> SubGas amount g = (Some "gas limit reached"%string, g)) /\
     (amount <= gas g -> SubGas amount g = (None, mkGasPool (gas g - amount)))) /\
  let '(taken, g') := SubGas_each amounts g in
  gas g' + fold_right Z.add 0 taken = gas g /\ 0 <= gas g' <= gas g.
Proof.
  intros Hg Hall.
  assert (forall amount p, 0 <= gas p < 2 ^ 64 -> 0 <= amount < 2 ^ 64 ->
            (gas p < amount -> SubGas amount p = (Some "gas limit reached"%string, p)) /\
            (amount <= gas p -> SubGas amount p = (None, mkGasPool (gas p - amount))))
    as Hone.
  { intros amount p Hp Ha. unfold SubGas.
    destruct (Z.ltb_spec (gas p) amount); split; intros; try lia; [reflexivity|].
    now rewrite u64_small by lia. }
  split; [intros amount Ha; now apply Hone|].
  revert g Hg. induction Hall as [|amount rest Ha Hrest IH]; intros g Hg; simpl.
  - lia.
  - destruct (Hone amount g Hg Ha) as [Hfail Htake].
    destruct (Z.lt_ge_cases (gas g) amount) as [Hlt|Hge].
    + rewrite (Hfail Hlt). exact (IH g Hg).
    + rewrite (Htake Hge).
      assert (0 <= gas (mkGasPool (gas g - amount)) < 2 ^ 64) as Hg' by (simpl; lia).
      specialize (IH _ Hg').
      destruct (SubGas_each rest (mkGasPool (gas g - amount))) as [taken g''].
      simpl in IH |- *. lia.
Qed.

(** *** Accounts that are not there, and accounts made anew *)

(** X19. An address reads as nothing when the journal has no entry for it
    and the committed state gives an error or no account, and also when the
    journal holds an object flagged as deleted, whatever the committed state
    holds (the journal is looked up first): no account, balance 0, nonce 0,
    no code, zero code hash, zero slots, not existing, empty, not suicided.
    No read returns an error. *)
Theorem absent_reads (addr : Address) (txn : Txn) :
  (Radix.Get (Address_Bytes addr) (Txn_txn txn) = None /\
   (snd (Snapshot_GetAccount (Txn_snapshot txn) addr) = true \/
    fst (Snapshot_GetAccount (Txn_snapshot txn) addr) = None)) \/
  (exists o, Radix.Get (Address_Bytes addr) (Txn_txn txn) = Some (VObject o) /\
             obj_Deleted o = true) ->
  GetAccount addr txn = Ok None /\
  GetBalance addr txn = Ok 0 /\
  GetNonce addr txn = Ok 0 /\
  GetCode addr txn = Ok [] /\
  GetCodeSize addr txn = Ok 0 /\
  GetCodeHash addr txn = Ok zeroHash /\
  (forall k, GetState addr k txn = Ok zeroHash) /\
  (forall k, GetCommittedState addr k txn = Ok zeroHash) /\
  Exist addr txn = Ok false /\
  Empty addr txn = Ok true /\
  HasSuicided addr txn = Ok false.
Proof.
  intros H.
  assert (getStateObject addr txn = Ok None) as Hg.
  { destruct H as [[Hj Hs]|[o [Hj Hd]]].
    - unfold getStateObject. rewrite Hj.
      destruct (Snapshot_GetAccount (Txn_snapshot txn) addr) as [[acc|] [|]];
        simpl in Hs; try reflexivity.
      destruct Hs; discriminate.
    - exact (getStateObject_absent_of_deleted _ _ _ Hj Hd). }
  unfold GetAccount, GetBalance, GetNonce, GetCodeSize, GetCode, GetCodeHash, Empty,
    GetState, GetCommittedState, Exist, HasSuicided.
  rewrite Hg. simpl. repeat split.
Qed.

(** X20. [CreateAccount] drops what the transaction wrote to the account:
    after a [SetState] and a [CreateAccount] the slots read from the committed
    state under [EmptyStateHash], not from the overlay and not under the root
    the account had; the nonce reads 0 and the suicide flag is off; the
    balance is the magnitude of the one before. *)
Theorem CreateAccount_resets (addr : Address) (key value : Hash) (txn : Txn)
    (got : option stateObject) :
  getStateObject addr txn = Ok got ->
  exists t1 t2,
    SetState addr key value txn = Ok (tt, t1) /\
    CreateAccount addr t1 = Ok (tt, t2) /\
    (forall k, GetState addr k t2 =
               Ok (Snapshot_GetStorage (Txn_snapshot txn) addr EmptyStateHash k)) /\
    (forall k, GetCommittedState addr k t2 =
               Ok (Snapshot_GetStorage (Txn_snapshot txn) addr EmptyStateHash k)) /\
    GetNonce addr t2 = Ok 0 /\
    HasSuicided addr t2 = Ok false /\
    Exist addr t2 = Ok true /\
    GetBalance addr t2 = Ok (Z.abs (Balance (obj_Account (materialise got)))).
Proof.
  intros Hg. pose proof (materialise_not_deleted _ _ _ Hg) as Hd.
  set (o1 := write_slot key value (materialise got)).
  set (t1 := with_object addr o1 txn).
  assert (getStateObject addr t1 = Ok (Some o1)) as Hg1
    by (apply getStateObject_stored; unfold o1; now rewrite write_slot_Deleted).
  set (o2 := mkStateObject
               (mkAccount 0 (Z.abs (Balance (obj_Account o1))) EmptyStateHash EmptyCodeHash)
               [] false false false None).
  exists t1, (with_object addr o2 t1).
  split; [exact (SetState_ok _ _ _ _ _ Hg)|].
  split; [unfold CreateAccount; rewrite Hg1; reflexivity|].
  assert (getStateObject addr (with_object addr o2 t1) = Ok (Some o2)) as Hg2
    by (apply getStateObject_stored; reflexivity).
  unfold GetState, GetCommittedState, GetNonce, HasSuicided, Exist, GetBalance.
  rewrite Hg2. simpl. unfold o1. rewrite write_slot_Account. repeat split.
Qed.

End Methods.

(** ** The scenarios of the specification on a sample state *)

(** The hash function is external; on the sample state any function of the
    bytes stands for it. *)
Definition sample_Keccak256 (b : bytes) : bytes := BytesToHash b.

Definition alice : Address := BytesToAddress [x0a].
Definition bob : Address := BytesToAddress [x0b].
Definition used_slot : Hash := BytesToHash [x07].
Definition free_slot : Hash := BytesToHash [x08].
Definition hash_five : Hash := BytesToHash [x05].
Definition alice_root : Hash := BytesToHash [x77].

Definition alice_account : Account :=
  mkAccount 3 50 alice_root (EmptyCodeHash sample_Keccak256).

(** The committed state: alice holds 50, has nonce 3 and the value 5 in
    [used_slot]; no other account exists. *)
Definition sample_snapshot : Snapshot :=
  mkSnapshot
    (fun a => if bytes_eqb a alice then (Some alice_account, false) else (None, false))
    (fun _ _ => ([], false))
    (fun a root k =>
       if bytes_eqb a alice && bytes_eqb root alice_root && bytes_eqb k used_slot
       then hash_five else zeroHash).

Definition sample_txn (rev : Revision) : Txn :=
  mkTxn sample_snapshot [] Radix.New rev [].

(** The growth of the Go runtime on a small slice of pointers: a full array
    of capacity [c] makes way for one of capacity [2 * c], an empty one for
    one of capacity 1. *)
Definition sample_spare (c : nat) : nat := Nat.pred c.

(** A transaction with a few writes behind it. *)
Definition sample_ops : list op :=
  [OpSetBalance bob 100; OpSetState bob used_slot hash_five;
   OpSetState bob free_slot zeroHash; OpSuicide alice;
   OpEmitLog alice [] []; OpAddRefund 7].

Definition sample_dirty : Txn :=
  match run_ops sample_Keccak256 sample_spare sample_ops (sample_txn Istanbul) with
  | Ok (_, t) => t
  | Panics _ => sample_txn Istanbul
  end.

Lemma sample_dirty_wf : wf_txn sample_dirty.
Proof.
  apply (wf_run_ops sample_Keccak256 sample_spare sample_ops (sample_txn Istanbul)).
  - repeat constructor.
  - split; [apply wf_journal_New | constructor].
  - vm_compute. reflexivity.
Qed.

Lemma SetStorage_istanbul_sequence_witness :
  exists txn1 txn2 txn3,
    SetStorage sample_Keccak256 alice free_slot hash_one (sample_txn Istanbul)
      = Ok (StorageAdded, txn1) /\
    SetStorage sample_Keccak256 alice free_slot hash_two txn1
      = Ok (StorageModifiedAgain, txn2) /\
    SetStorage sample_Keccak256 alice free_slot zeroHash txn2
      = Ok (StorageModifiedAgain, txn3) /\
    GetRefund txn1 = Ok 0 /\ GetRefund txn2 = Ok 0 /\ GetRefund txn3 = Ok 19200.
Proof.
  destruct (SetStorage_istanbul_sequence sample_Keccak256 alice free_slot
              (mkStateObject alice_account [] false false false None) 0
              (sample_txn Istanbul) eq_refl eq_refl eq_refl eq_refl eq_refl eq_refl)
    as (t1 & t2 & t3 & H1 & H2 & H3 & H4 & H5 & H6 & H7).
  exists t1, t2, t3. repeat split; assumption.
Defined.

Lemma SetStorage_legacy_witness :
  exists txn',
    SetStorage sample_Keccak256 alice used_slot zeroHash (sample_txn Petersburg)
      = Ok (StorageDeleted, txn') /\
    GetRefund txn' = Ok 15000.
Proof.
  assert (zeroHash <> hash_five) as Hne by (apply bytes_eqb_neq; reflexivity).
  destruct (SetStorage_legacy sample_Keccak256 alice used_slot zeroHash hash_five 0
              (sample_txn Petersburg) eq_refl (or_intror eq_refl) eq_refl eq_refl Hne)
    as (st & t' & Hrun & _ & Hdel & _).
  destruct Hdel as (Hs & Hr & _); [congruence | reflexivity |].
  subst st. exists t'. split; [exact Hrun | exact Hr].
Defined.

Lemma SetStorage_unchanged_witness :
  SetStorage sample_Keccak256 alice used_slot hash_five (sample_txn Istanbul)
    = Ok (StorageUnchanged, sample_txn Istanbul) /\
  exists status txn1,
    SetStorage sample_Keccak256 alice used_slot hash_one (sample_txn Istanbul)
      = Ok (status, txn1) /\
    SetStorage sample_Keccak256 alice used_slot hash_one txn1
      = Ok (StorageUnchanged, txn1).
Proof.
  split.
  - apply (SetStorage_unchanged sample_Keccak256 alice used_slot hash_five
             (sample_txn Istanbul)).
    reflexivity.
  - destruct (SetStorage sample_Keccak256 alice used_slot hash_one (sample_txn Istanbul))
      as [[status txn1]|p] eqn:E; [|vm_compute in E; discriminate E].
    exists status, txn1. split; [reflexivity|].
    apply (proj2 (SetStorage_unchanged sample_Keccak256 alice used_slot hash_one
                    (sample_txn Istanbul)) eq_refl eq_refl status txn1 E).
Defined.

Lemma SubBalance_spec_witness :
  SubBalance sample_Keccak256 alice 0 (sample_txn Istanbul)
    = Ok (None, sample_txn Istanbul) /\
  SubBalance sample_Keccak256 alice 60 (sample_txn Istanbul)
    = Ok (Some ErrNotEnoughFunds, sample_txn Istanbul) /\
  exists txn',
    SubBalance sample_Keccak256 alice 20 (sample_txn Istanbul) = Ok (None, txn') /\
    GetBalance alice txn' = Ok 30.
Proof.
  split; [|split].
  - apply (SubBalance_spec sample_Keccak256 alice 0 50 (sample_txn Istanbul) eq_refl).
    reflexivity.
  - apply (SubBalance_spec sample_Keccak256 alice 60 50 (sample_txn Istanbul) eq_refl); lia.
  - destruct (SubBalance_spec sample_Keccak256 alice 20 50 (sample_txn Istanbul) eq_refl)
      as (_ & _ & H).
    destruct H as (t' & H1 & H2 & _); [lia | lia |].
    exists t'. split; assumption.
Defined.

(** The logs of the scenario below. *)
Definition sample_log (b : byte) : option Log := Some (mkLog alice [] [b]).

(** C5. The claim fails on the code for the logs.  From a new transaction,
    emit three logs (the third lands in an array of capacity 4), take
    snapshot 0 and emit a fourth log: [append] writes it into the spare cell
    of the array that snapshot 0 shares.  Now take a snapshot, id 1, run the
    operations [RevertToSnapshot 0; EmitLog] (the log takes the place of the
    fourth, in the same cell) and revert to id 1.  The revert restores the
    journal, slice and all, but the fourth log that is read is the one
    emitted after the snapshot: what is observed is not what was observed
    when snapshot 1 was taken. *)
Theorem Snapshot_revert_overwrites :
  exists txn id txn0 txn1 txn2,
    run_ops sample_Keccak256 sample_spare
      [OpEmitLog alice [] [x01]; OpEmitLog alice [] [x02]; OpEmitLog alice [] [x03];
       OpSnapshot; OpEmitLog alice [] [x04]] (NewTxn sample_snapshot) = Ok (tt, txn) /\
    Snapshot_ txn = Ok (id, txn0) /\
    run_ops sample_Keccak256 sample_spare
      [OpRevertToSnapshot 0; OpEmitLog alice [] [x05]] txn0 = Ok (tt, txn1) /\
    RevertToSnapshot id txn1 = Ok (tt, txn2) /\
    Txn_txn txn2 = Txn_txn txn /\
    pending_Logs txn
    = Ok [sample_log x01; sample_log x02; sample_log x03; sample_log x04] /\
    pending_Logs txn2
    = Ok [sample_log x01; sample_log x02; sample_log x03; sample_log x05] /\
    observe sample_Keccak256 txn2 <> observe sample_Keccak256 txn.
Proof.
  do 5 eexists.
  split; [vm_compute; reflexivity|].
  split; [vm_compute; reflexivity|].
  split; [vm_compute; reflexivity|].
  split; [vm_compute; reflexivity|].
  split; [reflexivity|].
  split; [vm_compute; reflexivity|].
  split; [vm_compute; reflexivity|].
  intros E.
  match type of E with
  | observe _ ?a = observe _ ?b =>
      assert (pending_Logs a = pending_Logs b) as E' by exact (f_equal see_Logs E)
  end.
  vm_compute in E'. discriminate E'.
Qed.

Lemma sample_dirty_wf_heap : wf_heap sample_dirty.
Proof.
  apply (wf_heap_run_ops sample_Keccak256 sample_spare sample_ops (sample_txn Istanbul)).
  - split; [|constructor]. intros s H. discriminate H.
  - vm_compute. reflexivity.
Qed.

Lemma Snapshot_revert_stack_witness :
  (exists id txn0 txn1 txn2,
     Snapshot_ sample_dirty = Ok (id, txn0) /\
     run_ops sample_Keccak256 sample_spare
       [OpSetBalance bob 200; OpEmitLog bob [] [x01]; OpSnapshot; OpEmitLog bob [] [x02];
        OpRevertToSnapshot 1; OpSetStorage bob used_slot hash_one; OpLogs;
        OpCreateAccount alice; OpCleanDeleteObjects true] txn0 = Ok (tt, txn1) /\
     GetBalance bob txn1 = Ok 200 /\
     RevertToSnapshot id txn1 = Ok (tt, txn2) /\
     observe sample_Keccak256 txn2 = observe sample_Keccak256 sample_dirty /\
     GetBalance bob txn2 = Ok 100 /\
     pending_Logs txn2 = Ok [Some (mkLog alice [] [])]) /\
  (exists t1 id t2 t3 t4,
     SetBalance sample_Keccak256 bob 100 (sample_txn Istanbul) = Ok (tt, t1) /\
     Snapshot_ t1 = Ok (id, t2) /\
     SetBalance sample_Keccak256 bob 200 t2 = Ok (tt, t3) /\
     RevertToSnapshot id t3 = Ok (tt, t4) /\
     GetBalance bob t4 = Ok 100).
Proof.
  split.
  - destruct (Snapshot_ sample_dirty) as [[id txn0]|p] eqn:Es; [|discriminate Es].
    destruct (run_ops sample_Keccak256 sample_spare
                [OpSetBalance bob 200; OpEmitLog bob [] [x01]; OpSnapshot;
                 OpEmitLog bob [] [x02]; OpRevertToSnapshot 1;
                 OpSetStorage bob used_slot hash_one; OpLogs;
                 OpCreateAccount alice; OpCleanDeleteObjects true] txn0)
      as [[[] txn1]|p] eqn:Er.
    + destruct (proj1 (Snapshot_revert_stack sample_Keccak256 sample_spare sample_dirty)
                  _ _ _ _ Es Er)
        as (txn2 & Hrev & Hj & Hsn & Hrv & _ & Hobs).
      assert (observe sample_Keccak256 txn2 = observe sample_Keccak256 sample_dirty) as Ho.
      { apply Hobs; [exact sample_dirty_wf_heap|].
        inversion Es; subst id. repeat constructor; simpl; lia. }
      exists id, txn0, txn1, txn2. repeat split; try assumption.
      * inversion Es; subst. vm_compute in Er. inversion Er; subst. reflexivity.
      * change (see_Balance (observe sample_Keccak256 txn2) bob = Ok 100).
        rewrite Ho. reflexivity.
      * change (see_Logs (observe sample_Keccak256 txn2) = Ok [Some (mkLog alice [] [])]).
        rewrite Ho. reflexivity.
    + inversion Es; subst. vm_compute in Er. discriminate Er.
  - destruct (proj2 (Snapshot_revert_stack sample_Keccak256 sample_spare (sample_txn Istanbul))
                bob None eq_refl)
      as (t1 & id & t2 & t3 & t4 & H1 & H2 & H3 & _ & H4 & H5).
    exists t1, id, t2, t3, t4. repeat split; assumption.
Defined.

Lemma RevertToSnapshot_range_witness :
  (exists p, RevertToSnapshot (-1) (set_snapshots [Radix.New] sample_dirty) = Panics p) /\
  (exists p, RevertToSnapshot 1 (set_snapshots [Radix.New] sample_dirty) = Panics p) /\
  (exists p, RevertToSnapshot 2 (set_snapshots [Radix.New] sample_dirty) = Panics p) /\
  (exists txn',
     RevertToSnapshot 0 (set_snapshots [Radix.New] sample_dirty) = Ok (tt, txn') /\
     Txn_txn txn' = Radix.New /\
     Txn_snapshots txn' = [Radix.New]).
Proof.
  split; [|split; [|split]].
  - apply (RevertToSnapshot_range (-1) (set_snapshots [Radix.New] sample_dirty)).
    left. lia.
  - apply (RevertToSnapshot_range 1 (set_snapshots [Radix.New] sample_dirty)).
    right. simpl. lia.
  - apply (RevertToSnapshot_range 2 (set_snapshots [Radix.New] sample_dirty)).
    right. simpl. lia.
  - assert (0 <= 0 < Z.of_nat (length (Txn_snapshots (set_snapshots [Radix.New] sample_dirty))))
      as Hin by (simpl; lia).
    destruct (proj2 (RevertToSnapshot_range 0 (set_snapshots [Radix.New] sample_dirty)) Hin)
      as (tree & t' & Hn & Hrun & Hj & Hs & _).
    exists t'. split; [exact Hrun|]. split; [|exact Hs].
    rewrite Hj. simpl in Hn. now inversion Hn.
Defined.

Lemma Commit_ordered_witness :
  StronglySorted bytes_lt (map Object_Address (Commit sample_dirty)) /\
  map Object_Address (Commit sample_dirty) = [alice; bob] /\
  (forall obj, In obj (Commit sample_dirty) -> Object_Deleted obj = false ->
     StronglySorted bytes_lt (map Storage_Key (Object_Storage obj))).
Proof.
  destruct (Commit_ordered sample_dirty (proj1 sample_dirty_wf))
    as (_ & _ & Hsorted & Hslots & _).
  split; [exact Hsorted|]. split; [vm_compute; reflexivity|].
  intros obj Hin Hd. exact (proj1 (Hslots obj Hin Hd)).
Defined.

Lemma CreateAccount_fresh_witness :
  exists obj txn',
    CreateAccount sample_Keccak256 alice (sample_txn Istanbul) = Ok (tt, txn') /\
    getStateObject alice txn' = Ok (Some obj) /\
    Balance (obj_Account obj) = 50 /\
    Nonce (obj_Account obj) = 0 /\
    obj_Txn obj = None.
Proof.
  destruct (CreateAccount_fresh sample_Keccak256 alice 50 (sample_txn Istanbul) eq_refl)
    as (obj & t' & Hrun & _ & Hg & _ & Hb & Hn & _ & _ & _ & Ht & _).
  exists obj, t'. repeat split; try assumption.
  apply Hb. lia.
Defined.


Lemma Suicide_again_witness :
  exists b t1 t2 t3,
    Suicide sample_Keccak256 alice (sample_txn Istanbul) = Ok (b, t1) /\
    AddBalance sample_Keccak256 alice 7 t1 = Ok (tt, t2) /\
    GetBalance alice t2 = Ok 7 /\
    Suicide sample_Keccak256 alice t2 = Ok (false, t3) /\
    GetBalance alice t3 = Ok 0.
Proof.
  apply (Suicide_again sample_Keccak256 alice
           (mkStateObject alice_account [] false false false None)
           (sample_txn Istanbul) eq_refl).
  lia.
Defined.

(** ** The further properties on the sample state *)

Definition alice_object : stateObject :=
  mkStateObject alice_account [] false false false None.

Lemma alice_not_bob : alice <> bob.
Proof. apply bytes_eqb_neq. reflexivity. Qed.

Lemma sample_txn_nonneg (rev : Revision) : nonneg_txn (sample_txn rev).
Proof.
  split; [|split; constructor].
  intros a acc e. simpl. destruct (bytes_eqb a alice); intros H; inversion H.
  simpl. lia.
Qed.

Lemma SetState_GetState_witness :
  exists txn',
    SetState sample_Keccak256 alice free_slot hash_one (sample_txn Istanbul) = Ok (tt, txn') /\
    GetState alice free_slot txn' = Ok hash_one /\
    GetState alice used_slot txn' = Ok hash_five.
Proof.
  destruct (SetState_GetState sample_Keccak256 alice free_slot hash_one (sample_txn Istanbul)
              (Some alice_object) eq_refl eq_refl) as (t' & H1 & H2 & H3 & _).
  exists t'. split; [exact H1|]. split; [exact H2|].
  assert (Some alice_object <> None) as Hv by discriminate.
  rewrite (proj1 (H3 Hv) used_slot); [reflexivity|].
  apply bytes_eqb_neq. reflexivity.
Defined.

Lemma Nonce_roundtrip_witness :
  (exists txn',
     SetNonce sample_Keccak256 alice 9 (sample_txn Istanbul) = Ok (tt, txn') /\
     GetNonce alice txn' = Ok 9) /\
  (exists txn',
     IncrNonce sample_Keccak256 alice (sample_txn Istanbul) = Ok (tt, txn') /\
     GetNonce alice txn' = Ok 4).
Proof.
  destruct (Nonce_roundtrip sample_Keccak256 alice (sample_txn Istanbul)
              (Some alice_object) eq_refl) as [H1 H2].
  split.
  - destruct (H1 9) as (t' & Ha & Hb & _). exists t'. split; assumption.
  - destruct (H2 3 eq_refl) as (t' & Ha & _ & Hb & _). exists t'.
    split; [exact Ha|]. apply Hb. lia.
Defined.

Lemma SetCode_GetCode_witness :
  exists txn',
    SetCode sample_Keccak256 bob [x60; x00] (sample_txn Istanbul) = Ok (tt, txn') /\
    GetCode bob txn' = Ok [x60; x00] /\
    GetCodeSize bob txn' = Ok 2.
Proof.
  destruct (SetCode_GetCode sample_Keccak256 bob [x60; x00] (sample_txn Istanbul)
              None eq_refl) as (t' & H1 & H2 & H3 & _).
  exists t'. repeat split; assumption.
Defined.

Lemma AddBalance_SubBalance_witness :
  exists t1 t2,
    AddBalance sample_Keccak256 alice 5 (sample_txn Istanbul) = Ok (tt, t1) /\
    GetBalance alice t1 = Ok 55 /\
    SubBalance sample_Keccak256 alice 5 t1 = Ok (None, t2) /\
    GetBalance alice t2 = Ok 50.
Proof.
  destruct (AddBalance_SubBalance sample_Keccak256 alice 5 50 (sample_txn Istanbul) eq_refl)
    as (t1 & H1 & H2 & _ & H3).
  assert (0 <= 50) as Hnn by lia.
  destruct (H3 Hnn) as (t2 & H4 & H5).
  exists t1, t2. repeat split; assumption.
Defined.

Lemma transfer_conserves_witness :
  exists t1 t2,
    SubBalance sample_Keccak256 alice 20 (sample_txn Istanbul) = Ok (None, t1) /\
    AddBalance sample_Keccak256 bob 20 t1 = Ok (tt, t2) /\
    GetBalance alice t2 = Ok 30 /\
    GetBalance bob t2 = Ok 20.
Proof.
  assert (20 <> 0) as Hv by lia. assert (20 <= 50) as Hle by lia.
  destruct (transfer_conserves sample_Keccak256 alice bob 20 50 0 (sample_txn Istanbul)
              alice_not_bob eq_refl eq_refl Hv Hle)
    as (t1 & t2 & x' & y' & H1 & H2 & H3 & H4 & Hx & Hy & _).
  exists t1, t2. subst x' y'. repeat split; assumption.
Defined.

Lemma upsertAccount_frame_witness :
  exists txn',
    AddBalance sample_Keccak256 alice 5 sample_dirty = Ok (tt, txn') /\
    GetBalance bob txn' = GetBalance bob sample_dirty /\
    GetRefund txn' = GetRefund sample_dirty /\
    pending_Logs txn' = pending_Logs sample_dirty.
Proof.
  destruct (AddBalance sample_Keccak256 alice 5 sample_dirty) as [[[] t']|p] eqn:E;
    [|vm_compute in E; discriminate E].
  assert (bob <> alice) as Hne by (apply bytes_eqb_neq; reflexivity).
  destruct (upsertAccount_frame sample_Keccak256 alice true _ sample_dirty t' tt eq_refl E)
    as (Hb & Hr & Hl & _).
  exists t'. split; [reflexivity|]. split; [exact (proj1 (proj2 (Hb bob Hne)))|].
  split; assumption.
Defined.

Lemma EmitLog_Logs_witness :
  exists t1 s t2,
    EmitLog sample_spare bob [] [x01] sample_dirty = Ok (tt, t1) /\
    Logs t1 = Ok (s, t2) /\
    elems (Txn_heap t2) s = [Some (mkLog alice [] []); Some (mkLog bob [] [x01])] /\
    Logs t2 = Ok (mkSlice None 0, t2) /\
    pending_Logs t2 = Ok [].
Proof.
  assert (pending_Logs sample_dirty = Ok [Some (mkLog alice [] [])]) as Hl
    by (vm_compute; reflexivity).
  destruct (EmitLog_Logs sample_spare bob [] [x01] [Some (mkLog alice [] [])]
              sample_dirty Hl)
    as (t1 & s & t2 & H1 & _ & H2 & H3 & H4 & H5 & _).
  exists t1, s, t2. repeat split; assumption.
Defined.

Lemma Refund_roundtrip_witness :
  (exists t1 t2,
     AddRefund 10 sample_dirty = Ok (tt, t1) /\
     GetRefund t1 = Ok 17 /\
     SubRefund 10 t1 = Ok (tt, t2) /\
     GetRefund t2 = Ok 7) /\
  (exists t3,
     SubRefund 10 sample_dirty = Ok (tt, t3) /\
     GetRefund t3 = Ok (2 ^ 64 - 3)).
Proof.
  assert (GetRefund sample_dirty = Ok 7) as Hr by (vm_compute; reflexivity).
  destruct (Refund_roundtrip 10 7 sample_dirty Hr)
    as [(t1 & t2 & H1 & H2 & H3 & _ & H4) (t3 & H5 & _ & H6)].
  split.
  - exists t1, t2. repeat split; try assumption. apply H4. lia.
  - exists t3. split; [exact H5|]. apply H6; lia.
Defined.

Lemma Suicide_first_witness :
  Suicide sample_Keccak256 bob (sample_txn Istanbul) = Ok (false, sample_txn Istanbul) /\
  exists txn',
    Suicide sample_Keccak256 alice (sample_txn Istanbul) = Ok (true, txn') /\
    HasSuicided alice txn' = Ok true /\
    GetBalance alice txn' = Ok 0 /\
    Exist alice txn' = Ok true.
Proof.
  split.
  - exact (proj1 (Suicide_first sample_Keccak256 bob (sample_txn Istanbul)) eq_refl).
  - destruct (proj2 (Suicide_first sample_Keccak256 alice (sample_txn Istanbul))
                alice_object eq_refl eq_refl) as (t' & H1 & H2 & H3 & H4 & _).
    exists t'. repeat split; assumption.
Defined.

Lemma Suicide_CleanDeleteObjects_witness :
  exists b t1 t2,
    Suicide sample_Keccak256 alice (sample_txn Istanbul) = Ok (b, t1) /\
    CleanDeleteObjects sample_Keccak256 true t1 = Ok (tt, t2) /\
    Exist alice t2 = Ok false /\
    GetBalance alice t2 = Ok 0 /\
    exists obj,
      In obj (Commit t2) /\ Object_Address obj = alice /\ Object_Deleted obj = true.
Proof.
  assert (Radix.ok (Txn_txn (sample_txn Istanbul))) as Hok by constructor.
  destruct (Suicide_CleanDeleteObjects sample_Keccak256 alice alice_object true
              (sample_txn Istanbul) eq_refl Hok eq_refl)
    as (b & t1 & t2 & H1 & H2 & H3 & H4 & _ & _ & obj & H5 & H6 & H7 & _).
  exists b, t1, t2. repeat split; try assumption.
  exists obj. repeat split; assumption.
Defined.

Lemma TouchAccount_swept_witness :
  exists t1 t2 t3,
    TouchAccount sample_Keccak256 bob (sample_txn Istanbul) = Ok (tt, t1) /\
    Exist bob t1 = Ok true /\
    CleanDeleteObjects sample_Keccak256 true t1 = Ok (tt, t2) /\
    Exist bob t2 = Ok false /\
    CleanDeleteObjects sample_Keccak256 false t1 = Ok (tt, t3) /\
    Exist bob t3 = Ok true.
Proof.
  assert (Radix.ok (Txn_txn (sample_txn Istanbul))) as Hok by constructor.
  destruct (proj1 (TouchAccount_swept sample_Keccak256 bob (sample_txn Istanbul) eq_refl Hok)
              eq_refl)
    as (t1 & t2 & t3 & H1 & H2 & _ & H3 & H4 & H5 & H6).
  exists t1, t2, t3. repeat split; assumption.
Defined.

Lemma AddSealingReward_spec_witness :
  exists txn',
    AddSealingReward sample_Keccak256 alice 5 sample_dirty = Ok (tt, txn') /\
    GetBalance alice txn' = Ok 5 /\
    HasSuicided alice txn' = Ok false /\
    GetNonce alice txn' = Ok 0.
Proof.
  assert (getStateObject alice sample_dirty =
          Ok (Some (mkStateObject
                      (mkAccount 3 0 alice_root (EmptyCodeHash sample_Keccak256))
                      [] true false false None))) as Hg by (vm_compute; reflexivity).
  destruct (AddSealingReward_spec sample_Keccak256 alice 5 _ sample_dirty Hg)
    as (t' & H1 & H2 & _).
  destruct (H2 eq_refl) as (_ & H3 & H4 & H5 & _).
  exists t'. repeat split; assumption.
Defined.

Lemma Snapshot_nested_witness :
  exists id0 t0 t1 id1 t2 t3 t4 t5,
    Snapshot_ sample_dirty = Ok (id0, t0) /\
    run_ops sample_Keccak256 sample_spare
      [OpSetBalance bob 1; OpEmitLog bob [] [x01]] t0 = Ok (tt, t1) /\
    Snapshot_ t1 = Ok (id1, t2) /\
    run_ops sample_Keccak256 sample_spare
      [OpSetBalance bob 2; OpEmitLog bob [] [x02]; OpSuicide alice] t2 = Ok (tt, t3) /\
    id0 < id1 /\
    RevertToSnapshot id0 t3 = Ok (tt, t4) /\
    observe sample_Keccak256 t4 = observe sample_Keccak256 sample_dirty /\
    RevertToSnapshot id1 t4 = Ok (tt, t5) /\
    observe sample_Keccak256 t5 = observe sample_Keccak256 t1.
Proof.
  destruct (Snapshot_ sample_dirty) as [[id0 t0]|p] eqn:E0; [|discriminate E0].
  destruct (run_ops sample_Keccak256 sample_spare
              [OpSetBalance bob 1; OpEmitLog bob [] [x01]] t0) as [[[] t1]|p] eqn:E1;
    [|inversion E0; subst; vm_compute in E1; discriminate E1].
  destruct (Snapshot_ t1) as [[id1 t2]|p] eqn:E2; [|discriminate E2].
  destruct (run_ops sample_Keccak256 sample_spare
              [OpSetBalance bob 2; OpEmitLog bob [] [x02]; OpSuicide alice] t2)
    as [[[] t3]|p] eqn:E3.
  - destruct (Snapshot_nested sample_Keccak256 sample_spare _ _ _ _ _ _ _ _ _ E0 E1 E2 E3)
      as (Hlt & t4 & t5 & id2 & t6 & H1 & _ & _ & H2 & _ & _ & _ & _ & Hobs).
    destruct Hobs as [Ho4 Ho5];
      [exact sample_dirty_wf_heap | repeat constructor | repeat constructor |].
    exists id0, t0, t1, id1, t2, t3, t4, t5. repeat split; assumption.
  - exfalso. inversion E0; subst. vm_compute in E1. inversion E1; subst.
    inversion E2; subst. vm_compute in E3. discriminate E3.
Defined.

Lemma SetStorage_effect_witness :
  exists status txn',
    SetStorage sample_Keccak256 alice used_slot hash_one (sample_txn Istanbul)
      = Ok (status, txn') /\
    status <> StorageUnchanged /\
    GetBalance alice txn' = Ok 50 /\
    GetNonce alice txn' = Ok 3 /\
    GetState alice free_slot txn' = Ok zeroHash.
Proof.
  destruct (SetStorage sample_Keccak256 alice used_slot hash_one (sample_txn Istanbul))
    as [[status t']|p] eqn:E; [|vm_compute in E; discriminate E].
  destruct (SetStorage_effect sample_Keccak256 alice used_slot hash_one
              (sample_txn Istanbul) t' status eq_refl E)
    as (Hiff & _ & _ & _ & Hown).
  destruct (Hown alice_object eq_refl) as (Hb & Hn & _ & _ & _ & Hk).
  exists status, t'. split; [reflexivity|]. split; [|split; [|split]].
  - intros Hs. apply Hiff in Hs. vm_compute in Hs. discriminate Hs.
  - rewrite Hb. reflexivity.
  - rewrite Hn. reflexivity.
  - rewrite (Hk free_slot); [reflexivity|]. apply bytes_eqb_neq. reflexivity.
Defined.

Lemma run_op_returns_witness :
  (exists t',
     run_op sample_Keccak256 sample_spare (OpSetStorage bob used_slot hash_one) sample_dirty = Ok (tt, t') /\
     wf_txn t') /\
  (exists x, GetCodeHash sample_Keccak256 alice sample_dirty = Ok x) /\
  (exists l, pending_Logs sample_dirty = Ok l).
Proof.
  destruct (run_op_returns sample_Keccak256 sample_spare sample_dirty sample_dirty_wf)
    as (Hops & Hreads & _ & Hlogs).
  split; [|split].
  - apply Hops; [reflexivity | exact I].
  - destruct (Hreads alice zeroHash eq_refl) as (_ & _ & _ & _ & _ & H & _). exact H.
  - exact Hlogs.
Defined.

Lemma Commit_addresses_witness :
  NoDup (map Object_Address (Commit sample_dirty)) /\
  In alice (map Object_Address (Commit sample_dirty)) /\
  In bob (map Object_Address (Commit sample_dirty)).
Proof.
  destruct (Commit_addresses sample_dirty (proj1 sample_dirty_wf)) as (Hnd & Hiff & _).
  split; [exact Hnd|]. split; apply Hiff.
  - destruct (Radix.Get alice (Txn_txn sample_dirty)) as [[o| |]|] eqn:E;
      try (vm_compute in E; discriminate E).
    now exists o.
  - destruct (Radix.Get bob (Txn_txn sample_dirty)) as [[o| |]|] eqn:E;
      try (vm_compute in E; discriminate E).
    now exists o.
Defined.

Lemma balances_nonneg_witness :
  exists t',
    run_ops sample_Keccak256 sample_spare
      [OpAddBalance bob 5; OpSubBalance bob 9; OpSubBalance bob 2; OpSubBalance alice 50]
      (sample_txn Istanbul) = Ok (tt, t') /\
    nonneg_txn t' /\
    GetBalance bob t' = Ok 3 /\
    GetBalance alice t' = Ok 0.
Proof.
  destruct (run_ops sample_Keccak256 sample_spare
              [OpAddBalance bob 5; OpSubBalance bob 9; OpSubBalance bob 2; OpSubBalance alice 50]
              (sample_txn Istanbul)) as [[[] t']|p] eqn:E;
    [|vm_compute in E; discriminate E].
  assert (Forall op_nonneg
            [OpAddBalance bob 5; OpSubBalance bob 9; OpSubBalance bob 2; OpSubBalance alice 50])
    as Hops by (repeat constructor; simpl; lia).
  destruct (balances_nonneg sample_Keccak256 sample_spare _ (sample_txn Istanbul) t'
              (sample_txn_nonneg Istanbul) Hops E) as (Hnn & _).
  exists t'. split; [reflexivity|]. split; [exact Hnn|].
  vm_compute in E. inversion E; subst. split; reflexivity.
Defined.

Lemma SubGas_conserves_witness :
  SubGas 1001 (newGasPool 1000) = (Some "gas limit reached"%string, newGasPool 1000) /\
  SubGas_each [300; 800; 700] (newGasPool 1000) = ([300; 700], newGasPool 0) /\
  gas (snd (SubGas_each [300; 800; 700] (newGasPool 1000)))
    + fold_right Z.add 0 (fst (SubGas_each [300; 800; 700] (newGasPool 1000))) = 1000.
Proof.
  assert (0 <= gas (newGasPool 1000) < 2 ^ 64) as Hg by (simpl; lia).
  assert (Forall (fun amount => 0 <= amount < 2 ^ 64) [300; 800; 700]) as Hall
    by (repeat constructor; lia).
  destruct (SubGas_conserves [300; 800; 700] (newGasPool 1000) Hg Hall) as (Hone & Hsum).
  split; [|split].
  - apply Hone; simpl; lia.
  - reflexivity.
  - exact (proj1 Hsum).
Defined.

Lemma absent_reads_witness :
  GetAccount bob (sample_txn Istanbul) = Ok None /\
  GetBalance bob (sample_txn Istanbul) = Ok 0 /\
  GetCodeHash sample_Keccak256 bob (sample_txn Istanbul) = Ok zeroHash /\
  Exist bob (sample_txn Istanbul) = Ok false /\
  Empty sample_Keccak256 bob (sample_txn Istanbul) = Ok true.
Proof.
  destruct (absent_reads sample_Keccak256 bob (sample_txn Istanbul))
    as (H1 & H2 & _ & _ & _ & H3 & _ & _ & H4 & H5 & _).
  - left. split; [reflexivity | right; reflexivity].
  - repeat split; assumption.
Defined.

Lemma CreateAccount_resets_witness :
  exists t1 t2,
    SetState sample_Keccak256 alice used_slot hash_one (sample_txn Istanbul) = Ok (tt, t1) /\
    CreateAccount sample_Keccak256 alice t1 = Ok (tt, t2) /\
    GetState alice used_slot t2 = Ok zeroHash /\
    GetNonce alice t2 = Ok 0 /\
    GetBalance alice t2 = Ok 50.
Proof.
  destruct (CreateAccount_resets sample_Keccak256 alice used_slot hash_one
              (sample_txn Istanbul) (Some alice_object) eq_refl)
    as (t1 & t2 & H1 & H2 & H3 & _ & H4 & _ & _ & H5).
  exists t1, t2. split; [exact H1|]. split; [exact H2|].
  split; [rewrite H3; reflexivity|]. split; [exact H4 | exact H5].
Defined.
